(** * Request/response correlation over a webview channel

    A shallow embedding of the TypeScript sources of the REST-over-webview
    transport:

    - [shared/src/protocol/types.ts]      the message protocol ([Protocol]);
    - [shared/src/utils/correlation.ts]   the correlation manager
      ([Correlation]);
    - [server/src/transport/vscode-transport-server.ts]  the emulated
      response object and the transport server ([Server]);
    - [client/src/http-client/vscode-http-client.ts]  the fetch-like response
      and the HTTP client ([Client]).

    JavaScript objects are records, object identity is an index into a heap
    (a list), mutation is explicit state passing, and the functions of the
    JavaScript runtime the sources call ([JSON.parse], [JSON.stringify]) are
    a type class. *)

From stdpp Require Import base gmap strings list pretty.

Open Scope string_scope.
Open Scope Z_scope.
Open Scope list_scope.

(** ** JavaScript values *)

Module Js.

(** The values a message body or a response chunk can hold.  Numbers are
    modelled by the integers. *)
Unset Elimination Schemes.
Inductive JsValue :=
| JUndefined
| JNull
| JBool (b : bool)
| JNum (n : Z)
| JStr (s : string)
| JArr (xs : list JsValue)
| JObj (fields : list (string * JsValue)).
Set Elimination Schemes.

Inductive JsType := TyUndefined | TyObject | TyBoolean | TyNumber | TyString.

(** [typeof v] *)
Definition typeof (v : JsValue) : JsType :=
  match v with
  | JUndefined => TyUndefined
  | JNull | JArr _ | JObj _ => TyObject
  | JBool _ => TyBoolean
  | JNum _ => TyNumber
  | JStr _ => TyString
  end.

(** [v === undefined] *)
Definition is_undefined (v : JsValue) : bool :=
  match v with
  | JUndefined => true
  | _ => false
  end.

(** [v === undefined || v === null] *)
Definition nullish (v : JsValue) : bool :=
  match v with
  | JUndefined | JNull => true
  | _ => false
  end.

(** [Array.prototype.join]: an element that is [undefined] or [null]
    contributes the empty string, any other element its [ToString]. *)
Definition join_with (str : JsValue → string) (sep : string) : list JsValue → string :=
  fix go (xs : list JsValue) : string :=
    match xs with
    | [] => ""
    | x :: rest =>
        let sx := if nullish x then "" else str x in
        match rest with
        | [] => sx
        | _ :: _ => sx +:+ sep +:+ go rest
        end
    end.

(** [ToString] *)
Fixpoint to_string (v : JsValue) : string :=
  match v with
  | JUndefined => "undefined"
  | JNull => "null"
  | JBool true => "true"
  | JBool false => "false"
  | JNum n => pretty n
  | JStr s => s
  | JArr xs => join_with to_string "," xs
  | JObj _ => "[object Object]"
  end.

(** [xs.join(sep)] *)
Definition join (sep : string) (xs : list JsValue) : string :=
  join_with to_string sep xs.

(** [s.startsWith(p)] *)
Definition startsWith (p s : string) : bool := String.prefix p s.

(** [s.toLowerCase()], on the ASCII letters. *)
Definition lower_ascii (c : Ascii.ascii) : Ascii.ascii :=
  let n := Ascii.nat_of_ascii c in
  if (Nat.leb 65 n && Nat.leb n 90)%bool then Ascii.ascii_of_nat (n + 32) else c.

Fixpoint toLowerCase (s : string) : string :=
  match s with
  | EmptyString => EmptyString
  | String c rest => String (lower_ascii c) (toLowerCase rest)
  end.

(** What the sources take from the runtime.  [JSON_parse] is [None] where
    [JSON.parse] throws a [SyntaxError]; [JSON_stringify] yields a string or
    [undefined]. *)
Class Runtime := {
  JSON_parse : string → option JsValue;
  JSON_stringify : JsValue → JsValue;
}.

End Js.

(** ** The message protocol ([protocol/types.ts]) *)

Module Protocol.
Import Js.

Inductive HttpMethod := GET | POST | PUT | DELETE | PATCH | HEAD | OPTIONS.

(** ['request' | 'response' | 'error'] *)
Inductive MessageType := MRequest | MResponse | MError.

(** [interface MessageProtocol].  An optional field that is absent is
    [None]; an absent [body] is [JUndefined]. *)
Record MessageProtocol := {
  msg_id : string;
  msg_type : MessageType;
  msg_method : option HttpMethod;
  msg_url : option string;
  msg_headers : option (gmap string string);
  msg_body : JsValue;
  msg_status : option Z;
  msg_error : option string;
  msg_stack : option string;
  msg_instanceId : option string;
  msg_timestamp : Z;
}.

Definition isRequestMessage (message : MessageProtocol) : bool :=
  match msg_type message, msg_method message, msg_url message with
  | MRequest, Some _, Some _ => true
  | _, _, _ => false
  end.

Definition isResponseMessage (message : MessageProtocol) : bool :=
  match msg_type message, msg_status message with
  | MResponse, Some _ => true
  | _, _ => false
  end.

Definition isErrorMessage (message : MessageProtocol) : bool :=
  match msg_type message, msg_error message, msg_status message with
  | MError, Some _, Some _ => true
  | _, _, _ => false
  end.

(** The object literal [{ id, type: 'error', error, status, timestamp }]. *)
Definition error_literal (id : string) (text : string) (status : Z) (timestamp : Z)
  : MessageProtocol :=
  {| msg_id := id; msg_type := MError; msg_method := None; msg_url := None;
     msg_headers := None; msg_body := JUndefined; msg_status := Some status;
     msg_error := Some text; msg_stack := None; msg_instanceId := None;
     msg_timestamp := timestamp |}.

(** The assignment [message.id = id]. *)
Definition set_id (id : string) (m : MessageProtocol) : MessageProtocol :=
  {| msg_id := id; msg_type := msg_type m; msg_method := msg_method m;
     msg_url := msg_url m; msg_headers := msg_headers m; msg_body := msg_body m;
     msg_status := msg_status m; msg_error := msg_error m;
     msg_stack := msg_stack m; msg_instanceId := msg_instanceId m;
     msg_timestamp := msg_timestamp m |}.

(** The same message carrying another [instanceId], or none. *)
Definition set_instanceId (instanceId : option string) (m : MessageProtocol)
  : MessageProtocol :=
  {| msg_id := msg_id m; msg_type := msg_type m; msg_method := msg_method m;
     msg_url := msg_url m; msg_headers := msg_headers m; msg_body := msg_body m;
     msg_status := msg_status m; msg_error := msg_error m;
     msg_stack := msg_stack m; msg_instanceId := instanceId;
     msg_timestamp := msg_timestamp m |}.

(** A JavaScript string is truthy when it is not empty; an absent field is
    [undefined], which is falsy. *)
Definition truthy (s : option string) : bool :=
  match s with
  | Some EmptyString | None => false
  | Some _ => true
  end.

End Protocol.

(** ** A JavaScript [Map] with string keys

    Iteration follows insertion order; [set] on a key that is present keeps
    the key's place. *)

Module JsMap.
Section JsMap.
Context {V : Type}.

Fixpoint get (k : string) (m : list (string * V)) : option V :=
  match m with
  | [] => None
  | (k', v) :: rest => if String.eqb k k' then Some v else get k rest
  end.

Fixpoint set (k : string) (v : V) (m : list (string * V)) : list (string * V) :=
  match m with
  | [] => [(k, v)]
  | (k', v') :: rest =>
      if String.eqb k k' then (k', v) :: rest else (k', v') :: set k v rest
  end.

Fixpoint delete (k : string) (m : list (string * V)) : list (string * V) :=
  match m with
  | [] => []
  | (k', v') :: rest =>
      if String.eqb k k' then delete k rest else (k', v') :: delete k rest
  end.

End JsMap.
End JsMap.

(** ** A reference runtime

    [JSON.parse] and [JSON.stringify] for the JSON texts whose numbers are
    integers written without fraction or exponent, and whose strings use the
    two-character escapes only; on any other text [parse] has no value to
    give and answers [None]. *)

Module JsonRef.
Import Js.

(** The character code of the head of [s], with the rest. *)
Definition uncons (s : string) : option (N * string) :=
  match s with
  | String c rest => Some (Ascii.N_of_ascii c, rest)
  | EmptyString => None
  end.

Definition is_ws (c : Ascii.ascii) : bool :=
  match Ascii.N_of_ascii c with
  | 32%N | 9%N | 10%N | 13%N => true
  | _ => false
  end.

Fixpoint skip_ws (s : string) : string :=
  match s with
  | String c rest => if is_ws c then skip_ws rest else s
  | EmptyString => s
  end.

Definition digit (c : Ascii.ascii) : option Z :=
  let n := Ascii.N_of_ascii c in
  if ((48 <=? n) && (n <=? 57))%N then Some (Z.of_N n - 48) else None.

(** The digits at the head of [s], read on top of [acc]. *)
Fixpoint digits (acc : Z) (s : string) : Z * string :=
  match s with
  | String c rest =>
      match digit c with
      | Some d => digits (10 * acc + d) rest
      | None => (acc, s)
      end
  | EmptyString => (acc, s)
  end.

(** A fraction or an exponent follows: "." "e" "E". *)
Definition starts_fraction (s : string) : bool :=
  match uncons s with
  | Some (46%N, _) | Some (101%N, _) | Some (69%N, _) => true
  | _ => false
  end.

(** "0", or a digit from 1 to 9 and more digits. *)
Definition natural (s : string) : option (Z * string) :=
  match s with
  | String c rest =>
      d ← digit c;
      let '(n, rest') := if d =? 0 then (0, rest) else digits d rest in
      if starts_fraction rest' then None
      else match rest' with
           | String c' _ =>
               match digit c' with Some _ => None | None => Some (n, rest') end
           | EmptyString => Some (n, rest')
           end
  | EmptyString => None
  end.

Definition number (s : string) : option (Z * string) :=
  match uncons s with
  | Some (45%N, rest) => '(n, rest') ← natural rest; Some (- n, rest')
  | _ => natural s
  end.

(** The character an escape stands for: quote, backslash, slash, b, f, n,
    r, t. *)
Definition escape (c : Ascii.ascii) : option Ascii.ascii :=
  match Ascii.N_of_ascii c with
  | 34%N | 92%N | 47%N => Some c
  | 98%N => Some (Ascii.ascii_of_N 8)
  | 102%N => Some (Ascii.ascii_of_N 12)
  | 110%N => Some (Ascii.ascii_of_N 10)
  | 114%N => Some (Ascii.ascii_of_N 13)
  | 116%N => Some (Ascii.ascii_of_N 9)
  | _ => None
  end.

(** The characters of a string literal after its opening quote. *)
Fixpoint chars (s : string) : option (string * string) :=
  match s with
  | EmptyString => None
  | String c rest =>
      match Ascii.N_of_ascii c with
      | 34%N => Some (EmptyString, rest)
      | 92%N =>
          match rest with
          | String e rest' =>
              c' ← escape e;
              '(text, rest'') ← chars rest';
              Some (String c' text, rest'')
          | EmptyString => None
          end
      | n =>
          if (n <? 32)%N then None
          else '(text, rest') ← chars rest; Some (String c text, rest')
      end
  end.

Definition literal (word : string) (v : JsValue) (s : string) : option (JsValue * string) :=
  if String.prefix word s
  then Some (v, String.substring (String.length word) (String.length s) s)
  else None.

Fixpoint value (fuel : nat) (s : string) : option (JsValue * string) :=
  match fuel with
  | O => None
  | S fuel =>
      let s := skip_ws s in
      match uncons s with
      | Some (123%N, rest) =>
          match uncons (skip_ws rest) with
          | Some (125%N, rest') => Some (JObj [], rest')
          | _ => '(fields, rest') ← members fuel rest []; Some (JObj fields, rest')
          end
      | Some (91%N, rest) =>
          match uncons (skip_ws rest) with
          | Some (93%N, rest') => Some (JArr [], rest')
          | _ => '(xs, rest') ← elements fuel rest []; Some (JArr xs, rest')
          end
      | Some (34%N, rest) => '(text, rest') ← chars rest; Some (JStr text, rest')
      | Some (116%N, _) => literal "true" (JBool true) s
      | Some (102%N, _) => literal "false" (JBool false) s
      | Some (110%N, _) => literal "null" JNull s
      | _ => '(n, rest) ← number s; Some (JNum n, rest)
      end
  end
with elements (fuel : nat) (s : string) (acc : list JsValue)
  : option (list JsValue * string) :=
  match fuel with
  | O => None
  | S fuel =>
      '(v, rest) ← value fuel s;
      match uncons (skip_ws rest) with
      | Some (44%N, rest') => elements fuel rest' (acc ++ [v])
      | Some (93%N, rest') => Some (acc ++ [v], rest')
      | _ => None
      end
  end
with members (fuel : nat) (s : string) (acc : list (string * JsValue))
  : option (list (string * JsValue) * string) :=
  match fuel with
  | O => None
  | S fuel =>
      match uncons (skip_ws s) with
      | Some (34%N, rest) =>
          '(key, rest1) ← chars rest;
          match uncons (skip_ws rest1) with
          | Some (58%N, rest2) =>
              '(v, rest3) ← value fuel rest2;
              match uncons (skip_ws rest3) with
              | Some (44%N, rest4) => members fuel rest4 (JsMap.set key v acc)
              | Some (125%N, rest4) => Some (JsMap.set key v acc, rest4)
              | _ => None
              end
          | _ => None
          end
      | _ => None
      end
  end.

(** [JSON.parse(text)] *)
Definition parse (text : string) : option JsValue :=
  '(v, rest) ← value (S (String.length text)) text;
  match skip_ws rest with
  | EmptyString => Some v
  | _ => None
  end.


(** The quote character. *)
Definition quote : string := String (Ascii.ascii_of_N 34) EmptyString.

Definition backslash : string := String (Ascii.ascii_of_N 92) EmptyString.

Definition hex_digit (n : N) : Ascii.ascii :=
  Ascii.ascii_of_N (if (n <? 10)%N then 48 + n else 87 + n)%N.

(** How a character is written inside a string literal. *)
Definition escaped (c : Ascii.ascii) : string :=
  match Ascii.N_of_ascii c with
  | 34%N => backslash +:+ quote
  | 92%N => backslash +:+ backslash
  | 8%N => backslash +:+ "b"
  | 12%N => backslash +:+ "f"
  | 10%N => backslash +:+ "n"
  | 13%N => backslash +:+ "r"
  | 9%N => backslash +:+ "t"
  | n =>
      if (n <? 32)%N
      then backslash +:+ "u00"
           +:+ String (hex_digit (n / 16)) (String (hex_digit (n mod 16)) EmptyString)
      else String c EmptyString
  end.

Fixpoint quoted_chars (s : string) : string :=
  match s with
  | EmptyString => EmptyString
  | String c rest => escaped c +:+ quoted_chars rest
  end.

Definition quoted (s : string) : string := quote +:+ quoted_chars s +:+ quote.

Fixpoint commas (parts : list string) : string :=
  match parts with
  | [] => ""
  | [part] => part
  | part :: rest => part +:+ "," +:+ commas rest
  end.

(** [JSON.stringify(v)] as a string, [None] where it is [undefined]. *)
Fixpoint text (v : JsValue) : option string :=
  match v with
  | JUndefined => None
  | JNull => Some "null"
  | JBool true => Some "true"
  | JBool false => Some "false"
  | JNum n => Some (pretty n)
  | JStr s => Some (quoted s)
  | JArr xs => Some ("[" +:+ commas (map (λ x, default "null" (text x)) xs) +:+ "]")
  | JObj fields =>
      Some ("{" +:+ commas (omap (λ field, match field with
                                           | (k, x) =>
                                               match text x with
                                               | Some t => Some (quoted k +:+ ":" +:+ t)
                                               | None => None
                                               end
                                           end) fields) +:+ "}")
  end.

Definition stringify (v : JsValue) : JsValue :=
  match text v with
  | Some t => JStr t
  | None => JUndefined
  end.

Definition runtime : Runtime := {| JSON_parse := parse; JSON_stringify := stringify |}.

End JsonRef.

(** ** The correlation manager ([utils/correlation.ts]) *)

Module Correlation.
Import Js Protocol.

(** A function handed in by the caller ([resolve], [reject]).  Its body is
    the caller's code; the manager only ever invokes it, and the model keeps
    the record of each invocation. *)
Definition Callback := nat.

Record PendingRequest := {
  pr_id : string;
  pr_timestamp : Z;
  pr_resolve : Callback;
  pr_reject : Callback;
  pr_timeout : option nat;
}.

Record CorrelationManager := {
  pendingRequests : list (string * PendingRequest);
  defaultTimeout : Z;
  disposed : bool;
}.

(** *** The event loop the manager runs on *)

(** The closure [addPendingRequest] hands to [setTimeout]: reject [t_id] on
    the manager [t_owner] with a 'Request timeout' error, due at [t_due]. *)
Record Timer := { t_owner : nat; t_id : string; t_due : Z }.

(** A closure queued with [process.nextTick].  [TCall cb arg] calls [cb] on
    a message the closure captured; [TCallShared cb ref] calls [cb] on the
    object at [ref], read when the closure runs, for an object the queueing
    code keeps mutating. *)
Inductive Task :=
| TCall (cb : Callback) (arg : MessageProtocol)
| TCallShared (cb : Callback) (ref : nat).

Record Invocation := { inv_cb : Callback; inv_arg : MessageProtocol }.

Record Env := {
  timers : gmap nat Timer;
  next_timer : nat;
  ticks : list Task;
  heap : list MessageProtocol;
  calls : list Invocation;
  now : Z;
}.

Definition with_timers (f : gmap nat Timer → gmap nat Timer) (e : Env) : Env :=
  {| timers := f (timers e); next_timer := next_timer e; ticks := ticks e;
     heap := heap e; calls := calls e; now := now e |}.

Definition with_heap (f : list MessageProtocol → list MessageProtocol) (e : Env) : Env :=
  {| timers := timers e; next_timer := next_timer e; ticks := ticks e;
     heap := f (heap e); calls := calls e; now := now e |}.

Definition with_calls (f : list Invocation → list Invocation) (e : Env) : Env :=
  {| timers := timers e; next_timer := next_timer e; ticks := ticks e;
     heap := heap e; calls := f (calls e); now := now e |}.

(** [setTimeout(fn, ms)]: a fresh handle. *)
Definition setTimeout (t : Timer) (e : Env) : nat * Env :=
  (next_timer e,
   {| timers := <[next_timer e := t]> (timers e); next_timer := S (next_timer e);
      ticks := ticks e; heap := heap e; calls := calls e; now := now e |}).

(** [clearTimeout(h)] *)
Definition clearTimeout (h : nat) (e : Env) : Env := with_timers (base.delete h) e.

(** [process.nextTick(fn)] *)
Definition nextTick (t : Task) (e : Env) : Env :=
  {| timers := timers e; next_timer := next_timer e; ticks := ticks e ++ [t];
     heap := heap e; calls := calls e; now := now e |}.

(** The callback invocation a queued closure performs. *)
Definition invocation (hp : list MessageProtocol) (t : Task) : option Invocation :=
  match t with
  | TCall cb arg => Some {| inv_cb := cb; inv_arg := arg |}
  | TCallShared cb ref =>
      match hp !! ref with
      | Some arg => Some {| inv_cb := cb; inv_arg := arg |}
      | None => None
      end
  end.

(** The event loop runs the closure at the head of the tick queue. *)
Definition runTick (e : Env) : Env :=
  match ticks e with
  | [] => e
  | t :: rest =>
      {| timers := timers e; next_timer := next_timer e; ticks := rest;
         heap := heap e;
         calls := calls e ++ option_list (invocation (heap e) t);
         now := now e |}
  end.

(** The event loop drains the tick queue. *)
Definition runTicks (e : Env) : Env := Nat.iter (length (ticks e)) runTick e.

(** *** The manager *)

Definition State : Type := CorrelationManager * Env.

Definition with_pending
  (f : list (string * PendingRequest) → list (string * PendingRequest))
  (m : CorrelationManager) : CorrelationManager :=
  {| pendingRequests := f (pendingRequests m); defaultTimeout := defaultTimeout m;
     disposed := disposed m |}.

(** [new CorrelationManager(defaultTimeout = 30000)] *)
Definition new (timeout : option Z) : CorrelationManager :=
  {| pendingRequests := []; defaultTimeout := default 30000 timeout;
     disposed := false |}.

(** [this] is the identity of the manager, which the timeout closure
    captures. *)
Definition addPendingRequest (this : nat) (id : string) (resolve reject : Callback)
  (timeout : option Z) (st : State) : State :=
  let '(m, e) := st in
  if disposed m then
    (m, with_calls
          (λ l, l ++ [{| inv_cb := reject;
                         inv_arg := error_literal id "Correlation manager has been disposed"
                                      503 (now e) |}]) e)
  else
    let timeoutMs := default (defaultTimeout m) timeout in
    let '(handle, e1) :=
      if 0 <? timeoutMs then
        let '(h, e1) :=
          setTimeout {| t_owner := this; t_id := id; t_due := now e + timeoutMs |} e in
        (Some h, e1)
      else (None, e) in
    let request :=
      {| pr_id := id; pr_timestamp := now e; pr_resolve := resolve;
         pr_reject := reject; pr_timeout := handle |} in
    (with_pending (JsMap.set id request) m, e1).

Definition clearRequest (id : string) (st : State) : State :=
  let '(m, e) := st in
  let e1 :=
    match JsMap.get id (pendingRequests m) with
    | Some {| pr_timeout := Some h |} => clearTimeout h e
    | _ => e
    end in
  (with_pending (JsMap.delete id) m, e1).

Definition resolveRequest (id : string) (response : MessageProtocol) (st : State)
  : bool * State :=
  let '(m, e) := st in
  if disposed m then (false, st)
  else
    match JsMap.get id (pendingRequests m) with
    | None => (false, st)
    | Some request =>
        let '(m1, e1) := clearRequest id st in
        (true, (m1, nextTick (TCall (pr_resolve request) response) e1))
    end.

Definition rejectRequest (id : string) (error : MessageProtocol) (st : State)
  : bool * State :=
  let '(m, e) := st in
  if disposed m then (false, st)
  else
    match JsMap.get id (pendingRequests m) with
    | None => (false, st)
    | Some request =>
        let '(m1, e1) := clearRequest id st in
        (true, (m1, nextTick (TCall (pr_reject request) error) e1))
    end.

(** One turn of the loop of [clearAllRequests] over the copied table; [ref]
    is the one [error] object every queued closure shares. *)
Definition clearAll_turn (ref : nat) (e : Env) (entry : string * PendingRequest) : Env :=
  let '(id, request) := entry in
  let e1 := match pr_timeout request with Some h => clearTimeout h e | None => e end in
  let e2 := with_heap (alter (set_id id) ref) e1 in
  nextTick (TCallShared (pr_reject request) ref) e2.

Definition clearAllRequests (st : State) : State :=
  let '(m, e) := st in
  if disposed m then st
  else
    let ref := length (heap e) in
    let e1 := with_heap (λ hp, hp ++ [error_literal "" "Connection closed" 503 (now e)]) e in
    let requestsCopy := pendingRequests m in
    ({| pendingRequests := []; defaultTimeout := defaultTimeout m; disposed := true |},
     foldl (clearAll_turn ref) e1 requestsCopy).

Definition getPendingCount (m : CorrelationManager) : nat :=
  if disposed m then 0%nat else length (pendingRequests m).

Definition isDisposed (m : CorrelationManager) : bool := disposed m.

(** One turn of the second loop of [cleanupExpiredRequests]. *)
Definition expire_turn (now0 : Z) (acc : nat * State) (id : string) : nat * State :=
  let '(cleaned, st) := acc in
  let '(wasRejected, st1) :=
    rejectRequest id (error_literal id "Request expired" 408 now0) st in
  (if wasRejected then S cleaned else cleaned, st1).

Definition cleanupExpiredRequests (maxAge : option Z) (st : State) : nat * State :=
  let '(m, e) := st in
  if disposed m then (0%nat, st)
  else
    let maxAge := default 60000 maxAge in
    let now0 := now e in
    let expiredIds :=
      omap (λ '(id, request),
              if maxAge <? now0 - pr_timestamp request then Some id else None)
           (pendingRequests m) in
    foldl (expire_turn now0) (0%nat, st) expiredIds.

(** The timer [h] of manager [this] comes due: the event loop drops it and
    runs its closure. *)
Definition fireTimer (this : nat) (h : nat) (st : State) : State :=
  let '(m, e) := st in
  match timers e !! h with
  | Some t =>
      if bool_decide (t_owner t = this) && (t_due t <=? now e) then
        let e1 := with_timers (base.delete h) e in
        (rejectRequest (t_id t)
           (error_literal (t_id t) "Request timeout" 408 (now e1)) (m, e1)).2
      else st
  | None => st
  end.

(** Time passes. *)
Definition advance (dt : nat) (e : Env) : Env :=
  {| timers := timers e; next_timer := next_timer e; ticks := ticks e;
     heap := heap e; calls := calls e; now := now e + Z.of_nat dt |}.

(** *** The states a manager can be in *)

Inductive Op :=
| OAdd (id : string) (resolve reject : Callback) (timeout : option Z)
| OResolve (id : string) (response : MessageProtocol)
| OReject (id : string) (error : MessageProtocol)
| OClearAll
| OCleanup (maxAge : option Z)
| OFire (h : nat)
| OTick
| OAdvance (dt : nat).

Definition step (this : nat) (st : State) (op : Op) : State :=
  match op with
  | OAdd id resolve reject timeout => addPendingRequest this id resolve reject timeout st
  | OResolve id r => (resolveRequest id r st).2
  | OReject id r => (rejectRequest id r st).2
  | OClearAll => clearAllRequests st
  | OCleanup maxAge => (cleanupExpiredRequests maxAge st).2
  | OFire h => fireTimer this h st
  | OTick => (st.1, runTick st.2)
  | OAdvance dt => (st.1, advance dt st.2)
  end.

Definition env0 : Env :=
  {| timers := ∅; next_timer := 1%nat; ticks := []; heap := []; calls := []; now := 0 |}.

Definition init (timeout : option Z) : State := (new timeout, env0).

(** A manager created with [new] and then used through its methods, on an
    event loop that fires its timers and runs its queued closures. *)
Definition reachable (this : nat) (st : State) : Prop :=
  ∃ timeout ops, st = foldl (step this) (init timeout) ops.

End Correlation.

(** ** The transport server ([transport/vscode-transport-server.ts]) *)

Module Server.
Import Js Protocol.

(** The host's webview, as this side uses it: [postMessage] appends to what
    the other side receives and throws once the webview is gone;
    [onDidReceiveMessage] subscribes a server's message handler. *)
Record Webview := {
  posted : list MessageProtocol;
  gone : bool;
  subscribers : list nat;
}.

(** A value caught by a [catch] clause: an [Error] with its message, or
    anything else. *)
Inductive Thrown := ThrowError (message : string) | ThrowOther.

Module Request.
(** [class VSCodeHttpRequest] *)
Record VSCodeHttpRequest := {
  method : option HttpMethod;
  url : option string;
  headers : gmap string string;
  body : JsValue;
}.
End Request.

Module Response.
(** A listener attached with [res.once('finish', ...)]: the transport
    server's own, which takes the response out of the server's in-flight
    set.  What the framework attaches is its own code and is left out. *)
Inductive Listener := Untrack (server : nat).

(** [class VSCodeHttpResponse] *)
Record VSCodeHttpResponse := {
  statusCode : Z;
  statusMessage : string;
  headers : gmap string string;
  headersSent : bool;
  finished : bool;
  _body : list JsValue;
  _correlationId : string;
  _webview : nat;
  _disposed : bool;
  _responseSent : bool;
  _instanceId : string;
  finish_listeners : list Listener;
}.

Definition with_headers (f : gmap string string → gmap string string)
  (r : VSCodeHttpResponse) : VSCodeHttpResponse :=
  {| statusCode := statusCode r; statusMessage := statusMessage r;
     headers := f (headers r); headersSent := headersSent r; finished := finished r;
     _body := _body r; _correlationId := _correlationId r; _webview := _webview r;
     _disposed := _disposed r; _responseSent := _responseSent r;
     _instanceId := _instanceId r; finish_listeners := finish_listeners r |}.

(** [new VSCodeHttpResponse(correlationId, webview, instanceId)] *)
Definition new (correlationId : string) (webview : nat) (instanceId : string)
  : VSCodeHttpResponse :=
  {| statusCode := 200; statusMessage := "OK"; headers := ∅; headersSent := false;
     finished := false; _body := []; _correlationId := correlationId;
     _webview := webview; _disposed := false; _responseSent := false;
     _instanceId := instanceId; finish_listeners := [] |}.

Definition setHeader (name value : string) (r : VSCodeHttpResponse) : VSCodeHttpResponse :=
  if headersSent r || _disposed r then r
  else with_headers (insert (toLowerCase name) value) r.

Definition getHeader (name : string) (r : VSCodeHttpResponse) : option string :=
  headers r !! toLowerCase name.

Definition hasHeader (name : string) (r : VSCodeHttpResponse) : bool :=
  bool_decide (is_Some (headers r !! toLowerCase name)).

Definition getHeaders (r : VSCodeHttpResponse) : gmap string string := headers r.

Definition removeHeader (name : string) (r : VSCodeHttpResponse) : VSCodeHttpResponse :=
  if negb (_disposed r) then with_headers (base.delete (toLowerCase name)) r
  else r.

(** [Object.assign(this.headers, headers)]: the keys of [headers] win. *)
Definition writeHead (status : Z) (message : option string)
  (extra : option (gmap string string)) (r : VSCodeHttpResponse) : VSCodeHttpResponse :=
  if headersSent r || _disposed r || _responseSent r then r
  else
    {| statusCode := status;
       statusMessage := if truthy message then default "" message else statusMessage r;
       headers := match extra with Some hs => hs ∪ headers r | None => headers r end;
       headersSent := true; finished := finished r;
       _body := _body r; _correlationId := _correlationId r; _webview := _webview r;
       _disposed := _disposed r; _responseSent := _responseSent r;
       _instanceId := _instanceId r; finish_listeners := finish_listeners r |}.

Definition write (chunk : JsValue) (r : VSCodeHttpResponse) : bool * VSCodeHttpResponse :=
  if finished r || _disposed r || _responseSent r then (false, r)
  else
    (true,
     {| statusCode := statusCode r; statusMessage := statusMessage r;
        headers := headers r; headersSent := true; finished := finished r;
        _body := _body r ++ [chunk]; _correlationId := _correlationId r;
        _webview := _webview r; _disposed := _disposed r;
        _responseSent := _responseSent r; _instanceId := _instanceId r;
        finish_listeners := finish_listeners r |}).

Definition _combineBody `{Runtime} (r : VSCodeHttpResponse) : JsValue :=
  match _body r with
  | [] => JUndefined
  | _ :: _ =>
      let combined := join "" (_body r) in
      if startsWith "{" combined || startsWith "[" combined then
        match JSON_parse combined with
        | Some parsed => parsed
        | None => JStr combined
        end
      else JStr combined
  end.

(** The part of [end] before [this.emit('finish')]: the flags, and the
    trailing chunk if there is one ([chunk !== undefined]). *)
Definition end_mark (chunk : JsValue) (r : VSCodeHttpResponse) : VSCodeHttpResponse :=
  {| statusCode := statusCode r; statusMessage := statusMessage r;
     headers := headers r; headersSent := true; finished := true;
     _body := if negb (is_undefined chunk) then _body r ++ [chunk] else _body r;
     _correlationId := _correlationId r; _webview := _webview r;
     _disposed := _disposed r; _responseSent := true;
     _instanceId := _instanceId r; finish_listeners := finish_listeners r |}.

(** The [responseMessage] literal of [end]. *)
Definition responseMessage `{Runtime} (timestamp : Z) (r : VSCodeHttpResponse)
  : MessageProtocol :=
  {| msg_id := _correlationId r; msg_type := MResponse; msg_method := None;
     msg_url := None; msg_headers := Some (headers r);
     msg_body := if bool_decide (0 < length (_body r))%nat then _combineBody r
                 else JUndefined;
     msg_status := Some (statusCode r); msg_error := None; msg_stack := None;
     msg_instanceId := if truthy (Some (_instanceId r)) then Some (_instanceId r)
                       else None;
     msg_timestamp := timestamp |}.

(** [dispose]; [removeAllListeners] drops the listeners. *)
Definition dispose (r : VSCodeHttpResponse) : VSCodeHttpResponse :=
  if _disposed r then r
  else
    {| statusCode := statusCode r; statusMessage := statusMessage r;
       headers := headers r; headersSent := headersSent r; finished := true;
       _body := _body r; _correlationId := _correlationId r; _webview := _webview r;
       _disposed := true; _responseSent := _responseSent r;
       _instanceId := _instanceId r; finish_listeners := [] |}.

(** [res.once('finish', listener)] *)
Definition once_finish (l : Listener) (r : VSCodeHttpResponse) : VSCodeHttpResponse :=
  if negb (_disposed r) then
    {| statusCode := statusCode r; statusMessage := statusMessage r;
       headers := headers r; headersSent := headersSent r; finished := finished r;
       _body := _body r; _correlationId := _correlationId r; _webview := _webview r;
       _disposed := _disposed r; _responseSent := _responseSent r;
       _instanceId := _instanceId r; finish_listeners := finish_listeners r ++ [l] |}
  else r.

(** A [once] listener is detached when its event is emitted. *)
Definition detach_listeners (r : VSCodeHttpResponse) : VSCodeHttpResponse :=
  {| statusCode := statusCode r; statusMessage := statusMessage r;
     headers := headers r; headersSent := headersSent r; finished := finished r;
     _body := _body r; _correlationId := _correlationId r; _webview := _webview r;
     _disposed := _disposed r; _responseSent := _responseSent r;
     _instanceId := _instanceId r; finish_listeners := [] |}.
End Response.

Module Transport.
(** [class VSCodeHttpTransportServer]; [_options] only steers logging. *)
Record VSCodeHttpTransportServer := {
  listening : bool;
  _webview : nat;
  _listening : bool;
  _disposed : bool;
  _disposables : list nat;
  _pendingResponses : gset nat;
  _messageHandlerLock : bool;
  _instanceId : string;
}.

Definition with_lock (b : bool) (s : VSCodeHttpTransportServer) : VSCodeHttpTransportServer :=
  {| listening := listening s; _webview := _webview s; _listening := _listening s;
     _disposed := _disposed s; _disposables := _disposables s;
     _pendingResponses := _pendingResponses s; _messageHandlerLock := b;
     _instanceId := _instanceId s |}.

Definition with_pendingResponses (f : gset nat → gset nat)
  (s : VSCodeHttpTransportServer) : VSCodeHttpTransportServer :=
  {| listening := listening s; _webview := _webview s; _listening := _listening s;
     _disposed := _disposed s; _disposables := _disposables s;
     _pendingResponses := f (_pendingResponses s);
     _messageHandlerLock := _messageHandlerLock s; _instanceId := _instanceId s |}.
End Transport.

(** What [emit] was called with, on a server, a request or a response. *)
Inductive Emitted :=
| EvRequest (server req res : nat)
| EvListening (server : nat)
| EvClose (server : nat)
| EvFinish (res : nat)
| EvData (req : nat) (chunk : string)
| EvEnd (req : nat).

(** A closure queued with [process.nextTick]: the body events of a request,
    or a callback handed to [listen] or [close]. *)
Inductive Task := TRequestBody (req : nat) | TCallback (cb : nat).

(** The extension host: the objects, by identity, the module-level
    [webviewServerRegistry], the record of [emit] calls, the tick queue, and
    the clock. *)
Record World := {
  webviews : list Webview;
  requests : list Request.VSCodeHttpRequest;
  responses : list Response.VSCodeHttpResponse;
  servers : list Transport.VSCodeHttpTransportServer;
  webviewServerRegistry : gmap nat nat;
  emitted : list Emitted;
  ticks : list Task;
  now : Z;
}.

Definition with_webviews (f : list Webview → list Webview) (w : World) : World :=
  {| webviews := f (webviews w); requests := requests w; responses := responses w;
     servers := servers w; webviewServerRegistry := webviewServerRegistry w;
     emitted := emitted w; ticks := ticks w; now := now w |}.

Definition with_requests
  (f : list Request.VSCodeHttpRequest → list Request.VSCodeHttpRequest)
  (w : World) : World :=
  {| webviews := webviews w; requests := f (requests w); responses := responses w;
     servers := servers w; webviewServerRegistry := webviewServerRegistry w;
     emitted := emitted w; ticks := ticks w; now := now w |}.

Definition with_responses
  (f : list Response.VSCodeHttpResponse → list Response.VSCodeHttpResponse)
  (w : World) : World :=
  {| webviews := webviews w; requests := requests w; responses := f (responses w);
     servers := servers w; webviewServerRegistry := webviewServerRegistry w;
     emitted := emitted w; ticks := ticks w; now := now w |}.

Definition with_servers
  (f : list Transport.VSCodeHttpTransportServer → list Transport.VSCodeHttpTransportServer)
  (w : World) : World :=
  {| webviews := webviews w; requests := requests w; responses := responses w;
     servers := f (servers w); webviewServerRegistry := webviewServerRegistry w;
     emitted := emitted w; ticks := ticks w; now := now w |}.

Definition with_registry (f : gmap nat nat → gmap nat nat) (w : World) : World :=
  {| webviews := webviews w; requests := requests w; responses := responses w;
     servers := servers w; webviewServerRegistry := f (webviewServerRegistry w);
     emitted := emitted w; ticks := ticks w; now := now w |}.

Definition emit (ev : Emitted) (w : World) : World :=
  {| webviews := webviews w; requests := requests w; responses := responses w;
     servers := servers w; webviewServerRegistry := webviewServerRegistry w;
     emitted := emitted w ++ [ev]; ticks := ticks w; now := now w |}.

Definition nextTick (t : Task) (w : World) : World :=
  {| webviews := webviews w; requests := requests w; responses := responses w;
     servers := servers w; webviewServerRegistry := webviewServerRegistry w;
     emitted := emitted w; ticks := ticks w ++ [t]; now := now w |}.

(** [webview.postMessage(message)]: [None] when it throws. *)
Definition postMessage (webview : nat) (message : MessageProtocol) (w : World)
  : option World :=
  match webviews w !! webview with
  | Some wv =>
      if gone wv then None
      else Some (with_webviews
                   (alter (λ wv, {| posted := posted wv ++ [message]; gone := gone wv;
                                    subscribers := subscribers wv |}) webview) w)
  | None => None
  end.

(** [try { webview.postMessage(message) } catch { console.warn(...) }] *)
Definition try_postMessage (webview : nat) (message : MessageProtocol) (w : World)
  : World :=
  default w (postMessage webview message w).

(** *** Methods of a response, on the object [res] of the world *)

Definition update_response (res : nat) (f : Response.VSCodeHttpResponse → Response.VSCodeHttpResponse)
  (w : World) : World :=
  with_responses (alter f res) w.

Definition update_server (server : nat)
  (f : Transport.VSCodeHttpTransportServer → Transport.VSCodeHttpTransportServer)
  (w : World) : World :=
  with_servers (alter f server) w.

(** A listener runs.  The server's listener on 'finish' is
    [() => this._pendingResponses.delete(res)]. *)
Definition run_listener (res : nat) (w : World) (l : Response.Listener) : World :=
  match l with
  | Response.Untrack server =>
      update_server server (Transport.with_pendingResponses (λ s, s ∖ {[res]})) w
  end.

(** [res.emit('finish')] *)
Definition emit_finish (res : nat) (w : World) : World :=
  match responses w !! res with
  | Some r =>
      let w1 := update_response res Response.detach_listeners (emit (EvFinish res) w) in
      foldl (run_listener res) w1 (Response.finish_listeners r)
  | None => w
  end.

Section WithRuntime.
Context `{Runtime}.

(** [res.end(chunk)]; an omitted [chunk] is [JUndefined]. *)
Definition end_ (res : nat) (chunk : JsValue) (w : World) : World :=
  match responses w !! res with
  | Some r =>
      if Response.finished r || Response._disposed r || Response._responseSent r then w
      else
        let w1 := update_response res (Response.end_mark chunk) w in
        let w2 := emit_finish res w1 in
        match responses w2 !! res with
        | Some r2 =>
            try_postMessage (Response._webview r2)
              (Response.responseMessage (now w2) r2) w2
        | None => w2
        end
  | None => w
  end.

End WithRuntime.

(** *** The transport server *)

(** [new VSCodeHttpRequest(message)]: the object, and the closure queued for
    the next tick. *)
Definition new_request (message : MessageProtocol) (w : World) : nat * World :=
  let headers0 := default ∅ (msg_headers message) in
  let headers1 :=
    if negb (is_undefined (msg_body message))
       && negb (truthy (headers0 !! "content-type"))
    then <["content-type" := "application/json"]> headers0
    else headers0 in
  let req := length (requests w) in
  (req,
   nextTick (TRequestBody req)
     (with_requests
        (λ l, l ++ [{| Request.method := msg_method message;
                       Request.url := msg_url message;
                       Request.headers := headers1;
                       Request.body := msg_body message |}]) w)).

(** [new VSCodeHttpResponse(correlationId, webview, instanceId)] *)
Definition new_response (correlationId : string) (webview : nat) (instanceId : string)
  (w : World) : nat * World :=
  (length (responses w),
   with_responses (λ l, l ++ [Response.new correlationId webview instanceId]) w).

(** [isDisposed] *)
Definition isDisposed (server : nat) (w : World) : bool :=
  match servers w !! server with
  | Some s => Transport._disposed s
  | None => false
  end.

(** [registeredServer !== this && registeredServer && !registeredServer.isDisposed()] *)
Definition yields_to_registered (this : nat) (webview : nat) (w : World) : bool :=
  match webviewServerRegistry w !! webview with
  | Some registeredServer =>
      negb (bool_decide (registeredServer = this)) && negb (isDisposed registeredServer w)
  | None => false
  end.

(** [new VSCodeHttpTransportServer(webview, options)]; [instanceId] is the
    string the constructor generates. *)
Definition new_server (webview : nat) (instanceId : string) (w : World) : nat * World :=
  let this := length (servers w) in
  (this,
   with_registry (insert webview this)
     (with_servers
        (λ l, l ++ [{| Transport.listening := false; Transport._webview := webview;
                       Transport._listening := false; Transport._disposed := false;
                       Transport._disposables := [];
                       Transport._pendingResponses := ∅;
                       Transport._messageHandlerLock := false;
                       Transport._instanceId := instanceId |}]) w)).

Definition queue_callback (callback : option nat) (w : World) : World :=
  match callback with
  | Some cb => nextTick (TCallback cb) w
  | None => w
  end.

(** [webview.onDidReceiveMessage(handler)] *)
Definition subscribe (webview : nat) (server : nat) (w : World) : World :=
  with_webviews
    (alter (λ wv, {| posted := posted wv; gone := gone wv;
                     subscribers := subscribers wv ++ [server] |}) webview) w.

(** The [dispose] of the subscription. *)
Definition unsubscribe (webview : nat) (server : nat) (w : World) : World :=
  with_webviews
    (alter (λ wv, {| posted := posted wv; gone := gone wv;
                     subscribers := filter (λ s, s ≠ server) (subscribers wv) |})
       webview) w.

Definition listen (this : nat) (callback : option nat) (w : World) : World :=
  match servers w !! this with
  | Some s =>
      if Transport._listening s || Transport._disposed s then queue_callback callback w
      else
        let w1 :=
          update_server this
            (λ s, {| Transport.listening := Transport.listening s;
                     Transport._webview := Transport._webview s;
                     Transport._listening := true;
                     Transport._disposed := Transport._disposed s;
                     Transport._disposables := Transport._disposables s ++ [this];
                     Transport._pendingResponses := Transport._pendingResponses s;
                     Transport._messageHandlerLock := Transport._messageHandlerLock s;
                     Transport._instanceId := Transport._instanceId s |}) w in
        let w2 := subscribe (Transport._webview s) this w1 in
        emit (EvListening this) (queue_callback callback w2)
  | None => w
  end.

Definition close (this : nat) (callback : option nat) (w : World) : World :=
  match servers w !! this with
  | Some s =>
      if negb (Transport._listening s) || Transport._disposed s
      then queue_callback callback w
      else
        let w1 :=
          set_fold (λ res w, update_response res Response.dispose w) w
            (Transport._pendingResponses s) in
        let w2 :=
          update_server this
            (λ s, {| Transport.listening := Transport.listening s;
                     Transport._webview := Transport._webview s;
                     Transport._listening := false;
                     Transport._disposed := true;
                     Transport._disposables := [];
                     Transport._pendingResponses := ∅;
                     Transport._messageHandlerLock := Transport._messageHandlerLock s;
                     Transport._instanceId := Transport._instanceId s |}) w1 in
        let w3 := unsubscribe (Transport._webview s) this w2 in
        let w4 :=
          if bool_decide (webviewServerRegistry w3 !! Transport._webview s = Some this)
          then with_registry (base.delete (Transport._webview s)) w3
          else w3 in
        queue_callback callback (emit (EvClose this) w4)
  | None => w
  end.

Definition _sendErrorResponse (this : nat) (messageId : string) (error : Thrown)
  (w : World) : World :=
  match servers w !! this with
  | Some s =>
      if Transport._disposed s then w
      else
        let errorMessage :=
          {| msg_id := messageId; msg_type := MError; msg_method := None;
             msg_url := None; msg_headers := None; msg_body := JUndefined;
             msg_status := Some 500;
             msg_error := Some match error with
                               | ThrowError message => message
                               | ThrowOther => "Unknown error"
                               end;
             msg_stack := None;
             msg_instanceId := if truthy (Some (Transport._instanceId s))
                               then Some (Transport._instanceId s) else None;
             msg_timestamp := now w |} in
        try_postMessage (Transport._webview s) errorMessage w
  | None => w
  end.

Section WithFramework.

(** The listener the framework attached to the server's 'request' event.  It
    runs inside [emit] with the two objects, may do to the world whatever
    the methods allow, and returns or throws. *)
Variable on_request : nat → nat → World → World * option Thrown.

Definition _handleMessage (this : nat) (message : MessageProtocol) (w : World) : World :=
  match servers w !! this with
  | Some s =>
      if Transport._messageHandlerLock s || Transport._disposed s
         || negb (Transport._listening s)
      then w
      else if negb (isRequestMessage message) then w
      else if yields_to_registered this (Transport._webview s) w then w
      else
        let w1 := update_server this (Transport.with_lock true) w in
        let '(req, w2) := new_request message w1 in
        let '(res, w3) :=
          new_response (msg_id message) (Transport._webview s) (Transport._instanceId s) w2 in
        let w4 :=
          update_server this (Transport.with_pendingResponses (λ set, {[res]} ∪ set)) w3 in
        let w5 := update_response res (Response.once_finish (Response.Untrack this)) w4 in
        let '(w6, thrown) := on_request req res (emit (EvRequest this req res) w5) in
        let w7 :=
          match thrown with
          | Some error => _sendErrorResponse this (msg_id message) error w6
          | None => w6
          end in
        update_server this (Transport.with_lock false) w7
  | None => w
  end.

(** The webview delivers a message: every subscribed handler is called, in
    the order of subscription. *)
Definition deliver (webview : nat) (message : MessageProtocol) (w : World) : World :=
  match webviews w !! webview with
  | Some wv => foldl (λ w server, _handleMessage server message w) w (subscribers wv)
  | None => w
  end.

End WithFramework.

(** [getInstanceId] *)
Definition getInstanceId (server : nat) (w : World) : option string :=
  Transport._instanceId <$> servers w !! server.

(** [isPrimaryServer] *)
Definition isPrimaryServer (server : nat) (w : World) : bool :=
  match servers w !! server with
  | Some s => bool_decide (webviewServerRegistry w !! Transport._webview s = Some server)
  | None => false
  end.

(** A framework that has attached no listener: [emit] finds nobody. *)
Definition no_listener (req res : nat) (w : World) : World * option Thrown := (w, None).

(** An extension host with one webview and nothing else. *)
Definition one_webview : World :=
  {| webviews := [{| posted := []; gone := false; subscribers := [] |}];
     requests := []; responses := []; servers := []; webviewServerRegistry := ∅;
     emitted := []; ticks := []; now := 0 |}.

End Server.

(** ** The HTTP client ([http-client/vscode-http-client.ts]) *)

Module Client.
Import Js Protocol.

(** How a promise settles: an [async] method that returns fulfils it, one
    that throws rejects it with the error's message. *)
Inductive Settled (A : Type) :=
| Fulfilled (value : A)
| Rejected (message : string).
Arguments Fulfilled {A} value.
Arguments Rejected {A} message.

Module Response.
(** [class VSCodeHttpResponse], the fetch-like one; [headers] holds what the
    [Headers] object is built from. *)
Record VSCodeHttpResponse := {
  status : option Z;
  statusText : string;
  headers : gmap string string;
  ok : bool;
  url : string;
  _body : JsValue;
}.

Definition _getStatusText (status : option Z) : string :=
  match status with
  | Some 200 => "OK"
  | Some 201 => "Created"
  | Some 202 => "Accepted"
  | Some 204 => "No Content"
  | Some 400 => "Bad Request"
  | Some 401 => "Unauthorized"
  | Some 403 => "Forbidden"
  | Some 404 => "Not Found"
  | Some 405 => "Method Not Allowed"
  | Some 408 => "Request Timeout"
  | Some 409 => "Conflict"
  | Some 422 => "Unprocessable Entity"
  | Some 500 => "Internal Server Error"
  | Some 501 => "Not Implemented"
  | Some 502 => "Bad Gateway"
  | Some 503 => "Service Unavailable"
  | _ => "Unknown"
  end.

(** [new Headers(init)] of the Fetch API, for a record of strings.  Every
    name has to be a token of HTTP, and every value, once the white space at
    its two ends is taken off, has to be free of NUL, LF and CR; else the
    constructor throws a [TypeError].  (A character is a code unit below
    256, so every string is a [ByteString].) *)
Definition is_token_char (c : Ascii.ascii) : bool :=
  let n := Ascii.N_of_ascii c in
  ((48 <=? n) && (n <=? 57) || (65 <=? n) && (n <=? 90) || (97 <=? n) && (n <=? 122)
   || bool_decide (n ∈ [33; 35; 36; 37; 38; 39; 42; 43; 45; 46; 94; 95; 96; 124; 126]))%N.

Definition is_header_name (name : string) : bool :=
  negb (String.eqb name "") && forallb is_token_char (String.list_ascii_of_string name).

Definition is_http_whitespace (c : Ascii.ascii) : bool :=
  bool_decide (Ascii.N_of_ascii c ∈ [9; 10; 13; 32]%N).

Fixpoint strip_start (l : list Ascii.ascii) : list Ascii.ascii :=
  match l with
  | c :: rest => if is_http_whitespace c then strip_start rest else l
  | [] => []
  end.

Definition normalize (value : string) : list Ascii.ascii :=
  rev (strip_start (rev (strip_start (String.list_ascii_of_string value)))).

Definition is_header_value (value : string) : bool :=
  forallb (λ c, negb (bool_decide (Ascii.N_of_ascii c ∈ [0; 10; 13]%N)))
    (normalize value).

Definition Headers_accepts (init : gmap string string) : bool :=
  forallb (λ entry, is_header_name entry.1 && is_header_value entry.2)
    (map_to_list init).

(** [new VSCodeHttpResponse(message, url)]; [None] where
    [new Headers(message.headers || {})] throws. *)
Definition new (message : MessageProtocol) (url : string) : option VSCodeHttpResponse :=
  if Headers_accepts (default ∅ (msg_headers message)) then
    Some {| status := msg_status message;
            statusText := _getStatusText (msg_status message);
            headers := default ∅ (msg_headers message);
            ok := match msg_status message with
                  | Some n => (200 <=? n) && (n <? 300)
                  | None => false
                  end;
            url := url;
            _body := msg_body message |}
  else None.

Section WithRuntime.
Context `{Runtime}.

(** [json()]: the settlement of the promise, and the object afterwards. *)
Definition json (r : VSCodeHttpResponse) : Settled JsValue * VSCodeHttpResponse :=
  if nullish (_body r) then (Rejected "Response body is empty", r)
  else
    match typeof (_body r) with
    | TyObject => (Fulfilled (_body r), r)
    | _ =>
        match JSON_parse (to_string (_body r)) with
        | Some parsed => (Fulfilled parsed, r)
        | None => (Rejected "Response is not valid JSON", r)
        end
    end.

(** [text()] *)
Definition text (r : VSCodeHttpResponse) : Settled JsValue * VSCodeHttpResponse :=
  if nullish (_body r) then (Fulfilled (JStr ""), r)
  else
    match _body r with
    | JStr s => (Fulfilled (JStr s), r)
    | body => (Fulfilled (JSON_stringify body), r)
    end.

End WithRuntime.
End Response.

(** [class VSCodeHttpClient]; [_vscode] and [_messageHandler] are the
    object's own link to the window. *)
Record VSCodeHttpClient := {
  _correlationManager : Correlation.CorrelationManager;
  _baseUrl : string;
  _disposed : bool;
  _pendingRequests : gset string;
  _instanceId : string;
}.

(** The webview page: the clients by identity, the module-level
    [globalClientRegistry] (a [Set], in insertion order) and [primaryClient],
    the 'message' listeners of the window, and the event loop. *)
Record World := {
  clients : list VSCodeHttpClient;
  globalClientRegistry : list nat;
  primaryClient : option nat;
  message_listeners : list nat;
  env : Correlation.Env;
}.

(** [isDisposed] *)
Definition isDisposed (client : nat) (w : World) : bool :=
  match clients w !! client with
  | Some c => _disposed c
  | None => false
  end.

(** [getInstanceId] *)
Definition getInstanceId (client : nat) (w : World) : option string :=
  _instanceId <$> clients w !! client.

(** [isPrimaryClient] *)
Definition isPrimaryClient (client : nat) (w : World) : bool :=
  bool_decide (primaryClient w = Some client).

(** [getPendingRequestCount] *)
Definition getPendingRequestCount (client : nat) (w : World) : nat :=
  match clients w !! client with
  | Some c => size (_pendingRequests c)
  | None => 0%nat
  end.

(** The second argument of the constructor. *)
Inductive OptionsOrBaseUrl :=
| BaseUrl (baseUrl : string)
| Options (instanceId : option string) (baseUrl : option string).

(** [new VSCodeHttpClient(vscode, optionsOrBaseUrl)].  [api] tells whether a
    VS Code API object is passed or can be acquired, [generated] is what the
    constructor appends to 'client_' for a generated id.  [None] where the
    constructor throws. *)
Definition new (api : bool) (optionsOrBaseUrl : option OptionsOrBaseUrl)
  (generated : string) (w : World) : option nat * World :=
  if negb api then (None, w)
  else
    let '(instanceId, baseUrl) :=
      match optionsOrBaseUrl with
      | Some (BaseUrl baseUrl) => (None, Some baseUrl)
      | Some (Options instanceId baseUrl) => (instanceId, baseUrl)
      | None => (None, None)
      end in
    let this := length (clients w) in
    let client :=
      {| _correlationManager := Correlation.new None;
         _baseUrl := if truthy baseUrl then default "" baseUrl else "";
         _disposed := false;
         _pendingRequests := ∅;
         _instanceId := if truthy instanceId then default "" instanceId
                        else "client_" +:+ generated |} in
    (Some this,
     {| clients := clients w ++ [client];
        globalClientRegistry :=
          if bool_decide (this ∈ globalClientRegistry w) then globalClientRegistry w
          else globalClientRegistry w ++ [this];
        primaryClient :=
          match primaryClient w with
          | Some p => if isDisposed p w then Some this else Some p
          | None => Some this
          end;
        message_listeners := message_listeners w ++ [this];
        env := env w |}).

(** [primaryClient !== this && primaryClient && !primaryClient.isDisposed()] *)
Definition yields_to_primary (this : nat) (w : World) : bool :=
  match primaryClient w with
  | Some p => negb (bool_decide (p = this)) && negb (isDisposed p w)
  | None => false
  end.

(** A call into the Correlation Manager. *)
Inductive ManagerCall :=
| ResolveRequest (id : string) (response : MessageProtocol)
| RejectRequest (id : string) (error : MessageProtocol).

(** The call [_handleMessage] makes on the client's Correlation Manager;
    [None] where it returns without one. *)
Definition _handleMessage_call (this : nat) (message : MessageProtocol) (w : World)
  : option ManagerCall :=
  match clients w !! this with
  | Some c =>
      if _disposed c then None
      else if truthy (msg_instanceId message)
              && negb (bool_decide (msg_instanceId message = Some (_instanceId c)))
      then None
      else if negb (truthy (msg_instanceId message)) && yields_to_primary this w
      then None
      else if isResponseMessage message
      then Some (ResolveRequest (msg_id message) message)
      else if isErrorMessage message
      then Some (RejectRequest (msg_id message) message)
      else None
  | None => None
  end.

(** A method of the client's Correlation Manager runs, on the event loop of
    the page. *)
Definition on_manager (this : nat) (f : Correlation.State → Correlation.State)
  (w : World) : World :=
  match clients w !! this with
  | Some c =>
      let '(m, e) := f (_correlationManager c, env w) in
      {| clients :=
           <[this := {| _correlationManager := m; _baseUrl := _baseUrl c;
                        _disposed := _disposed c;
                        _pendingRequests := _pendingRequests c;
                        _instanceId := _instanceId c |}]> (clients w);
         globalClientRegistry := globalClientRegistry w;
         primaryClient := primaryClient w;
         message_listeners := message_listeners w;
         env := e |}
  | None => w
  end.

Definition _handleMessage (this : nat) (message : MessageProtocol) (w : World) : World :=
  match _handleMessage_call this message w with
  | Some (ResolveRequest id response) =>
      on_manager this (λ st, (Correlation.resolveRequest id response st).2) w
  | Some (RejectRequest id error) =>
      on_manager this (λ st, (Correlation.rejectRequest id error st).2) w
  | None => w
  end.

(** The listener the constructor adds to the window:
    [if (!this._disposed) this._handleMessage(event.data)]. *)
Definition _messageHandler (this : nat) (message : MessageProtocol) (w : World) : World :=
  if isDisposed this w then w else _handleMessage this message w.

(** The window gets a message from the extension: every listener runs. *)
Definition receive (message : MessageProtocol) (w : World) : World :=
  foldl (λ w client, _messageHandler client message w) w (message_listeners w).

Definition update_client (this : nat) (f : VSCodeHttpClient → VSCodeHttpClient)
  (w : World) : World :=
  {| clients := alter f this (clients w);
     globalClientRegistry := globalClientRegistry w;
     primaryClient := primaryClient w;
     message_listeners := message_listeners w;
     env := env w |}.

Definition with_registry (f : list nat → list nat) (w : World) : World :=
  {| clients := clients w; globalClientRegistry := f (globalClientRegistry w);
     primaryClient := primaryClient w; message_listeners := message_listeners w;
     env := env w |}.

Definition with_primary (p : option nat) (w : World) : World :=
  {| clients := clients w; globalClientRegistry := globalClientRegistry w;
     primaryClient := p; message_listeners := message_listeners w; env := env w |}.

Definition with_listeners (f : list nat → list nat) (w : World) : World :=
  {| clients := clients w; globalClientRegistry := globalClientRegistry w;
     primaryClient := primaryClient w; message_listeners := f (message_listeners w);
     env := env w |}.

(** The loop of [dispose] that looks for the next primary client: the first
    client of the registry that is not disposed. *)
Definition next_primary (w : World) : option nat :=
  head (filter (λ client, isDisposed client w = false) (globalClientRegistry w)).

(** [dispose] *)
Definition dispose (this : nat) (w : World) : World :=
  match clients w !! this with
  | Some c =>
      if _disposed c then w
      else
        let w1 :=
          update_client this
            (λ c, {| _correlationManager := _correlationManager c;
                     _baseUrl := _baseUrl c; _disposed := true;
                     _pendingRequests := _pendingRequests c;
                     _instanceId := _instanceId c |}) w in
        let w2 := with_registry (filter (λ client, client ≠ this)) w1 in
        let w3 :=
          if bool_decide (primaryClient w2 = Some this)
          then with_primary (next_primary w2) w2
          else w2 in
        let w4 := with_listeners (filter (λ client, client ≠ this)) w3 in
        let w5 := on_manager this Correlation.clearAllRequests w4 in
        update_client this
          (λ c, {| _correlationManager := _correlationManager c;
                   _baseUrl := _baseUrl c; _disposed := _disposed c;
                   _pendingRequests := ∅;
                   _instanceId := _instanceId c |}) w5
  | None => w
  end.

(** A page on which no client has been created. *)
Definition empty_page : World :=
  {| clients := []; globalClientRegistry := []; primaryClient := None;
     message_listeners := []; env := Correlation.env0 |}.

(** *** The pages that can come about *)

(** What [fetch], the timers and the queued closures leave alone: they work
    on the managers, the sets of pending ids and the event loop, never on
    the registry, the primary client, the listeners, or a client's
    [_disposed] flag and instance id. *)
Definition same_skeleton (w w' : World) : Prop :=
  globalClientRegistry w' = globalClientRegistry w ∧
  primaryClient w' = primaryClient w ∧
  message_listeners w' = message_listeners w ∧
  (λ c, (_disposed c, _instanceId c)) <$> clients w'
    = (λ c, (_disposed c, _instanceId c)) <$> clients w.

Inductive reachable : World → Prop :=
| reach_empty : reachable empty_page
| reach_new api optionsOrBaseUrl generated w :
    reachable w → reachable (new api optionsOrBaseUrl generated w).2
| reach_dispose this w :
    reachable w → reachable (dispose this w)
| reach_receive message w :
    reachable w → reachable (receive message w)
| reach_activity w w' :
    reachable w → same_skeleton w w' → reachable w'.

End Client.

(** ** Plain objects used as maps *)

Module JsObject.

(** The property names without a capital letter that every plain object
    inherits from [Object.prototype].  On an object used as a map, reading,
    writing and [in] under one of them reach the prototype; under any other
    name they work on the object's own properties, which is what a [gmap]
    holds. *)
Definition inherited : list string := ["constructor"; "__proto__"].

Definition own_name (name : string) : Prop := name ∉ inherited.

End JsObject.

(** ** A response in the hands of the framework *)

Module ResponseUse.
Import Js Protocol Server.

(** What [end(chunk)] does to the response object itself: nothing when the
    guard returns, else the flags, the trailing chunk, and the 'finish'
    event, which detaches the [once] listeners. *)
Definition ended (chunk : JsValue) (r : Response.VSCodeHttpResponse)
  : Response.VSCodeHttpResponse :=
  if Response.finished r || Response._disposed r || Response._responseSent r then r
  else Response.detach_listeners (Response.end_mark chunk r).

(** A method call on a response. *)
Inductive Call :=
| SetHeader (name value : string)
| RemoveHeader (name : string)
| WriteHead (status : Z) (message : option string) (extra : option (gmap string string))
| Write (chunk : JsValue)
| End (chunk : JsValue)
| Dispose
| OnceFinish (listener : Response.Listener).

Definition call (r : Response.VSCodeHttpResponse) (c : Call)
  : Response.VSCodeHttpResponse :=
  match c with
  | SetHeader name value => Response.setHeader name value r
  | RemoveHeader name => Response.removeHeader name r
  | WriteHead status message extra => Response.writeHead status message extra r
  | Write chunk => (Response.write chunk r).2
  | End chunk => ended chunk r
  | Dispose => Response.dispose r
  | OnceFinish listener => Response.once_finish listener r
  end.

(** A response after a sequence of calls. *)
Definition after (cs : list Call) (r : Response.VSCodeHttpResponse)
  : Response.VSCodeHttpResponse :=
  foldl call r cs.

End ResponseUse.

(** ** The body events of a request *)

Module RequestBody.
Import Js Protocol Server.

Section WithRuntime.
Context `{Runtime}.

(** The closure that the constructor of [VSCodeHttpRequest] queues with
    [process.nextTick]: 'data' with the body as a buffer, after the
    'content-length' header is set to the length of the buffer, then 'end'.
    A string is a sequence of bytes here, so the buffer made of a string has
    its length.  [None] where the closure throws: [Buffer.from] takes a
    string, not what [JSON.stringify] gives for a value it cannot write. *)
Definition body_events (req : nat) (w : World) : option World :=
  match requests w !! req with
  | Some r =>
      if negb (is_undefined (Request.body r)) then
        let bodyString :=
          match Request.body r with
          | JStr text => JStr text
          | body => JSON_stringify body
          end in
        match bodyString with
        | JStr text =>
            let w1 :=
              with_requests
                (alter (λ r, {| Request.method := Request.method r;
                                Request.url := Request.url r;
                                Request.headers :=
                                  <["content-length" :=
                                      pretty (Z.of_nat (String.length text))]>
                                    (Request.headers r);
                                Request.body := Request.body r |}) req) w in
            Some (emit (EvEnd req) (emit (EvData req text) w1))
        | _ => None
        end
      else Some (emit (EvEnd req) w)
  | None => Some w
  end.

End WithRuntime.
End RequestBody.

(** ** The instance id of a server *)

Module ServerInstance.
Import Js Protocol Server.

(** The constructor of the transport server with the instance id it makes
    for itself,
    [`server_${Date.now()}_${Math.random().toString(36).substr(2, 9)}`];
    [generated] is the text after the prefix. *)
Definition construct (webview : nat) (generated : string) (w : World) : nat * World :=
  new_server webview ("server_" +:+ generated) w.

End ServerInstance.

(** ** [fetch] ([http-client/vscode-http-client.ts]) *)

Module Fetch.
Import Js Protocol Client.

(** [s.includes(p)] *)
Fixpoint includes (p s : string) : bool :=
  String.prefix p s
  || match s with
     | String _ rest => includes p rest
     | EmptyString => false
     end.

Definition is_slash (c : Ascii.ascii) : bool := (Ascii.N_of_ascii c =? 47)%N.

(** [s.replace(/\/+/g, '/')]: every run of slashes becomes one slash. *)
Fixpoint collapse_slashes (s : string) : string :=
  match s with
  | String c rest =>
      if is_slash c && startsWith "/" rest then collapse_slashes rest
      else String c (collapse_slashes rest)
  | EmptyString => EmptyString
  end.

(** [_resolveUrl] *)
Definition _resolveUrl (c : VSCodeHttpClient) (url : string) : string :=
  if startsWith "/" url || includes "://" url then url
  else if truthy (Some (_baseUrl c))
       then collapse_slashes (_baseUrl c +:+ "/" +:+ url)
       else url.

(** [interface RequestOptions] *)
Record RequestOptions := {
  method : option HttpMethod;
  headers : option (gmap string string);
  body : JsValue;
  timeout : option Z;
}.

(** What a promise of [fetch] is rejected with: an [Error], or a
    [VSCodeHttpError] with its message, status and response. *)
Inductive Reason :=
| Error (message : string)
| VSCodeHttpError (message : string) (status : option Z)
    (response : Response.VSCodeHttpResponse).

Inductive Promise :=
| Pending
| Resolved (response : Response.VSCodeHttpResponse)
| RejectedWith (reason : Reason).

(** The two closures [fetch] hands to the Correlation Manager, with what
    they capture: the client, the correlation id, the resolved URL, and the
    [resolve] and [reject] of the promise. *)
Inductive Closure :=
| OnResponse (client : nat) (correlationId fullUrl : string) (promise : nat)
| OnError (client : nat) (correlationId fullUrl : string) (promise : nat).

(** The page with what [fetch] adds to it: the closures by identity (the
    callbacks the managers hold), the promises, and the VS Code API, with
    the messages it was given and what its [postMessage] throws, if it
    does. *)
Record Page := {
  world : World;
  closures : list Closure;
  promises : list Promise;
  outbox : list MessageProtocol;
  api_throws : option Server.Thrown;
}.

Definition with_world (f : World → World) (pg : Page) : Page :=
  {| world := f (world pg); closures := closures pg; promises := promises pg;
     outbox := outbox pg; api_throws := api_throws pg |}.

(** [resolve] and [reject] of a promise act on a pending promise only. *)
Definition settle (p : nat) (outcome : Promise) (pg : Page) : Page :=
  match promises pg !! p with
  | Some Pending =>
      {| world := world pg; closures := closures pg;
         promises := <[p := outcome]> (promises pg);
         outbox := outbox pg; api_throws := api_throws pg |}
  | _ => pg
  end.

(** [this._pendingRequests.add(id)] and [this._pendingRequests.delete(id)] *)
Definition with_pendingRequests (this : nat) (f : gset string → gset string) (pg : Page)
  : Page :=
  with_world
    (update_client this
       (λ c, {| _correlationManager := _correlationManager c; _baseUrl := _baseUrl c;
                _disposed := _disposed c; _pendingRequests := f (_pendingRequests c);
                _instanceId := _instanceId c |})) pg.

(** The text of [`${status}`]. *)
Definition status_text (status : option Z) : string :=
  match status with
  | Some n => to_string (JNum n)
  | None => to_string JUndefined
  end.

(** The bodies of the two closures.  Where the constructor of the response
    throws, the closure is left by the exception, which the [try] of the
    Correlation Manager around the call catches. *)
Definition run_closure (cl : Closure) (arg : MessageProtocol) (pg : Page) : Page :=
  match cl with
  | OnResponse this correlationId fullUrl p =>
      let pg1 := with_pendingRequests this (λ set, set ∖ {[correlationId]}) pg in
      if isDisposed this (world pg1)
      then settle p (RejectedWith (Error "HTTP client has been disposed")) pg1
      else
        match Response.new arg fullUrl with
        | Some httpResponse =>
            if Response.ok httpResponse then settle p (Resolved httpResponse) pg1
            else
              settle p
                (RejectedWith
                   (VSCodeHttpError
                      ("HTTP " +:+ status_text (msg_status arg) +:+ ": "
                       +:+ Response.statusText httpResponse)
                      (msg_status arg) httpResponse)) pg1
        | None => pg1
        end
  | OnError this correlationId fullUrl p =>
      let pg1 := with_pendingRequests this (λ set, set ∖ {[correlationId]}) pg in
      if isDisposed this (world pg1)
      then settle p (RejectedWith (Error "HTTP client has been disposed")) pg1
      else
        match
          Response.new
            {| msg_id := msg_id arg; msg_type := MResponse; msg_method := None;
               msg_url := None; msg_headers := None;
               msg_body :=
                 JObj [("error", match msg_error arg with
                                 | Some text => JStr text
                                 | None => JUndefined
                                 end)];
               msg_status := msg_status arg; msg_error := None;
               msg_stack := None; msg_instanceId := None;
               msg_timestamp := msg_timestamp arg |} fullUrl
        with
        | Some httpResponse =>
            settle p
              (RejectedWith
                 (VSCodeHttpError (default "" (msg_error arg)) (msg_status arg)
                    httpResponse)) pg1
        | None => pg1
        end
  end.

(** A callback is invoked: the closure of that identity runs. *)
Definition run_invocation (pg : Page) (inv : Correlation.Invocation) : Page :=
  match closures pg !! Correlation.inv_cb inv with
  | Some cl => run_closure cl (Correlation.inv_arg inv) pg
  | None => pg
  end.

(** The callbacks invoked since the event loop was as in [before]. *)
Definition run_new_calls (before : Correlation.Env) (pg : Page) : Page :=
  foldl run_invocation pg
    (drop (length (Correlation.calls before)) (Correlation.calls (env (world pg)))).

(** A method of the client's Correlation Manager runs, with the callbacks
    it invokes. *)
Definition call_manager (this : nat) (f : Correlation.State → Correlation.State)
  (pg : Page) : Page :=
  run_new_calls (env (world pg)) (with_world (on_manager this f) pg).

(** The event loop runs the closure at the head of the tick queue. *)
Definition tick (pg : Page) : Page :=
  run_new_calls (env (world pg))
    (with_world
       (λ w, {| clients := clients w; globalClientRegistry := globalClientRegistry w;
                primaryClient := primaryClient w;
                message_listeners := message_listeners w;
                env := Correlation.runTick (env w) |}) pg).

(** The timer [h] of the client's manager comes due. *)
Definition fire (this : nat) (h : nat) (pg : Page) : Page :=
  call_manager this (Correlation.fireTimer this h) pg.

(** Time passes. *)
Definition wait (dt : nat) (pg : Page) : Page :=
  with_world
    (λ w, {| clients := clients w; globalClientRegistry := globalClientRegistry w;
             primaryClient := primaryClient w;
             message_listeners := message_listeners w;
             env := Correlation.advance dt (env w) |}) pg.

(** [fetch(url, options)]; [correlationId] is what [generateCorrelationId]
    returns.  The promise returned is the one at [length (promises pg)]. *)
Definition fetch (this : nat) (url : string) (options : RequestOptions)
  (correlationId : string) (pg : Page) : Page :=
  match clients (world pg) !! this with
  | Some c =>
      let p := length (promises pg) in
      let pg0 :=
        {| world := world pg; closures := closures pg;
           promises := promises pg ++ [Pending];
           outbox := outbox pg; api_throws := api_throws pg |} in
      if _disposed c
      then settle p (RejectedWith (Error "HTTP client has been disposed")) pg0
      else
        let method := default GET (method options) in
        let fullUrl := _resolveUrl c url in
        let pg1 := with_pendingRequests this (λ set, {[correlationId]} ∪ set) pg0 in
        let requestMessage :=
          {| msg_id := correlationId; msg_type := MRequest; msg_method := Some method;
             msg_url := Some fullUrl; msg_headers := headers options;
             msg_body := body options; msg_status := None; msg_error := None;
             msg_stack := None;
             msg_instanceId := if truthy (Some (_instanceId c))
                               then Some (_instanceId c) else None;
             msg_timestamp := Correlation.now (env (world pg)) |} in
        if isDisposed this (world pg1)
        then
          settle p (RejectedWith (Error "HTTP client has been disposed"))
            (with_pendingRequests this (λ set, set ∖ {[correlationId]}) pg1)
        else
          let onResponse := length (closures pg1) in
          let onError := S onResponse in
          let pg2 :=
            {| world := world pg1;
               closures := closures pg1
                           ++ [OnResponse this correlationId fullUrl p;
                               OnError this correlationId fullUrl p];
               promises := promises pg1; outbox := outbox pg1;
               api_throws := api_throws pg1 |} in
          let pg3 :=
            call_manager this
              (Correlation.addPendingRequest this correlationId onResponse onError
                 (timeout options)) pg2 in
          match api_throws pg3 with
          | None =>
              {| world := world pg3; closures := closures pg3;
                 promises := promises pg3; outbox := outbox pg3 ++ [requestMessage];
                 api_throws := api_throws pg3 |}
          | Some error =>
              let pg4 :=
                with_pendingRequests this (λ set, set ∖ {[correlationId]}) pg3 in
              call_manager this
                (λ st,
                   (Correlation.rejectRequest correlationId
                      {| msg_id := correlationId; msg_type := MError;
                         msg_method := None; msg_url := None; msg_headers := None;
                         msg_body := JUndefined; msg_status := Some 503;
                         msg_error :=
                           Some match error with
                                | Server.ThrowError message => message
                                | Server.ThrowOther => "Failed to send message"
                                end;
                         msg_stack := None; msg_instanceId := None;
                         msg_timestamp := Correlation.now (env (world pg3)) |} st).2)
                pg4
          end
  | None => pg
  end.

(** The convenience methods. *)
Definition get (this : nat) (url : string) (options : RequestOptions) :=
  fetch this url
    {| method := Some GET; headers := headers options; body := body options;
       timeout := timeout options |}.

Definition post (this : nat) (url : string) (data : JsValue) (options : RequestOptions) :=
  fetch this url
    {| method := Some POST; headers := headers options; body := data;
       timeout := timeout options |}.

(** The client's listener gets a message from the extension. *)
Definition on_message (this : nat) (message : MessageProtocol) (pg : Page) : Page :=
  with_world (_messageHandler this message) pg.

(** [dispose] *)
Definition dispose (this : nat) (pg : Page) : Page :=
  with_world (Client.dispose this) pg.

(** The event loop drains the tick queue. *)
Definition drain (pg : Page) : Page :=
  Nat.iter (length (Correlation.ticks (env (world pg)))) tick pg.

(** *** The pages that can come about *)

(** What happens on a page: a client is made, a method of a client is
    called, the window gets a message, the event loop runs a queued closure
    or a timer, time passes, the VS Code API starts or stops throwing. *)
Inductive Op :=
| ONew (api : bool) (optionsOrBaseUrl : option OptionsOrBaseUrl) (generated : string)
| OFetch (this : nat) (url : string) (options : RequestOptions) (correlationId : string)
| ODispose (this : nat)
| OReceive (message : MessageProtocol)
| OTick
| OFire (this : nat) (h : nat)
| OWait (dt : nat)
| OApi (throws : option Server.Thrown).

Definition step (pg : Page) (op : Op) : Page :=
  match op with
  | ONew api optionsOrBaseUrl generated =>
      with_world (λ w, (new api optionsOrBaseUrl generated w).2) pg
  | OFetch this url options correlationId => fetch this url options correlationId pg
  | ODispose this => dispose this pg
  | OReceive message => with_world (receive message) pg
  | OTick => tick pg
  | OFire this h => fire this h pg
  | OWait dt => wait dt pg
  | OApi throws =>
      {| world := world pg; closures := closures pg; promises := promises pg;
         outbox := outbox pg; api_throws := throws |}
  end.

(** A page on which nothing has happened yet. *)
Definition blank : Page :=
  {| world := empty_page; closures := []; promises := []; outbox := [];
     api_throws := None |}.

Definition reachable (pg : Page) : Prop := ∃ ops, pg = foldl step blank ops.

End Fetch.

(** * Properties *)

Module JsMapFacts.
Import JsMap.
Section JsMapFacts.
Context {V : Type}.
Implicit Types (m : list (string * V)) (k : string) (v : V).

Lemma get_delete_eq k m : get k (delete k m) = None.
Proof.
  induction m as [|[k' v'] rest IH]; simpl; [done|].
  destruct (String.eqb k k') eqn:E; simpl; [done|]. by rewrite E.
Qed.

Lemma get_delete_ne k k' m : k ≠ k' → get k' (delete k m) = get k' m.
Proof.
  intros Hne. induction m as [|[k0 v0] rest IH]; simpl; [done|].
  destruct (String.eqb k k0) eqn:E; simpl.
  - apply String.eqb_eq in E. subst k0.
    destruct (String.eqb k' k) eqn:E'; [|done].
    apply String.eqb_eq in E'. congruence.
  - by rewrite IH.
Qed.

Lemma delete_absent k m : get k m = None → delete k m = m.
Proof.
  induction m as [|[k' v'] rest IH]; simpl; [done|].
  destruct (String.eqb k k'); [done|]. intros H. by rewrite IH.
Qed.

Lemma get_set_eq k v m : get k (set k v m) = Some v.
Proof.
  induction m as [|[k' v'] rest IH]; simpl.
  - by rewrite String.eqb_refl.
  - destruct (String.eqb k k') eqn:E; simpl; by rewrite E.
Qed.

Lemma get_set_ne k k' v m : k ≠ k' → get k' (set k v m) = get k' m.
Proof.
  intros Hne. induction m as [|[k0 v0] rest IH]; simpl.
  - destruct (String.eqb k' k) eqn:E; [|done].
    apply String.eqb_eq in E. congruence.
  - destruct (String.eqb k k0) eqn:E; simpl; [|by rewrite IH].
    apply String.eqb_eq in E. subst k0.
    destruct (String.eqb k' k) eqn:E'; [|done].
    apply String.eqb_eq in E'. congruence.
Qed.

End JsMapFacts.
End JsMapFacts.

Module CorrelationFacts.
Import Js Protocol Correlation JsMapFacts.

Implicit Types (m : CorrelationManager) (e : Env) (st : State) (id : string).

#[local] Arguments runTicks : simpl never.

(** *** The tick queue *)

Lemma runTicks_iter (ts : list Task) : ∀ e,
  ticks e = ts →
  Nat.iter (length ts) runTick e =
    {| timers := timers e; next_timer := next_timer e; ticks := [];
       heap := heap e; calls := calls e ++ omap (invocation (heap e)) ts;
       now := now e |}.
Proof.
  induction ts as [|t ts IH]; intros e Hts.
  - destruct e; simpl in *; subst. by rewrite app_nil_r.
  - cbn [length]. rewrite Nat.iter_succ_r.
    rewrite (IH (runTick e)); unfold runTick; rewrite Hts; [|done].
    cbn. f_equal. rewrite <- app_assoc. f_equal.
    by destruct (invocation (heap e) t).
Qed.

Lemma runTicks_calls e :
  calls (runTicks e) = calls e ++ omap (invocation (heap e)) (ticks e).
Proof. unfold runTicks. by rewrite (runTicks_iter (ticks e) e). Qed.

Lemma runTicks_ticks e : ticks (runTicks e) = [].
Proof. unfold runTicks. by rewrite (runTicks_iter (ticks e) e). Qed.

(** *** What [resolveRequest] and [rejectRequest] compute *)

Definition untimed (r : PendingRequest) (e : Env) : Env :=
  match pr_timeout r with Some h => clearTimeout h e | None => e end.

Lemma clearRequest_tracked id r m e :
  JsMap.get id (pendingRequests m) = Some r →
  clearRequest id (m, e) = (with_pending (JsMap.delete id) m, untimed r e).
Proof.
  intros H. unfold clearRequest, untimed. rewrite H.
  by destruct r as [? ? ? ? [h|]].
Qed.

Lemma resolveRequest_tracked id response r m e :
  disposed m = false →
  JsMap.get id (pendingRequests m) = Some r →
  resolveRequest id response (m, e) =
    (true, (with_pending (JsMap.delete id) m,
            nextTick (TCall (pr_resolve r) response) (untimed r e))).
Proof.
  intros Hd H. unfold resolveRequest. rewrite Hd, H.
  by rewrite (clearRequest_tracked id r).
Qed.

Lemma rejectRequest_tracked id error r m e :
  disposed m = false →
  JsMap.get id (pendingRequests m) = Some r →
  rejectRequest id error (m, e) =
    (true, (with_pending (JsMap.delete id) m,
            nextTick (TCall (pr_reject r) error) (untimed r e))).
Proof.
  intros Hd H. unfold rejectRequest. rewrite Hd, H.
  by rewrite (clearRequest_tracked id r).
Qed.

Lemma resolveRequest_untracked id response m e :
  JsMap.get id (pendingRequests m) = None →
  resolveRequest id response (m, e) = (false, (m, e)).
Proof. intros H. unfold resolveRequest. rewrite H. by destruct (disposed m). Qed.

Lemma rejectRequest_untracked id error m e :
  JsMap.get id (pendingRequests m) = None →
  rejectRequest id error (m, e) = (false, (m, e)).
Proof. intros H. unfold rejectRequest. rewrite H. by destruct (disposed m). Qed.

Lemma untimed_frame r e :
  ticks (untimed r e) = ticks e ∧ heap (untimed r e) = heap e ∧
  calls (untimed r e) = calls e ∧ now (untimed r e) = now e.
Proof. unfold untimed. by destruct (pr_timeout r). Qed.

(** *** The invariant of a manager in use *)

(** A disposed manager tracks nothing; every queued closure that reads a
    shared object reads one that exists; timer handles are below the next
    fresh one; and the handle a pending request carries is that of a live
    timer of this manager, armed for the request's id. *)
Record wf (this : nat) (st : State) : Prop := {
  wf_disposed : disposed st.1 = true → pendingRequests st.1 = [];
  wf_shared : ∀ cb ref, TCallShared cb ref ∈ ticks st.2 → (ref < length (heap st.2))%nat;
  wf_fresh : ∀ h t, timers st.2 !! h = Some t → (h < next_timer st.2)%nat;
  wf_armed : ∀ id r h,
    JsMap.get id (pendingRequests st.1) = Some r → pr_timeout r = Some h →
    ∃ t, timers st.2 !! h = Some t ∧ t_id t = id ∧ t_owner t = this;
}.

Lemma timers_untimed r e h t :
  timers (untimed r e) !! h = Some t → timers e !! h = Some t.
Proof.
  unfold untimed. destruct (pr_timeout r) as [h'|]; [|done]. cbn.
  intros H. apply lookup_delete_Some in H. tauto.
Qed.

Lemma timers_untimed_ne r e h :
  pr_timeout r ≠ Some h → timers (untimed r e) !! h = timers e !! h.
Proof.
  unfold untimed. destruct (pr_timeout r) as [h'|]; [|done]. cbn.
  intros H. apply lookup_delete_ne. congruence.
Qed.

Lemma next_timer_untimed r e : next_timer (untimed r e) = next_timer e.
Proof. unfold untimed. by destruct (pr_timeout r). Qed.

(** Removing the tracked request [id], with its timer, and queueing a call
    of [cb] keeps the invariant. *)
Lemma wf_settle this id r cb arg m e :
  wf this (m, e) → disposed m = false →
  JsMap.get id (pendingRequests m) = Some r →
  wf this (with_pending (JsMap.delete id) m, nextTick (TCall cb arg) (untimed r e)).
Proof.
  intros [Hd Hs Hf Ha] Ed Eg. cbn in *.
  destruct (untimed_frame r e) as (Ht & Hh & _).
  split; cbn.
  - congruence.
  - rewrite Ht, Hh. intros cb' ref [Hin|Hin]%elem_of_app; [by eapply Hs|].
    apply list_elem_of_singleton in Hin. discriminate.
  - rewrite next_timer_untimed. intros h t H%timers_untimed. by eapply Hf.
  - intros id' r' h' Hg' Hto'.
    destruct (decide (id = id')) as [->|Hne].
    { by rewrite get_delete_eq in Hg'. }
    rewrite get_delete_ne in Hg' by done.
    destruct (Ha id' r' h' Hg' Hto') as (t' & Hl' & Hid' & Ho').
    exists t'. split; [|done]. rewrite timers_untimed_ne; [done|].
    intros Hto. destruct (Ha id r h' Eg Hto) as (t & Hl & Hid & _). congruence.
Qed.

Lemma wf_rejectRequest this id error st :
  wf this st → wf this (rejectRequest id error st).2.
Proof.
  destruct st as [m e]. intros Hwf.
  destruct (disposed m) eqn:Ed.
  { unfold rejectRequest. by rewrite Ed. }
  destruct (JsMap.get id (pendingRequests m)) as [r|] eqn:Eg.
  - rewrite (rejectRequest_tracked id error r) by done. by apply wf_settle.
  - by rewrite rejectRequest_untracked.
Qed.

Lemma wf_resolveRequest this id response st :
  wf this st → wf this (resolveRequest id response st).2.
Proof.
  destruct st as [m e]. intros Hwf.
  destruct (disposed m) eqn:Ed.
  { unfold resolveRequest. by rewrite Ed. }
  destruct (JsMap.get id (pendingRequests m)) as [r|] eqn:Eg.
  - rewrite (resolveRequest_tracked id response r) by done. by apply wf_settle.
  - by rewrite resolveRequest_untracked.
Qed.

Lemma wf_addPendingRequest this id resolve reject timeout st :
  wf this st → wf this (addPendingRequest this id resolve reject timeout st).
Proof.
  destruct st as [m e]. intros [Hd Hs Hf Ha]. cbn in *. unfold addPendingRequest.
  destruct (disposed m) eqn:Ed; [split; cbn; auto|].
  destruct (0 <? default (defaultTimeout m) timeout); split; cbn;
    try done; try (intros ?; congruence).
  - intros h t [[<- _]|[_ H]]%lookup_insert_Some; [lia|].
    apply Hf in H. lia.
  - intros id' r' h' Hg' Hto'.
    destruct (decide (id = id')) as [<-|Hne].
    + rewrite get_set_eq in Hg'. injection Hg' as <-. cbn in Hto'.
      injection Hto' as <-. eexists. by rewrite lookup_insert_eq.
    + rewrite get_set_ne in Hg' by done.
      destruct (Ha id' r' h' Hg' Hto') as (t' & Hl' & Hid' & Ho').
      exists t'. split; [|done]. rewrite lookup_insert_ne; [done|].
      apply Hf in Hl'. lia.
  - intros id' r' h' Hg' Hto'.
    destruct (decide (id = id')) as [<-|Hne].
    + rewrite get_set_eq in Hg'. by injection Hg' as <-.
    + rewrite get_set_ne in Hg' by done. by apply (Ha id' r' h').
Qed.

Lemma wf_fireTimer this h st : wf this st → wf this (fireTimer this h st).
Proof.
  destruct st as [m e]. intros Hwf. unfold fireTimer.
  destruct (timers e !! h) as [t|] eqn:Et; [|done].
  destruct (bool_decide (t_owner t = this) && (t_due t <=? now e)); [|done].
  destruct Hwf as [Hd Hs Hf Ha]. cbn in Hd, Hs, Hf, Ha.
  set (e1 := with_timers (base.delete h) e).
  assert (Hother : ∀ id' r' h', t_id t ≠ id' →
            JsMap.get id' (pendingRequests m) = Some r' → pr_timeout r' = Some h' →
            ∃ t', timers e1 !! h' = Some t' ∧ t_id t' = id' ∧ t_owner t' = this).
  { intros id' r' h' Hne Hg' Hto'.
    destruct (Ha id' r' h' Hg' Hto') as (t' & Hl' & Hid' & Ho').
    exists t'. split; [|done]. cbn. rewrite lookup_delete_ne; [done|].
    intros ->. congruence. }
  assert (Hf1 : ∀ h' t', timers e1 !! h' = Some t' → (h' < next_timer e1)%nat).
  { cbn. intros h' t' H. apply lookup_delete_Some in H. by eapply Hf, H. }
  destruct (disposed m) eqn:Ed.
  { unfold rejectRequest. rewrite Ed. split; cbn; [auto|done|done|].
    intros id' r' h'. by rewrite Hd. }
  destruct (JsMap.get (t_id t) (pendingRequests m)) as [r|] eqn:Eg.
  - rewrite (rejectRequest_tracked _ _ r) by done.
    destruct (untimed_frame r e1) as (Ht & Hh & _).
    split; cbn.
    + congruence.
    + rewrite Ht, Hh. intros cb' ref [Hin|Hin]%elem_of_app; [by eapply Hs|].
      apply list_elem_of_singleton in Hin. discriminate.
    + rewrite next_timer_untimed. intros h' t' H%timers_untimed. by eapply Hf1.
    + intros id' r' h' Hg' Hto'.
      destruct (decide (t_id t = id')) as [<-|Hne].
      { by rewrite get_delete_eq in Hg'. }
      rewrite get_delete_ne in Hg' by done.
      destruct (Hother id' r' h' Hne Hg' Hto') as (t' & Hl' & Hid' & Ho').
      exists t'. split; [|done]. rewrite timers_untimed_ne; [done|].
      intros Hto. destruct (Ha (t_id t) r h' Eg Hto) as (t0 & Hl0 & Hid0 & _).
      cbn in Hl'. apply lookup_delete_Some in Hl'. destruct Hl' as [_ Hl'].
      congruence.
  - rewrite rejectRequest_untracked by done. split; cbn; [congruence|done|done|].
    intros id' r' h' Hg' Hto'. apply (Hother id' r' h'); [|done..].
    intros <-. congruence.
Qed.

(** *** The loop of [clearAllRequests] *)

Definition drop_timer (ts : gmap nat Timer) (entry : string * PendingRequest)
  : gmap nat Timer :=
  match pr_timeout entry.2 with Some h => base.delete h ts | None => ts end.

Definition retag (ref : nat) (hp : list MessageProtocol) (entry : string * PendingRequest)
  : list MessageProtocol :=
  alter (set_id entry.1) ref hp.

Lemma clearAll_fold ref (entries : list (string * PendingRequest)) : ∀ e,
  foldl (clearAll_turn ref) e entries =
    {| timers := foldl drop_timer (timers e) entries;
       next_timer := next_timer e;
       ticks := ticks e ++ map (λ entry, TCallShared (pr_reject entry.2) ref) entries;
       heap := foldl (retag ref) (heap e) entries;
       calls := calls e;
       now := now e |}.
Proof.
  induction entries as [|[id r] entries IH]; intros e.
  - destruct e; cbn. by rewrite app_nil_r.
  - cbn [foldl]. rewrite IH. unfold clearAll_turn, drop_timer, retag.
    destruct (pr_timeout r) eqn:Eto; cbn; rewrite Eto, <- app_assoc; done.
Qed.

Lemma drop_timers_Some (entries : list (string * PendingRequest)) : ∀ ts h t,
  foldl drop_timer ts entries !! h = Some t → ts !! h = Some t.
Proof.
  induction entries as [|[id r] entries IH]; intros ts h t; cbn; [done|].
  intros H%IH. unfold drop_timer in H. cbn in H.
  destruct (pr_timeout r); [|done]. apply lookup_delete_Some in H. tauto.
Qed.

Lemma drop_timers_None (entries : list (string * PendingRequest)) : ∀ ts h,
  ts !! h = None → foldl drop_timer ts entries !! h = None.
Proof.
  induction entries as [|[id r] entries IH]; intros ts h Hn; cbn; [done|].
  apply IH. unfold drop_timer. cbn.
  destruct (pr_timeout r); [|done]. apply lookup_delete_None. tauto.
Qed.

Lemma drop_timers_gone (entries : list (string * PendingRequest)) : ∀ ts id r h,
  (id, r) ∈ entries → pr_timeout r = Some h →
  foldl drop_timer ts entries !! h = None.
Proof.
  induction entries as [|[id0 r0] entries IH]; intros ts id r h Hin Hto.
  - by apply elem_of_nil in Hin.
  - cbn. apply elem_of_cons in Hin as [[= <- <-]|Hin].
    + apply drop_timers_None. unfold drop_timer. cbn. rewrite Hto.
      apply lookup_delete_eq.
    + by eapply IH.
Qed.

Lemma retag_length ref (entries : list (string * PendingRequest)) : ∀ hp,
  length (foldl (retag ref) hp entries) = length hp.
Proof.
  induction entries as [|entry entries IH]; intros hp; cbn; [done|].
  rewrite IH. unfold retag. apply length_alter.
Qed.

Lemma retag_other ref (entries : list (string * PendingRequest)) : ∀ hp i,
  i ≠ ref → foldl (retag ref) hp entries !! i = hp !! i.
Proof.
  induction entries as [|entry entries IH]; intros hp i Hne; cbn; [done|].
  rewrite IH by done. unfold retag. by apply list_lookup_alter_ne.
Qed.

(** Every turn overwrites the [id] of the one shared object, so what is left
    is the id of the last entry. *)
Lemma retag_shared ref (entries : list (string * PendingRequest)) : ∀ hp id text status ts,
  hp !! ref = Some (error_literal id text status ts) →
  foldl (retag ref) hp entries !! ref =
    Some (error_literal (default id (last entries.*1)) text status ts).
Proof.
  induction entries as [|[id0 r0] entries IH]; intros hp id text status ts Hl; cbn.
  - done.
  - rewrite (IH _ id0 text status ts).
    + rewrite last_cons. by destruct (last entries.*1).
    + unfold retag. cbn. rewrite list_lookup_alter_eq, Hl. done.
Qed.

(** Closures queued earlier read the same objects after the heap has grown. *)
Lemma invocations_stable (tasks : list Task) (hp hp' : list MessageProtocol) :
  (∀ cb ref, TCallShared cb ref ∈ tasks → hp' !! ref = hp !! ref) →
  omap (invocation hp') tasks = omap (invocation hp) tasks.
Proof.
  induction tasks as [|t tasks IH]; intros H; [done|].
  cbn. rewrite IH.
  - destruct t as [cb arg|cb ref]; [done|]. cbn.
    rewrite (H cb ref); [done|]. apply elem_of_cons. by left.
  - intros cb ref Hin. apply (H cb). apply elem_of_cons. by right.
Qed.

Lemma invocations_shared (entries : list (string * PendingRequest)) hp ref arg :
  hp !! ref = Some arg →
  omap (invocation hp) (map (λ entry, TCallShared (pr_reject entry.2) ref) entries) =
    map (λ entry, {| inv_cb := pr_reject entry.2; inv_arg := arg |}) entries.
Proof.
  intros Hl. induction entries as [|entry entries IH]; [done|].
  cbn. by rewrite Hl, IH.
Qed.

Lemma wf_clearAllRequests this st : wf this st → wf this (clearAllRequests st).
Proof.
  destruct st as [m e]. intros Hwf. unfold clearAllRequests.
  destruct (disposed m) eqn:Ed; [done|].
  destruct Hwf as [Hd Hs Hf Ha]. cbn in Hd, Hs, Hf, Ha.
  rewrite clearAll_fold. split; cbn; try done.
  - rewrite retag_length, length_app. cbn.
    intros cb ref [Hin|Hin]%elem_of_app.
    + apply Hs in Hin. lia.
    + apply list_elem_of_fmap in Hin as (entry & [= _ ->] & _). lia.
  - intros h t H%drop_timers_Some. by eapply Hf.
Qed.

Lemma wf_expire_turns this now0 (ids : list string) : ∀ acc,
  wf this acc.2 → wf this (foldl (expire_turn now0) acc ids).2.
Proof.
  induction ids as [|id ids IH]; intros [n st] Hwf; cbn; [done|].
  apply IH. unfold expire_turn.
  destruct (rejectRequest id _ st) as [b st1] eqn:E. cbn.
  change st1 with (b, st1).2. rewrite <- E. by apply wf_rejectRequest.
Qed.

Lemma wf_cleanupExpiredRequests this maxAge st :
  wf this st → wf this (cleanupExpiredRequests maxAge st).2.
Proof.
  destruct st as [m e]. intros Hwf. unfold cleanupExpiredRequests.
  destruct (disposed m); [done|]. by apply wf_expire_turns.
Qed.

Lemma wf_runTick this m e : wf this (m, e) → wf this (m, runTick e).
Proof.
  intros [Hd Hs Hf Ha]. unfold runTick.
  destruct (ticks e) as [|t rest] eqn:Et; [by split|].
  split; cbn in *; try done.
  intros cb ref Hin. apply (Hs cb). rewrite Et. apply elem_of_cons. by right.
Qed.

Lemma wf_init this timeout : wf this (init timeout).
Proof.
  split; cbn; try done.
  intros cb ref Hin. by apply elem_of_nil in Hin.
Qed.

Lemma wf_step this st op : wf this st → wf this (step this st op).
Proof.
  intros Hwf. destruct op; cbn.
  - by apply wf_addPendingRequest.
  - by apply wf_resolveRequest.
  - by apply wf_rejectRequest.
  - by apply wf_clearAllRequests.
  - by apply wf_cleanupExpiredRequests.
  - by apply wf_fireTimer.
  - destruct st. by apply wf_runTick.
  - destruct st. by destruct Hwf.
Qed.

Lemma reachable_wf this st : reachable this st → wf this st.
Proof.
  intros (timeout & ops & ->). generalize (wf_init this timeout).
  generalize (init timeout). induction ops as [|op ops IH]; intros st Hwf; [done|].
  cbn. by apply IH, wf_step.
Qed.

(** *** Timers are only ever added under a fresh handle, or dropped *)

Definition timers_kept (e e' : Env) : Prop :=
  (next_timer e ≤ next_timer e')%nat ∧
  ∀ h t, timers e' !! h = Some t → timers e !! h = Some t ∨ (next_timer e ≤ h)%nat.

Lemma timers_kept_refl e : timers_kept e e.
Proof. split; [lia|]. intros h t H. by left. Qed.

Lemma timers_kept_settle r cb arg e :
  timers_kept e (nextTick (TCall cb arg) (untimed r e)).
Proof.
  split; cbn; [by rewrite next_timer_untimed|].
  intros h t H%timers_untimed. by left.
Qed.

Lemma timers_kept_rejectRequest id error st :
  timers_kept st.2 (rejectRequest id error st).2.2.
Proof.
  destruct st as [m e]. destruct (disposed m) eqn:Ed.
  { unfold rejectRequest. rewrite Ed. apply timers_kept_refl. }
  destruct (JsMap.get id (pendingRequests m)) as [r|] eqn:Eg.
  - rewrite (rejectRequest_tracked id error r) by done. apply timers_kept_settle.
  - rewrite rejectRequest_untracked by done. apply timers_kept_refl.
Qed.

Lemma timers_kept_resolveRequest id response st :
  timers_kept st.2 (resolveRequest id response st).2.2.
Proof.
  destruct st as [m e]. destruct (disposed m) eqn:Ed.
  { unfold resolveRequest. rewrite Ed. apply timers_kept_refl. }
  destruct (JsMap.get id (pendingRequests m)) as [r|] eqn:Eg.
  - rewrite (resolveRequest_tracked id response r) by done. apply timers_kept_settle.
  - rewrite resolveRequest_untracked by done. apply timers_kept_refl.
Qed.

Lemma timers_kept_trans e1 e2 e3 :
  timers_kept e1 e2 → timers_kept e2 e3 → timers_kept e1 e3.
Proof.
  intros [Hn12 H12] [Hn23 H23]. split; [lia|].
  intros h t H. destruct (H23 h t H) as [H2|Hge]; [|right; lia].
  by apply H12.
Qed.

Lemma timers_kept_expire_turns now0 (ids : list string) : ∀ acc,
  timers_kept acc.2.2 (foldl (expire_turn now0) acc ids).2.2.
Proof.
  induction ids as [|id ids IH]; intros [n st]; cbn; [apply timers_kept_refl|].
  eapply timers_kept_trans; [|apply IH]. unfold expire_turn.
  destruct (rejectRequest id _ st) as [b st1] eqn:E. cbn.
  change st1 with (b, st1).2. rewrite <- E. apply timers_kept_rejectRequest.
Qed.

Lemma timers_kept_step this st op : timers_kept st.2 (step this st op).2.
Proof.
  destruct st as [m e]. destruct op; unfold step; cbn [fst snd].
  - unfold addPendingRequest. destruct (disposed m); [by split; [|left]|].
    destruct (0 <? default (defaultTimeout m) timeout); cbn; [|apply timers_kept_refl].
    split; cbn; [lia|].
    intros h t [[<- _]|[_ H]]%lookup_insert_Some; [right; lia|by left].
  - apply (timers_kept_resolveRequest id response (m, e)).
  - apply (timers_kept_rejectRequest id error (m, e)).
  - unfold clearAllRequests. destruct (disposed m); [apply timers_kept_refl|].
    rewrite clearAll_fold. split; cbn; [lia|].
    intros h t H%drop_timers_Some. by left.
  - unfold cleanupExpiredRequests. destruct (disposed m); [apply timers_kept_refl|].
    apply (timers_kept_expire_turns (now e) _ (0%nat, (m, e))).
  - unfold fireTimer. destruct (timers e !! h) as [t|]; [|apply timers_kept_refl].
    destruct (bool_decide (t_owner t = this) && (t_due t <=? now e));
      [|apply timers_kept_refl].
    eapply timers_kept_trans;
      [|apply (timers_kept_rejectRequest _ _ (m, with_timers (base.delete h) e))].
    split; cbn; [lia|]. intros h' t' H. apply lookup_delete_Some in H. tauto.
  - unfold runTick. destruct (ticks e); [apply timers_kept_refl|].
    split; cbn; [lia|]. intros h' t' H. by left.
  - split; cbn; [lia|]. intros h' t' H. by left.
Qed.

Lemma timers_kept_steps this (ops : list Op) : ∀ st,
  timers_kept st.2 (foldl (step this) st ops).2.
Proof.
  induction ops as [|op ops IH]; intros st; cbn; [apply timers_kept_refl|].
  eapply timers_kept_trans; [apply (timers_kept_step this st op)|apply IH].
Qed.

Lemma wf_steps this (ops : list Op) : ∀ st,
  wf this st → wf this (foldl (step this) st ops).
Proof.
  induction ops as [|op ops IH]; intros st Hwf; cbn; [done|].
  by apply IH, wf_step.
Qed.

(** *** Settling a tracked request *)

Lemma tracked_not_disposed this st id r :
  wf this st → JsMap.get id (pendingRequests st.1) = Some r → disposed st.1 = false.
Proof.
  intros Hwf Hg. destruct (disposed st.1) eqn:Ed; [|done].
  by rewrite (wf_disposed _ _ Hwf Ed) in Hg.
Qed.

Lemma calls_after_settle r cb arg e :
  calls (runTicks (nextTick (TCall cb arg) (untimed r e))) =
    calls (runTicks e) ++ [{| inv_cb := cb; inv_arg := arg |}].
Proof.
  rewrite !runTicks_calls. cbn.
  destruct (untimed_frame r e) as (-> & -> & -> & _).
  by rewrite omap_app, app_assoc.
Qed.

(** What both [resolveRequest] and [rejectRequest] leave behind on a tracked
    id: the entry and its timer are gone, nothing has been invoked yet, the
    queued closure invokes [cb] once, and the id is unknown from then on. *)
Lemma settled_outcome id r cb arg m e :
  let st' := (with_pending (JsMap.delete id) m, nextTick (TCall cb arg) (untimed r e)) in
  JsMap.get id (pendingRequests st'.1) = None ∧
  (∀ h, pr_timeout r = Some h → timers st'.2 !! h = None) ∧
  calls st'.2 = calls e ∧
  calls (runTicks st'.2) = calls (runTicks e) ++ [{| inv_cb := cb; inv_arg := arg |}] ∧
  (∀ again, resolveRequest id again st' = (false, st')) ∧
  (∀ again, rejectRequest id again st' = (false, st')).
Proof.
  cbn [fst snd]. split_and!.
  - apply get_delete_eq.
  - intros h Hto. cbn. unfold untimed. rewrite Hto. apply lookup_delete_eq.
  - cbn. apply (untimed_frame r e).
  - apply calls_after_settle.
  - intros again. apply resolveRequest_untracked, get_delete_eq.
  - intros again. apply rejectRequest_untracked, get_delete_eq.
Qed.

(** C2. For every tracked correlation id, [resolveRequest] (and,
    symmetrically, [rejectRequest]) returns true, removes the entry, cancels
    its timeout, and has the entry's callback invoked exactly once: nothing
    is invoked during the call, and when the event loop has run the queued
    closures the record of invocations has grown by that one call.  A second
    call for the same id returns false and changes nothing, and so does a
    call for an id that is not tracked. *)
Theorem settle_exactly_once this st id r :
  reachable this st →
  JsMap.get id (pendingRequests st.1) = Some r →
  (∀ response,
     let out := resolveRequest id response st in
     out.1 = true ∧
     JsMap.get id (pendingRequests out.2.1) = None ∧
     (∀ h, pr_timeout r = Some h → timers out.2.2 !! h = None) ∧
     calls out.2.2 = calls st.2 ∧
     calls (runTicks out.2.2) =
       calls (runTicks st.2) ++ [{| inv_cb := pr_resolve r; inv_arg := response |}] ∧
     (∀ again, resolveRequest id again out.2 = (false, out.2)) ∧
     (∀ again, rejectRequest id again out.2 = (false, out.2))) ∧
  (∀ error,
     let out := rejectRequest id error st in
     out.1 = true ∧
     JsMap.get id (pendingRequests out.2.1) = None ∧
     (∀ h, pr_timeout r = Some h → timers out.2.2 !! h = None) ∧
     calls out.2.2 = calls st.2 ∧
     calls (runTicks out.2.2) =
       calls (runTicks st.2) ++ [{| inv_cb := pr_reject r; inv_arg := error |}] ∧
     (∀ again, resolveRequest id again out.2 = (false, out.2)) ∧
     (∀ again, rejectRequest id again out.2 = (false, out.2))) ∧
  (∀ other message,
     JsMap.get other (pendingRequests st.1) = None →
     resolveRequest other message st = (false, st) ∧
     rejectRequest other message st = (false, st)).
Proof.
  intros Hwf%reachable_wf Hg.
  pose proof (tracked_not_disposed _ _ _ _ Hwf Hg) as Hd.
  destruct st as [m e]. cbn in Hg, Hd. split_and!.
  - intros response. rewrite (resolveRequest_tracked id response r) by done.
    split; [done|]. apply settled_outcome.
  - intros error. rewrite (rejectRequest_tracked id error r) by done.
    split; [done|]. apply settled_outcome.
  - intros other message Hother.
    by rewrite resolveRequest_untracked, rejectRequest_untracked.
Qed.

(** A manager tracking the request "req-1", registered with callbacks 1
    and 2 and the default timeout; and a response for it. *)
Definition one_pending : State :=
  foldl (step 0%nat) (init None) [OAdd "req-1" 1%nat 2%nat None].

Definition response_200 (id : string) (instanceId : option string) : MessageProtocol :=
  {| msg_id := id; msg_type := MResponse; msg_method := None; msg_url := None;
     msg_headers := None; msg_body := JUndefined; msg_status := Some 200;
     msg_error := None; msg_stack := None; msg_instanceId := instanceId;
     msg_timestamp := 0 |}.

Lemma settle_exactly_once_witness :
  reachable 0%nat one_pending ∧
  JsMap.get "req-1" (pendingRequests one_pending.1) =
    Some {| pr_id := "req-1"; pr_timestamp := 0; pr_resolve := 1%nat;
            pr_reject := 2%nat; pr_timeout := Some 1%nat |} ∧
  let out := resolveRequest "req-1" (response_200 "req-1" None) one_pending in
  out.1 = true ∧
  calls (runTicks out.2.2) =
    [{| inv_cb := 1%nat; inv_arg := response_200 "req-1" None |}] ∧
  resolveRequest "req-1" (response_200 "req-1" None) out.2 = (false, out.2).
Proof.
  assert (H1 : reachable 0%nat one_pending).
  { by exists None, [OAdd "req-1" 1%nat 2%nat None]. }
  assert (H2 : JsMap.get "req-1" (pendingRequests one_pending.1) =
    Some {| pr_id := "req-1"; pr_timestamp := 0; pr_resolve := 1%nat;
            pr_reject := 2%nat; pr_timeout := Some 1%nat |}) by reflexivity.
  split; [exact H1|]. split; [exact H2|].
  destruct (settle_exactly_once 0%nat one_pending "req-1" _ H1 H2) as [Hres _].
  destruct (Hres (response_200 "req-1" None)) as (Ht & _ & _ & _ & Hc & Ha & _).
  split; [exact Ht|]. split; [exact Hc|]. apply Ha.
Defined.

(** *** Disposal *)

(** C5. [clearAllRequests] marks the manager disposed, clears the pending
    table and the entries' timers, and has the reject callback of every
    entry that was pending invoked exactly once, in the order of the table,
    with an error 'Connection closed' of status 503 (the one error object
    the closures share, which by then carries the id of the last entry).
    A second call changes nothing, so no callback fires again. *)
Theorem clearAllRequests_rejects_each_once this st :
  reachable this st →
  let entries := pendingRequests st.1 in
  let closed :=
    error_literal (default "" (last entries.*1)) "Connection closed" 503 (now st.2) in
  let st' := clearAllRequests st in
  disposed st'.1 = true ∧
  pendingRequests st'.1 = [] ∧
  (∀ id r h, (id, r) ∈ entries → pr_timeout r = Some h → timers st'.2 !! h = None) ∧
  calls st'.2 = calls st.2 ∧
  calls (runTicks st'.2) =
    calls (runTicks st.2)
    ++ map (λ entry, {| inv_cb := pr_reject entry.2; inv_arg := closed |}) entries ∧
  clearAllRequests st' = st'.
Proof.
  intros Hwf%reachable_wf. destruct st as [m e]. cbn [fst snd].
  unfold clearAllRequests. destruct (disposed m) eqn:Ed.
  - pose proof (wf_disposed _ _ Hwf Ed) as Hnil. cbn in Hnil. rewrite Hnil. cbn.
    rewrite Ed, app_nil_r. repeat split; try done.
    intros id r h Hin. by apply elem_of_nil in Hin.
  - rewrite clearAll_fold. cbn. repeat split.
    + intros id r h Hin Hto. by eapply drop_timers_gone.
    + rewrite !runTicks_calls. cbn. rewrite omap_app, app_assoc. f_equal.
      * f_equal. apply invocations_stable. intros cb ref Hin.
        pose proof (wf_shared _ _ Hwf cb ref Hin) as Hlt. cbn in Hlt.
        rewrite retag_other by lia. by apply lookup_app_l.
      * apply invocations_shared, retag_shared.
        by rewrite lookup_app_r, Nat.sub_diag.
Qed.

(** A manager tracking two requests. *)
Definition two_pending : State :=
  foldl (step 0%nat) (init None)
    [OAdd "req-1" 1%nat 2%nat None; OAdd "req-2" 3%nat 4%nat (Some 0)].

Lemma clearAllRequests_rejects_each_once_witness :
  reachable 0%nat two_pending ∧
  let closed := error_literal "req-2" "Connection closed" 503 0 in
  calls (runTicks (clearAllRequests two_pending).2) =
    [{| inv_cb := 2%nat; inv_arg := closed |}; {| inv_cb := 4%nat; inv_arg := closed |}] ∧
  clearAllRequests (clearAllRequests two_pending) = clearAllRequests two_pending.
Proof.
  assert (H1 : reachable 0%nat two_pending).
  { by exists None, [OAdd "req-1" 1%nat 2%nat None; OAdd "req-2" 3%nat 4%nat (Some 0)]. }
  split; [exact H1|].
  destruct (clearAllRequests_rejects_each_once 0%nat two_pending H1)
    as (_ & _ & _ & _ & Hc & Ha).
  split; [exact Hc|exact Ha].
Defined.

(** *** Timeouts *)

(** Calls about other ids, the running of queued closures and the passing of
    time leave a pending request as it is. *)
Definition leaves_alone (id : string) (op : Op) : bool :=
  match op with
  | OAdd id' _ _ _ | OResolve id' _ | OReject id' _ => negb (String.eqb id id')
  | OTick | OAdvance _ => true
  | OClearAll | OCleanup _ | OFire _ => false
  end.

Lemma pending_left_alone this st id op :
  leaves_alone id op = true →
  JsMap.get id (pendingRequests (step this st op).1) = JsMap.get id (pendingRequests st.1).
Proof.
  destruct st as [m e].
  destruct op as [id' cb1 cb2 timeout|id' msg|id' msg| | | | |]; cbn [leaves_alone];
    try done; intros Hne%negb_true_iff%String.eqb_neq; unfold step.
  - unfold addPendingRequest. destruct (disposed m); [done|].
    destruct (0 <? default (defaultTimeout m) timeout); cbn;
      by rewrite get_set_ne.
  - destruct (disposed m) eqn:Ed.
    { unfold resolveRequest. by rewrite Ed. }
    destruct (JsMap.get id' (pendingRequests m)) as [r'|] eqn:Eg.
    + rewrite (resolveRequest_tracked id' msg r') by done. cbn.
      by rewrite get_delete_ne.
    + by rewrite resolveRequest_untracked.
  - destruct (disposed m) eqn:Ed.
    { unfold rejectRequest. by rewrite Ed. }
    destruct (JsMap.get id' (pendingRequests m)) as [r'|] eqn:Eg.
    + rewrite (rejectRequest_tracked id' msg r') by done. cbn.
      by rewrite get_delete_ne.
    + by rewrite rejectRequest_untracked.
Qed.

Lemma pending_left_alone_steps this id (ops : list Op) : ∀ st,
  forallb (leaves_alone id) ops = true →
  JsMap.get id (pendingRequests (foldl (step this) st ops).1)
    = JsMap.get id (pendingRequests st.1).
Proof.
  induction ops as [|op ops IH]; intros st Hall; cbn; [done|].
  cbn in Hall. apply andb_true_iff in Hall as [Hop Hall].
  rewrite IH by done. by apply pending_left_alone.
Qed.

(** C3. A request registered with a timeout [T > 0] (given, or the
    manager's default) is tracked with a timer due [T] after registration,
    and stays tracked while nothing resolves or rejects it.  However the
    manager is used afterwards, as long as that request is still pending its
    timer is still armed; and when the timer fires then, the request is
    removed from the pending table and its reject callback is invoked once
    with a 'Request timeout' error of status 408.  A resolve for that id
    afterwards returns false and changes nothing, so nothing reaches the
    original callbacks. *)
Theorem timeout_rejects_with_408 this st0 id resolve reject timeout :
  reachable this st0 →
  disposed st0.1 = false →
  0 < default (defaultTimeout st0.1) timeout →
  let st1 := addPendingRequest this id resolve reject timeout st0 in
  let h := next_timer st0.2 in
  let r := {| pr_id := id; pr_timestamp := now st0.2; pr_resolve := resolve;
              pr_reject := reject; pr_timeout := Some h |} in
  let t := {| t_owner := this; t_id := id;
              t_due := now st0.2 + default (defaultTimeout st0.1) timeout |} in
  JsMap.get id (pendingRequests st1.1) = Some r ∧
  (∀ ops,
     forallb (leaves_alone id) ops = true →
     JsMap.get id (pendingRequests (foldl (step this) st1 ops).1) = Some r) ∧
  ∀ ops,
    let st := foldl (step this) st1 ops in
    JsMap.get id (pendingRequests st.1) = Some r →
    timers st.2 !! h = Some t ∧
    (t_due t ≤ now st.2 →
     let st' := fireTimer this h st in
     JsMap.get id (pendingRequests st'.1) = None ∧
     timers st'.2 !! h = None ∧
     calls (runTicks st'.2) =
       calls (runTicks st.2)
       ++ [{| inv_cb := reject;
              inv_arg := error_literal id "Request timeout" 408 (now st.2) |}] ∧
     ∀ response, resolveRequest id response st' = (false, st')).
Proof.
  intros Hwf0%reachable_wf Hd0 HT.
  pose proof (wf_addPendingRequest this id resolve reject timeout st0 Hwf0) as Hwf1.
  destruct st0 as [m0 e0]. cbn [fst snd] in *.
  unfold addPendingRequest in *. rewrite Hd0 in *.
  apply Z.ltb_lt in HT. rewrite HT in *. cbn [setTimeout] in *.
  split; [apply get_set_eq|]. split.
  { intros ops Hall. rewrite pending_left_alone_steps by done. apply get_set_eq. }
  intros ops. cbn zeta.
  match goal with |- context [foldl (step this) ?s ops] => set (st1 := s) in * end.
  pose proof (wf_steps this ops st1 Hwf1) as Hwf.
  pose proof (timers_kept_steps this ops st1) as [_ Hkept].
  destruct (foldl (step this) st1 ops) as [m e]. cbn [fst snd] in *.
  intros Hg.
  destruct (wf_armed _ _ Hwf id _ _ Hg eq_refl) as (t' & Hl & Hid & Ho).
  cbn [fst snd] in Hl.
  assert (Ht : t' = {| t_owner := this; t_id := id;
                       t_due := now e0 + default (defaultTimeout m0) timeout |}).
  { destruct (Hkept _ _ Hl) as [Hold|Hge]; [|cbn in Hge; lia].
    cbn in Hold. rewrite lookup_insert_eq in Hold. congruence. }
  subst t'. split; [done|]. cbn [t_due]. intros Hdue.
  pose proof (tracked_not_disposed _ _ _ _ Hwf Hg) as Hd. cbn in Hd.
  unfold fireTimer. rewrite Hl. cbn [t_owner t_due t_id].
  rewrite bool_decide_eq_true_2 by done.
  apply Z.leb_le in Hdue. rewrite Hdue. cbn [andb].
  rewrite (rejectRequest_tracked id _ _ m _ Hd Hg). cbn [fst snd pr_reject].
  repeat split.
  - apply get_delete_eq.
  - cbn. apply lookup_delete_eq.
  - rewrite calls_after_settle. rewrite !runTicks_calls. done.
  - intros response. apply resolveRequest_untracked, get_delete_eq.
Qed.

Lemma timeout_rejects_with_408_witness :
  reachable 0%nat (init None) ∧
  disposed (init None).1 = false ∧
  0 < default (defaultTimeout (init None).1) (Some 100) ∧
  let st := foldl (step 0%nat)
              (addPendingRequest 0%nat "req-1" 1%nat 2%nat (Some 100) (init None))
              [OAdvance 100] in
  let st' := fireTimer 0%nat 1%nat st in
  JsMap.get "req-1" (pendingRequests st'.1) = None ∧
  calls (runTicks st'.2) =
    [{| inv_cb := 2%nat; inv_arg := error_literal "req-1" "Request timeout" 408 100 |}] ∧
  resolveRequest "req-1" (response_200 "req-1" None) st' = (false, st').
Proof.
  assert (H1 : reachable 0%nat (init None)) by (by exists None, []).
  assert (H2 : disposed (init None).1 = false) by reflexivity.
  assert (H3 : 0 < default (defaultTimeout (init None).1) (Some 100)) by reflexivity.
  split; [exact H1|]. split; [exact H2|]. split; [exact H3|].
  destruct (timeout_rejects_with_408 0%nat (init None) "req-1" 1%nat 2%nat (Some 100)
              H1 H2 H3) as (_ & Hstill & Hfire).
  destruct (Hfire [OAdvance 100%nat] (Hstill [OAdvance 100%nat] eq_refl)) as [_ Hdue].
  destruct (Hdue ltac:(vm_compute; discriminate)) as (Hg & _ & Hc & Hr).
  split; [exact Hg|]. split; [exact Hc|]. apply Hr.
Defined.

End CorrelationFacts.

Module ServerFacts.
Import Js Protocol Server.

Implicit Types (w : World) (r : Response.VSCodeHttpResponse) (res : nat).

(** *** Header mutation after the headers are sent *)

(** A response on which a header was set and [writeHead] then called. *)
Definition sent_response : Response.VSCodeHttpResponse :=
  Response.writeHead 200 None None
    (Response.setHeader "X-Trace" "1" (Response.new "req-1" 0%nat "server_A")).

Example removeHeader_after_writeHead :
  Response.headersSent sent_response = true ∧
  Response._disposed sent_response = false ∧
  Response.headers sent_response !! "x-trace" = Some "1" ∧
  Response.headers (Response.removeHeader "X-Trace" sent_response) !! "x-trace" = None.
Proof. repeat split; reflexivity. Qed.

(** C6 as it is stated: once the headers are sent or the response is
    disposed, [setHeader] and [removeHeader] leave the headers as they
    were. *)
Definition late_header_mutation_ignored : Prop :=
  ∀ name value r,
    Response.headersSent r = true ∨ Response._disposed r = true →
    Response.headers (Response.setHeader name value r) = Response.headers r ∧
    Response.headers (Response.removeHeader name r) = Response.headers r.

(** C6 fails as stated: with the headers sent and the response not disposed,
    [removeHeader] still deletes the header. *)
Lemma removeHeader_after_headersSent_deletes : ¬ late_header_mutation_ignored.
Proof.
  intros Hclaim.
  destruct (Hclaim "X-Trace" "" sent_response (or_introl eq_refl)) as [_ Hremove].
  destruct removeHeader_after_writeHead as (_ & _ & Hbefore & Hafter).
  rewrite Hremove in Hafter. congruence.
Qed.

(** C6, amended. [setHeader] is a no-op once the headers are sent or the
    response is disposed; [removeHeader] is a no-op once the response is
    disposed, and on a response that is not disposed it deletes the header
    under the lower-cased name, whether or not the headers are sent.
    Neither has an exceptional outcome. *)
Theorem header_mutation_guards name value r :
  (Response.headersSent r = true ∨ Response._disposed r = true →
   Response.setHeader name value r = r) ∧
  (Response._disposed r = true → Response.removeHeader name r = r) ∧
  (Response._disposed r = false →
   Response.headers (Response.removeHeader name r) =
     base.delete (toLowerCase name) (Response.headers r)).
Proof.
  unfold Response.setHeader, Response.removeHeader. repeat split.
  - intros [-> | ->]; [done|]. by rewrite orb_true_r.
  - by intros ->.
  - by intros ->.
Qed.

Lemma header_mutation_guards_witness :
  Response.headersSent sent_response = true ∧
  Response.setHeader "X-Late" "1" sent_response = sent_response ∧
  Response._disposed (Response.dispose sent_response) = true ∧
  Response.removeHeader "X-Trace" (Response.dispose sent_response) =
    Response.dispose sent_response ∧
  Response._disposed sent_response = false ∧
  Response.headers (Response.removeHeader "X-Trace" sent_response) =
    base.delete (toLowerCase "X-Trace") (Response.headers sent_response).
Proof.
  assert (H1 : Response.headersSent sent_response = true) by reflexivity.
  assert (H2 : Response._disposed (Response.dispose sent_response) = true) by reflexivity.
  assert (H3 : Response._disposed sent_response = false) by reflexivity.
  destruct (header_mutation_guards "X-Late" "1" sent_response) as (Hset & _ & _).
  destruct (header_mutation_guards "X-Trace" "" (Response.dispose sent_response))
    as (_ & Hdisposed & _).
  destruct (header_mutation_guards "X-Trace" "" sent_response) as (_ & _ & Hdelete).
  split; [exact H1|]. split; [exact (Hset (or_introl H1))|].
  split; [exact H2|]. split; [exact (Hdisposed H2)|].
  split; [exact H3|exact (Hdelete H3)].
Defined.

(** *** What [emit('finish')] touches *)

Lemma run_listeners_frame res (ls : list Response.Listener) : ∀ w,
  webviews (foldl (run_listener res) w ls) = webviews w ∧
  responses (foldl (run_listener res) w ls) = responses w ∧
  emitted (foldl (run_listener res) w ls) = emitted w ∧
  now (foldl (run_listener res) w ls) = now w.
Proof.
  induction ls as [|[server] ls IH]; intros w; cbn [foldl]; [done|].
  destruct (IH (run_listener res w (Response.Untrack server))) as (H1 & H2 & H3 & H4).
  by rewrite H1, H2, H3, H4.
Qed.

Lemma emit_finish_frame res r w :
  responses w !! res = Some r →
  webviews (emit_finish res w) = webviews w ∧
  responses (emit_finish res w) = alter Response.detach_listeners res (responses w) ∧
  emitted (emit_finish res w) = emitted w ++ [EvFinish res] ∧
  now (emit_finish res w) = now w.
Proof.
  intros Hr. unfold emit_finish. rewrite Hr.
  destruct (run_listeners_frame res (Response.finish_listeners r)
              (update_response res Response.detach_listeners (emit (EvFinish res) w)))
    as (H1 & H2 & H3 & H4).
  by rewrite H1, H2, H3, H4.
Qed.

(** *** [end] *)

Definition open (r : Response.VSCodeHttpResponse) : Prop :=
  Response.finished r = false ∧ Response._disposed r = false ∧
  Response._responseSent r = false.

Section End.
Context `{Runtime}.

Lemma end_closed res chunk r w :
  responses w !! res = Some r →
  Response.finished r || Response._disposed r || Response._responseSent r = true →
  end_ res chunk w = w.
Proof. intros Hr Hc. unfold end_. by rewrite Hr, Hc. Qed.

Lemma end_open res chunk r w :
  responses w !! res = Some r → open r →
  end_ res chunk w =
    try_postMessage (Response._webview r)
      (Response.responseMessage (now w) (Response.end_mark chunk r))
      (emit_finish res (update_response res (Response.end_mark chunk) w)).
Proof.
  intros Hr (Hf & Hd & Hs). unfold end_. rewrite Hr, Hf, Hd, Hs. cbn [orb].
  set (w1 := update_response res (Response.end_mark chunk) w).
  assert (Hr1 : responses w1 !! res = Some (Response.end_mark chunk r)).
  { cbn. by rewrite list_lookup_alter_eq, Hr. }
  destruct (emit_finish_frame res _ w1 Hr1) as (_ & Hrs & _ & Hnow).
  rewrite Hrs, list_lookup_alter_eq, Hr1. cbn [fmap option_fmap option_map].
  by rewrite Hnow.
Qed.

(** After [end] the response is finished, whatever it was before. *)
Lemma end_finishes res chunk r w :
  responses w !! res = Some r →
  ∃ r', responses (end_ res chunk w) !! res = Some r' ∧
        Response.finished r' || Response._disposed r' || Response._responseSent r' = true.
Proof.
  intros Hr.
  destruct (Response.finished r || Response._disposed r || Response._responseSent r)
    eqn:Hc.
  { exists r. by rewrite (end_closed res chunk r). }
  apply orb_false_elim in Hc as [[Hf Hd]%orb_false_elim Hs].
  rewrite (end_open res chunk r) by done.
  set (w1 := update_response res (Response.end_mark chunk) w).
  assert (Hr1 : responses w1 !! res = Some (Response.end_mark chunk r)).
  { cbn. by rewrite list_lookup_alter_eq, Hr. }
  destruct (emit_finish_frame res _ w1 Hr1) as (_ & Hrs & _ & _).
  exists (Response.detach_listeners (Response.end_mark chunk r)). split; [|done].
  unfold try_postMessage, postMessage.
  destruct (webviews (emit_finish res w1) !! Response._webview r) as [wv|]; cbn;
    [destruct (gone wv); cbn|]; by rewrite Hrs, list_lookup_alter_eq, Hr1.
Qed.

Lemma end_repeat_closed res r (chunks : list JsValue) : ∀ w,
  responses w !! res = Some r →
  Response.finished r || Response._disposed r || Response._responseSent r = true →
  foldl (λ w chunk, end_ res chunk w) w chunks = w.
Proof.
  induction chunks as [|chunk chunks IH]; intros w Hr Hc; cbn; [done|].
  rewrite (end_closed res chunk r) by done. by apply IH.
Qed.

(** The world after the first [end] on an open response whose webview takes
    the message. *)
Lemma end_open_posts res chunk r wv w :
  responses w !! res = Some r → open r →
  webviews w !! Response._webview r = Some wv → gone wv = false →
  let envelope := Response.responseMessage (now w) (Response.end_mark chunk r) in
  let w' := end_ res chunk w in
  webviews w' =
    alter (λ wv, {| posted := posted wv ++ [envelope]; gone := gone wv;
                    subscribers := subscribers wv |})
      (Response._webview r) (webviews w) ∧
  emitted w' = emitted w ++ [EvFinish res] ∧
  responses w' !! res = Some (Response.detach_listeners (Response.end_mark chunk r)).
Proof.
  intros Hr Hopen Hwv Hgone. cbn zeta. rewrite (end_open res chunk r) by done.
  set (w1 := update_response res (Response.end_mark chunk) w).
  assert (Hr1 : responses w1 !! res = Some (Response.end_mark chunk r)).
  { cbn. by rewrite list_lookup_alter_eq, Hr. }
  destruct (emit_finish_frame res _ w1 Hr1) as (Hwvs & Hrs & Hem & _).
  unfold try_postMessage, postMessage. rewrite Hwvs. cbn [w1 update_response webviews
    with_responses]. rewrite Hwv, Hgone. cbn.
  rewrite Hwvs, Hrs, Hem, list_lookup_alter_eq, Hr1. done.
Qed.

(** C4, amended. On every response each call of [end] after the first
    changes nothing.  On a response that is open (not finished, not disposed,
    nothing sent) and whose webview takes the message, [N ≥ 1] calls post
    exactly one envelope, that of the first call, and emit 'finish' exactly
    once.  On a response that is finished, disposed or sent already, they
    post nothing and change nothing. *)
Theorem end_idempotent res r chunk chunks w :
  responses w !! res = Some r →
  (∀ first again, end_ res again (end_ res first w) = end_ res first w) ∧
  (open r →
   ∀ wv, webviews w !! Response._webview r = Some wv → gone wv = false →
   let envelope := Response.responseMessage (now w) (Response.end_mark chunk r) in
   let w' := foldl (λ w chunk, end_ res chunk w) w (chunk :: chunks) in
   webviews w' !! Response._webview r =
     Some {| posted := posted wv ++ [envelope]; gone := gone wv;
             subscribers := subscribers wv |} ∧
   (∀ other, other ≠ Response._webview r → webviews w' !! other = webviews w !! other) ∧
   emitted w' = emitted w ++ [EvFinish res] ∧
   Response.finished <$> responses w' !! res = Some true) ∧
  (Response.finished r || Response._disposed r || Response._responseSent r = true →
   foldl (λ w chunk, end_ res chunk w) w (chunk :: chunks) = w).
Proof.
  intros Hr. split; [|split].
  - intros first again.
    destruct (end_finishes res first r w Hr) as (r' & Hr' & Hc).
    by apply (end_closed res again r').
  - intros Hopen wv Hwv Hgone.
    destruct (end_open_posts res chunk r wv w) as (Hwvs & Hem & Hrs); [done..|].
    cbn [foldl]. rewrite (end_repeat_closed res _ chunks _ Hrs) by done.
    rewrite Hwvs, Hrs. repeat split; [|intros other Hne|done..].
    + by rewrite list_lookup_alter_eq, Hwv.
    + by rewrite list_lookup_alter_ne.
  - intros Hc. by apply (end_repeat_closed res r).
Qed.

(** C7. When [end] finalizes a response (one that is open) with a
    non-empty chunk buffer, the body of the envelope is what [JSON.parse]
    makes of the concatenated chunks if the concatenation begins with "{" or
    "[" and parses, and the concatenated string itself otherwise, also when
    parsing fails; and this envelope is what the webview receives.  So the
    one chunk 'plain text' gives that string, and the one chunk {"a":1}
    gives the value [JSON.parse] reads in it. *)
Theorem end_body_best_effort_json res r chunk w :
  responses w !! res = Some r →
  open r →
  let chunks := Response._body (Response.end_mark chunk r) in
  chunks ≠ [] →
  let combined := join "" chunks in
  let envelope := Response.responseMessage (now w) (Response.end_mark chunk r) in
  msg_body envelope =
    (if startsWith "{" combined || startsWith "[" combined then
       match JSON_parse combined with
       | Some parsed => parsed
       | None => JStr combined
       end
     else JStr combined) ∧
  (∀ wv, webviews w !! Response._webview r = Some wv → gone wv = false →
     posted <$> webviews (end_ res chunk w) !! Response._webview r =
       Some (posted wv ++ [envelope])) ∧
  (chunks = [JStr "plain text"] → msg_body envelope = JStr "plain text") ∧
  (∀ parsed,
     chunks = [JStr ("{" +:+ JsonRef.quote +:+ "a" +:+ JsonRef.quote +:+ ":1}")] →
     JSON_parse ("{" +:+ JsonRef.quote +:+ "a" +:+ JsonRef.quote +:+ ":1}") = Some parsed →
     msg_body envelope = parsed).
Proof.
  intros Hr Hopen chunks Hne combined envelope.
  assert (Hbody : msg_body envelope =
    (if startsWith "{" combined || startsWith "[" combined then
       match JSON_parse combined with
       | Some parsed => parsed
       | None => JStr combined
       end
     else JStr combined)).
  { unfold envelope, Response.responseMessage. cbn [msg_body].
    fold chunks. unfold Response._combineBody. fold chunks. fold combined.
    destruct chunks; [done|]. by rewrite bool_decide_eq_true_2 by (cbn; lia). }
  repeat split.
  - exact Hbody.
  - intros wv Hwv Hgone.
    destruct (end_open_posts res chunk r wv w) as (Hwvs & _ & _); [done..|].
    by rewrite Hwvs, list_lookup_alter_eq, Hwv.
  - intros Hc. rewrite Hbody. unfold combined. by rewrite Hc.
  - intros parsed Hc Hp. rewrite Hbody. unfold combined. rewrite Hc. cbn.
    cbn in Hp. by rewrite Hp.
Qed.

End End.

(** *** The server's message handler *)

Section HandleMessage.
Variable on_request : nat → nat → World → World * option Thrown.

(** C1, amended. A well-formed Request is ignored by a server (the world
    stays as it is: no request or response object, no 'request' event, the
    in-flight set untouched) when another server, not disposed, is the one
    registered for the webview.  The [instanceId] of the envelope plays no
    part: the handler does the same whatever [instanceId] the envelope
    carries. *)
Theorem handleMessage_filters_by_registry this s message w :
  servers w !! this = Some s →
  isRequestMessage message = true →
  (∀ registered,
     webviewServerRegistry w !! Transport._webview s = Some registered →
     registered ≠ this → isDisposed registered w = false →
     _handleMessage on_request this message w = w) ∧
  (∀ instanceId,
     _handleMessage on_request this (set_instanceId instanceId message) w =
     _handleMessage on_request this message w).
Proof.
  intros Hs Hreq. split.
  - intros registered Hreg Hne Hlive. unfold _handleMessage. rewrite Hs, Hreq.
    unfold yields_to_registered. rewrite Hreg, Hlive.
    rewrite bool_decide_eq_false_2 by done. cbn.
    by destruct (_ || _ || _).
  - intros instanceId. reflexivity.
Qed.

End HandleMessage.

(** *** The reference runtime at work *)

Section Examples.
#[local] Existing Instance JsonRef.runtime.

(** A fresh response for the request "req-1", in a world with one webview. *)
Definition fresh_response : World := (new_response "req-1" 0%nat "server_A" one_webview).2.

Example end_twice_on_disposed :
  let w := update_response 0%nat Response.dispose fresh_response in
  let w' := end_ 0%nat (JStr "late") (end_ 0%nat (JStr "late") w) in
  posted <$> webviews w' !! 0%nat = Some [].
Proof. reflexivity. Qed.

(** C4 as it is stated: on every response, more than one call of [end]
    leaves exactly one more envelope on the channel. *)
Definition end_posts_exactly_one : Prop :=
  ∀ (runtime : Runtime) res r wv chunk chunks w,
    responses w !! res = Some r →
    webviews w !! Response._webview r = Some wv →
    chunks ≠ [] →
    ∃ envelope,
      posted <$> webviews (foldl (λ w chunk, end_ res chunk w) w (chunk :: chunks))
                   !! Response._webview r
      = Some (posted wv ++ [envelope]).

(** C4 fails as stated: on a response that was disposed, two calls of [end]
    post no envelope at all. *)
Lemma end_on_disposed_posts_nothing : ¬ end_posts_exactly_one.
Proof.
  intros Hclaim.
  destruct (Hclaim JsonRef.runtime 0%nat _ _ (JStr "late") [JStr "late"]
              (update_response 0%nat Response.dispose fresh_response) eq_refl eq_refl)
    as [envelope Hposted]; [done|].
  vm_compute in Hposted. discriminate.
Qed.

Lemma end_idempotent_witness :
  responses fresh_response !! 0%nat = Some (Response.new "req-1" 0%nat "server_A") ∧
  open (Response.new "req-1" 0%nat "server_A") ∧
  (let w' := foldl (λ w chunk, end_ 0%nat chunk w) fresh_response
               [JStr "plain text"; JUndefined; JStr "again"] in
   posted <$> webviews w' !! 0%nat =
     Some [Response.responseMessage 0
             (Response.end_mark (JStr "plain text") (Response.new "req-1" 0%nat "server_A"))]
   ∧ emitted w' = [EvFinish 0%nat]) ∧
  (let w := update_response 0%nat Response.dispose fresh_response in
   foldl (λ w chunk, end_ 0%nat chunk w) w [JStr "late"; JStr "late"] = w).
Proof.
  assert (H1 : responses fresh_response !! 0%nat
               = Some (Response.new "req-1" 0%nat "server_A")) by reflexivity.
  assert (H2 : open (Response.new "req-1" 0%nat "server_A")) by (by repeat split).
  split; [exact H1|]. split; [exact H2|]. split.
  - destruct (end_idempotent 0%nat _ (JStr "plain text") [JUndefined; JStr "again"]
                fresh_response H1) as (_ & Hopen & _).
    destruct (Hopen H2 _ eq_refl eq_refl) as (Hp & _ & He & _).
    split; [exact (f_equal (fmap posted) Hp)|exact He].
  - apply (end_idempotent 0%nat (Response.dispose (Response.new "req-1" 0%nat "server_A"))
             (JStr "late") [JStr "late"]); reflexivity.
Defined.

Lemma end_body_best_effort_json_witness :
  responses fresh_response !! 0%nat = Some (Response.new "req-1" 0%nat "server_A") ∧
  open (Response.new "req-1" 0%nat "server_A") ∧
  fmap msg_body <$>
    (posted <$> webviews (end_ 0%nat (JStr "plain text") fresh_response) !! 0%nat)
    = Some [JStr "plain text"] ∧
  fmap msg_body <$> (posted <$> webviews
      (end_ 0%nat (JStr ("{" +:+ JsonRef.quote +:+ "a" +:+ JsonRef.quote +:+ ":1}"))
         fresh_response) !! 0%nat)
    = Some [JObj [("a", JNum 1)]].
Proof.
  assert (H1 : responses fresh_response !! 0%nat
               = Some (Response.new "req-1" 0%nat "server_A")) by reflexivity.
  assert (H2 : open (Response.new "req-1" 0%nat "server_A")) by (by repeat split).
  split; [exact H1|]. split; [exact H2|]. split.
  - destruct (end_body_best_effort_json 0%nat _ (JStr "plain text") fresh_response H1 H2)
      as (_ & Hpost & Hplain & _); [done|].
    exact (eq_trans (f_equal (fmap (fmap msg_body)) (Hpost _ eq_refl eq_refl))
             (f_equal (λ v, Some [v]) (Hplain eq_refl))).
  - destruct (end_body_best_effort_json 0%nat _
                (JStr ("{" +:+ JsonRef.quote +:+ "a" +:+ JsonRef.quote +:+ ":1}"))
                fresh_response H1 H2) as (_ & Hpost & _ & Hjson); [done|].
    exact (eq_trans (f_equal (fmap (fmap msg_body)) (Hpost _ eq_refl eq_refl))
             (f_equal (λ v, Some [v]) (Hjson (JObj [("a", JNum 1)]) eq_refl eq_refl))).
Defined.

(** A server with instance id "server_A", registered for the one webview
    and listening; and a request that names another instance. *)
Definition listening_server : World :=
  listen 0%nat None (new_server 0%nat "server_A" one_webview).2.

Definition request_for (instanceId : option string) : MessageProtocol :=
  {| msg_id := "req-1"; msg_type := MRequest; msg_method := Some GET;
     msg_url := Some "/x"; msg_headers := None; msg_body := JUndefined;
     msg_status := None; msg_error := None; msg_stack := None;
     msg_instanceId := instanceId; msg_timestamp := 0 |}.

Example request_for_server_B_on_server_A :
  let w' := _handleMessage no_listener 0%nat (request_for (Some "server_B"))
              listening_server in
  isRequestMessage (request_for (Some "server_B")) = true ∧
  getInstanceId 0%nat listening_server = Some "server_A" ∧
  requests listening_server = [] ∧ length (requests w') = 1%nat ∧
  responses listening_server = [] ∧
  responses w' =
    [Response.once_finish (Response.Untrack 0%nat) (Response.new "req-1" 0%nat "server_A")] ∧
  emitted w' = emitted listening_server ++ [EvRequest 0%nat 0%nat 0%nat] ∧
  elements <$> (Transport._pendingResponses <$> servers listening_server !! 0%nat)
    = Some [] ∧
  elements <$> (Transport._pendingResponses <$> servers w' !! 0%nat) = Some [0%nat].
Proof. repeat split; vm_compute; reflexivity. Qed.

(** C1 as it is stated: a well-formed Request that carries an [instanceId]
    other than the server's own is ignored: no request or response object is
    made, no 'request' event is emitted, and the in-flight set stays as it
    is. *)
Definition server_ignores_foreign_instanceId : Prop :=
  ∀ on_request this s message instanceId w,
    servers w !! this = Some s →
    isRequestMessage message = true →
    msg_instanceId message = Some instanceId →
    instanceId ≠ Transport._instanceId s →
    let w' := _handleMessage on_request this message w in
    requests w' = requests w ∧ responses w' = responses w ∧
    emitted w' = emitted w ∧
    Transport._pendingResponses <$> servers w' !! this
      = Transport._pendingResponses <$> servers w !! this.

(** C1 fails as stated: the registered, listening server handles a
    well-formed Request that carries the instance id of another server. *)
Lemma foreign_instanceId_is_handled : ¬ server_ignores_foreign_instanceId.
Proof.
  intros Hclaim.
  destruct (Hclaim no_listener 0%nat _ (request_for (Some "server_B")) "server_B"
              listening_server eq_refl eq_refl eq_refl) as (_ & _ & Hemitted & _);
    [discriminate|].
  destruct request_for_server_B_on_server_A as (_ & _ & _ & _ & _ & _ & Hev & _).
  rewrite Hev in Hemitted. by apply (f_equal length) in Hemitted.
Qed.

(** Two servers on the one webview, "server_A" created first: a request
    that names "server_A" is left alone by server A, which yields to the
    server registered last, and is handled by server B. *)
Definition two_servers : World :=
  listen 1%nat None
    (new_server 0%nat "server_B" (listen 0%nat None (new_server 0%nat "server_A" one_webview).2)).2.

Lemma handleMessage_filters_by_registry_witness :
  servers two_servers !! 0%nat ≠ None ∧
  isRequestMessage (request_for (Some "server_A")) = true ∧
  webviewServerRegistry two_servers !! 0%nat = Some 1%nat ∧
  isDisposed 1%nat two_servers = false ∧
  _handleMessage no_listener 0%nat (request_for (Some "server_A")) two_servers = two_servers ∧
  emitted (deliver no_listener 0%nat (request_for (Some "server_A")) two_servers) =
    emitted two_servers ++ [EvRequest 1%nat 0%nat 0%nat].
Proof.
  assert (H2 : isRequestMessage (request_for (Some "server_A")) = true) by reflexivity.
  assert (H3 : webviewServerRegistry two_servers !! 0%nat = Some 1%nat) by reflexivity.
  assert (H4 : isDisposed 1%nat two_servers = false) by reflexivity.
  split; [discriminate|]. split; [exact H2|]. split; [exact H3|]. split; [exact H4|].
  split; [|reflexivity].
  destruct (handleMessage_filters_by_registry no_listener 0%nat _
              (request_for (Some "server_A")) two_servers eq_refl H2) as [Hyield _].
  apply (Hyield 1%nat H3); [discriminate|exact H4].
Defined.

End Examples.

End ServerFacts.

Module ClientFacts.
Import Js Protocol Client.

Implicit Types (w : World) (c : VSCodeHttpClient) (this : nat).

(** *** The fetch-like response *)

(** C10. On a response whose body is [undefined] or [null], [json()]
    rejects with 'Response body is empty' and [text()] resolves to the empty
    string; either leaves the response, and so the stored body, as it
    was. *)
Theorem empty_body_json_rejects_text_empty `{Runtime} (r : Response.VSCodeHttpResponse) :
  Response._body r = JUndefined ∨ Response._body r = JNull →
  Response.json r = (Rejected "Response body is empty", r) ∧
  Response.text r = (Fulfilled (JStr ""), r) ∧
  Response._body (Response.json r).2 = Response._body r ∧
  Response._body (Response.text r).2 = Response._body r.
Proof.
  intros Hbody. unfold Response.json, Response.text.
  by destruct Hbody as [Hb | Hb]; rewrite Hb; cbn; rewrite ?Hb.
Qed.

(** The response the client builds for an envelope with status 204 and no
    body. *)
Definition no_content : Response.VSCodeHttpResponse :=
  {| Response.status := Some 204; Response.statusText := "No Content";
     Response.headers := ∅; Response.ok := true; Response.url := "/x";
     Response._body := JUndefined |}.

Lemma no_content_built :
  Response.new
    {| msg_id := "req-1"; msg_type := MResponse; msg_method := None; msg_url := None;
       msg_headers := None; msg_body := JUndefined; msg_status := Some 204;
       msg_error := None; msg_stack := None; msg_instanceId := None;
       msg_timestamp := 0 |} "/x"
  = Some no_content.
Proof. reflexivity. Qed.

Lemma empty_body_json_rejects_text_empty_witness :
  Response._body no_content = JUndefined ∧
  @Response.json JsonRef.runtime no_content = (Rejected "Response body is empty", no_content) ∧
  @Response.text JsonRef.runtime no_content = (Fulfilled (JStr ""), no_content).
Proof.
  assert (H1 : Response._body no_content = JUndefined) by reflexivity.
  split; [exact H1|].
  destruct (@empty_body_json_rejects_text_empty JsonRef.runtime no_content (or_introl H1))
    as (Hjson & Htext & _).
  split; [exact Hjson|exact Htext].
Defined.

(** *** Filtering by instance id *)

(** C8, amended. An envelope whose [instanceId] is a non-empty string other
    than the client's own makes the handler return without a call to the
    Correlation Manager: the world, with the pending table and the queue of
    closures that settle the callers' promises, is as before. *)
Theorem foreign_instanceId_ignored this c message w :
  clients w !! this = Some c →
  truthy (msg_instanceId message) = true →
  msg_instanceId message ≠ Some (_instanceId c) →
  _handleMessage_call this message w = None ∧
  _handleMessage this message w = w ∧
  _messageHandler this message w = w.
Proof.
  intros Hc Ht Hne.
  assert (Hcall : _handleMessage_call this message w = None).
  { unfold _handleMessage_call. rewrite Hc, Ht.
    rewrite bool_decide_eq_false_2 by done. by destruct (_disposed c). }
  assert (Hh : _handleMessage this message w = w).
  { unfold _handleMessage. by rewrite Hcall. }
  repeat split; [done..|].
  unfold _messageHandler. by destruct (isDisposed this w).
Qed.

(** A page with one client, of instance id "A", whose manager tracks the
    request "req-1" as after a [fetch]. *)
Definition one_client : World :=
  on_manager 0%nat (Correlation.addPendingRequest 0%nat "req-1" 1%nat 2%nat None)
    (new true (Some (Options (Some "A") None)) "k3x9" empty_page).2.

Definition tracked (this : nat) (w : World) : list string :=
  match clients w !! this with
  | Some c => (Correlation.pendingRequests (_correlationManager c)).*1
  | None => []
  end.

Example empty_instanceId_on_primary :
  let message := CorrelationFacts.response_200 "req-1" (Some "") in
  getInstanceId 0%nat one_client = Some "A" ∧
  msg_instanceId message = Some "" ∧
  _handleMessage_call 0%nat message one_client = Some (ResolveRequest "req-1" message) ∧
  tracked 0%nat one_client = ["req-1"] ∧
  tracked 0%nat (_handleMessage 0%nat message one_client) = [] ∧
  Correlation.ticks (env (_handleMessage 0%nat message one_client)) =
    [Correlation.TCall 1%nat message].
Proof. repeat split; vm_compute; reflexivity. Qed.

(** C8 as it is stated: an envelope that carries an [instanceId] other than
    the client's own makes the handler return without a call to the
    Correlation Manager, and the pending table stays as it is. *)
Definition client_ignores_foreign_instanceId : Prop :=
  ∀ this c message instanceId w,
    clients w !! this = Some c →
    msg_instanceId message = Some instanceId →
    instanceId ≠ _instanceId c →
    _handleMessage_call this message w = None ∧
    tracked this (_handleMessage this message w) = tracked this w.

(** C8 fails as stated: an envelope whose [instanceId] is the empty string
    carries one that differs from the client's, yet the primary client
    passes it to its Correlation Manager, which settles the request. *)
Lemma empty_instanceId_is_forwarded : ¬ client_ignores_foreign_instanceId.
Proof.
  intros Hclaim.
  destruct (Hclaim 0%nat _ (CorrelationFacts.response_200 "req-1" (Some "")) ""
              one_client eq_refl eq_refl) as [Hcall _]; [discriminate|].
  destruct empty_instanceId_on_primary as (_ & _ & Hforward & _).
  cbn zeta in Hforward. congruence.
Qed.

Lemma foreign_instanceId_ignored_witness :
  let message := CorrelationFacts.response_200 "req-1" (Some "B") in
  clients one_client !! 0%nat ≠ None ∧
  truthy (msg_instanceId message) = true ∧
  msg_instanceId message ≠ getInstanceId 0%nat one_client ∧
  _handleMessage_call 0%nat message one_client = None ∧
  _handleMessage 0%nat message one_client = one_client.
Proof.
  cbn zeta.
  assert (H2 : truthy (msg_instanceId (CorrelationFacts.response_200 "req-1" (Some "B")))
               = true) by reflexivity.
  split; [discriminate|]. split; [exact H2|]. split; [discriminate|].
  destruct (foreign_instanceId_ignored 0%nat _
              (CorrelationFacts.response_200 "req-1" (Some "B")) one_client eq_refl H2)
    as (Hcall & Hsame & _); [discriminate|].
  split; [exact Hcall|exact Hsame].
Defined.

(** *** The primary client *)

(** The client exists and is not disposed. *)
Definition alive (client : nat) (w : World) : bool :=
  match clients w !! client with
  | Some c => negb (_disposed c)
  | None => false
  end.

(** The registry holds exactly the clients that are not disposed, and the
    primary client is one of them whenever there is any. *)
Record registry_ok (w : World) : Prop := {
  registry_alive : ∀ client, client ∈ globalClientRegistry w ↔ alive client w = true;
  primary_registered :
    match primaryClient w with
    | Some p => p ∈ globalClientRegistry w
    | None => globalClientRegistry w = []
    end;
}.

Lemma alive_skeleton w w' client :
  same_skeleton w w' → alive client w' = alive client w.
Proof.
  intros (_ & _ & _ & Hflags). unfold alive.
  apply (f_equal (λ l, l !! client)) in Hflags.
  rewrite !list_lookup_fmap in Hflags.
  destruct (clients w' !! client), (clients w !! client); cbn in Hflags; congruence.
Qed.

Lemma registry_ok_skeleton w w' :
  same_skeleton w w' → registry_ok w → registry_ok w'.
Proof.
  intros Hsk [Ha Hp]. pose proof Hsk as (Hr & Hpr & _ & _).
  split.
  - intros client. rewrite Hr, (alive_skeleton w w') by done. apply Ha.
  - by rewrite Hpr, Hr.
Qed.

Lemma same_skeleton_refl w : same_skeleton w w.
Proof. by repeat split. Qed.

Lemma same_skeleton_trans w1 w2 w3 :
  same_skeleton w1 w2 → same_skeleton w2 w3 → same_skeleton w1 w3.
Proof.
  intros (H1 & H2 & H3 & H4) (H1' & H2' & H3' & H4').
  repeat split; congruence.
Qed.

Lemma on_manager_skeleton this f w : same_skeleton w (on_manager this f w).
Proof.
  unfold on_manager. destruct (clients w !! this) as [c|] eqn:Hc;
    [|apply same_skeleton_refl].
  destruct (f _) as [m e]. repeat split; cbn.
  rewrite list_fmap_insert. cbn. apply list_insert_id.
  by rewrite list_lookup_fmap, Hc.
Qed.

Lemma handleMessage_skeleton this message w :
  same_skeleton w (_handleMessage this message w).
Proof.
  unfold _handleMessage.
  destruct (_handleMessage_call this message w) as [[id r|id r]|];
    [apply on_manager_skeleton..|apply same_skeleton_refl].
Qed.

Lemma receive_skeleton message w : same_skeleton w (receive message w).
Proof.
  unfold receive. generalize (message_listeners w). intros ls. revert w.
  induction ls as [|client ls IH]; intros w; cbn; [apply same_skeleton_refl|].
  eapply same_skeleton_trans; [|apply IH].
  unfold _messageHandler. destruct (isDisposed client w);
    [apply same_skeleton_refl|apply handleMessage_skeleton].
Qed.

Lemma alive_lt client w : alive client w = true → (client < length (clients w))%nat.
Proof.
  unfold alive. destruct (clients w !! client) eqn:Hc; [|done].
  intros _. by eapply lookup_lt_Some.
Qed.

Lemma registry_ok_new api optionsOrBaseUrl generated w :
  registry_ok w → registry_ok (new api optionsOrBaseUrl generated w).2.
Proof.
  intros [Ha Hp]. unfold new. destruct api; [|done]. cbn [negb].
  destruct (match optionsOrBaseUrl with
            | Some (BaseUrl baseUrl) => (None, Some baseUrl)
            | Some (Options instanceId baseUrl) => (instanceId, baseUrl)
            | None => (None, None)
            end) as [instanceId baseUrl]. cbn [snd].
  assert (Hfresh : length (clients w) ∉ globalClientRegistry w).
  { intros Hin%Ha%alive_lt. lia. }
  rewrite bool_decide_eq_false_2 by done.
  split; cbn.
  - intros client. unfold alive. cbn. rewrite elem_of_app, list_elem_of_singleton.
    destruct (decide (client = length (clients w))) as [->|Hne].
    + rewrite lookup_app_r, Nat.sub_diag by lia. cbn. tauto.
    + rewrite Ha. unfold alive.
      destruct (decide (client < length (clients w))%nat) as [Hlt|Hge].
      * rewrite lookup_app_l by done. tauto.
      * rewrite (lookup_ge_None_2 (clients w)) by lia.
        rewrite (lookup_ge_None_2 (_ ++ _)) by (rewrite length_app; cbn; lia).
        split; [intros [?|?]|]; done.
  - destruct (primaryClient w) as [p|]; [|apply elem_of_app; right; by left].
    destruct (isDisposed p w); apply elem_of_app; [right; by left|by left].
Qed.

Lemma alive_update_client this f client w :
  (∀ c, _disposed (f c) = _disposed c) →
  alive client (update_client this f w) = alive client w.
Proof.
  intros Hf. unfold alive, update_client. cbn.
  destruct (decide (client = this)) as [->|Hne].
  - rewrite list_lookup_alter_eq. destruct (clients w !! this); cbn; [|done].
    by rewrite Hf.
  - by rewrite list_lookup_alter_ne.
Qed.

Lemma filter_all {A} (P : A → Prop) `{∀ x, Decision (P x)} (l : list A) :
  (∀ x, x ∈ l → P x) → filter P l = l.
Proof.
  induction l as [|x l IH]; intros Hall; [done|].
  rewrite filter_cons_True by (apply Hall; by left).
  f_equal. apply IH. intros y Hy. apply Hall. by right.
Qed.

Lemma update_client_skeleton this f w :
  (∀ c, _disposed (f c) = _disposed c ∧ _instanceId (f c) = _instanceId c) →
  same_skeleton w (update_client this f w).
Proof.
  intros Hf. repeat split; cbn. apply list_eq. intros i.
  rewrite !list_lookup_fmap.
  destruct (decide (i = this)) as [->|Hne];
    [rewrite list_lookup_alter_eq|by rewrite list_lookup_alter_ne].
  destruct (clients w !! this) as [c|]; cbn; [|done].
  by destruct (Hf c) as [-> ->].
Qed.

Lemma registry_ok_dispose this w : registry_ok w → registry_ok (dispose this w).
Proof.
  intros [Ha Hp]. unfold dispose.
  destruct (clients w !! this) as [c|] eqn:Hc; [|done].
  destruct (_disposed c) eqn:Hd; [done|].
  match goal with |- registry_ok (update_client this ?f (on_manager this ?g ?w4)) =>
    set (wlast := w4);
    apply (registry_ok_skeleton wlast);
      [eapply same_skeleton_trans; [apply on_manager_skeleton|]|]
  end.
  { by apply update_client_skeleton. }
  set (w1 := update_client this _ w) in *.
  assert (Halive1 : ∀ client, alive client w1 = alive client w && negb (bool_decide (client = this))).
  { intros client. unfold alive, w1. cbn.
    destruct (decide (client = this)) as [->|Hne].
    - rewrite list_lookup_alter_eq, Hc, bool_decide_eq_true_2 by done. cbn.
      by rewrite andb_false_r.
    - rewrite list_lookup_alter_ne, bool_decide_eq_false_2 by done.
      by rewrite andb_true_r. }
  assert (Hreg : ∀ client,
            client ∈ filter (λ client, client ≠ this) (globalClientRegistry w)
            ↔ alive client w1 = true).
  { intros client. rewrite list_elem_of_filter, Ha, Halive1, andb_true_iff,
      negb_true_iff, bool_decide_eq_false. tauto. }
  assert (Hall : filter (λ client, isDisposed client
                     (with_registry (filter (λ client, client ≠ this)) w1) = false)
                   (filter (λ client, client ≠ this) (globalClientRegistry w))
                 = filter (λ client, client ≠ this) (globalClientRegistry w)).
  { apply filter_all. intros client Hin%Hreg. revert Hin.
    unfold alive, isDisposed. cbn. destruct (alter _ this (clients w) !! client); [|done].
    by intros ->%negb_true_iff. }
  split.
  - intros client. unfold wlast. cbn [globalClientRegistry with_listeners].
    destruct (bool_decide _); cbn; rewrite Hreg; unfold alive; done.
  - unfold wlast. cbn [primaryClient globalClientRegistry with_listeners with_registry w1
      update_client].
    destruct (bool_decide (primaryClient w = Some this)) eqn:Hprim; cbn.
    + unfold next_primary. cbn [globalClientRegistry with_registry].
      change (globalClientRegistry w1) with (globalClientRegistry w). rewrite Hall.
      destruct (filter _ (globalClientRegistry w)) as [|p rest]; cbn; [done|].
      by left.
    + apply bool_decide_eq_false in Hprim.
      destruct (primaryClient w) as [p|]; [|by rewrite Hp].
      apply list_elem_of_filter. split; [congruence|done].
Qed.

Lemma reachable_registry_ok w : reachable w → registry_ok w.
Proof.
  induction 1 as [|api o g w _ IH|this w _ IH|message w _ IH|w w' _ IH Hsk].
  - split; cbn; [|done]. intros client. unfold alive. cbn.
    split; [by intros ?%elem_of_nil|done].
  - by apply registry_ok_new.
  - by apply registry_ok_dispose.
  - by apply (registry_ok_skeleton w), IH; [apply receive_skeleton].
  - by apply (registry_ok_skeleton w).
Qed.

(** C9. A Response or Error envelope that carries no [instanceId] is
    ignored by a client that is not the primary client whenever a primary
    client exists that is not disposed: its handler leaves the page as it
    is.  On every page that can come about, a client whose handler calls its
    Correlation Manager for such an envelope, or changes anything, is the
    primary client.  And the handler of the primary client, not being
    disposed, does pass the envelope on: it runs [resolveRequest] (for a
    Response) or [rejectRequest] (for an Error) of its Correlation Manager
    with the id of the envelope, so that a request tracked under that id
    leaves the table and its callback is queued with the envelope. *)
Theorem untagged_goes_to_primary this c message w :
  clients w !! this = Some c →
  msg_instanceId message = None →
  isResponseMessage message = true ∨ isErrorMessage message = true →
  (∀ p, primaryClient w = Some p → p ≠ this → isDisposed p w = false →
        _handleMessage_call this message w = None ∧
        _handleMessage this message w = w) ∧
  (reachable w →
   _handleMessage_call this message w ≠ None ∨ _handleMessage this message w ≠ w →
   primaryClient w = Some this) ∧
  (primaryClient w = Some this → _disposed c = false →
   _handleMessage_call this message w =
     Some (if isResponseMessage message
           then ResolveRequest (msg_id message) message
           else RejectRequest (msg_id message) message) ∧
   _handleMessage this message w =
     on_manager this
       (λ st, if isResponseMessage message
              then (Correlation.resolveRequest (msg_id message) message st).2
              else (Correlation.rejectRequest (msg_id message) message st).2) w ∧
   ∀ r,
     Correlation.disposed (_correlationManager c) = false →
     JsMap.get (msg_id message) (Correlation.pendingRequests (_correlationManager c))
       = Some r →
     (∃ c', clients (_handleMessage this message w) !! this = Some c' ∧
            JsMap.get (msg_id message)
              (Correlation.pendingRequests (_correlationManager c')) = None) ∧
     Correlation.ticks (env (_handleMessage this message w)) =
       Correlation.ticks (env w)
       ++ [Correlation.TCall
             (if isResponseMessage message then Correlation.pr_resolve r
              else Correlation.pr_reject r) message]).
Proof.
  intros Hc Hnone Hkind.
  assert (Hquiet : _handleMessage_call this message w = None →
                   _handleMessage this message w = w).
  { intros Hcall. unfold _handleMessage. by rewrite Hcall. }
  split; [|split].
  - intros p Hprim Hne Hlive.
    assert (Hcall : _handleMessage_call this message w = None).
    { unfold _handleMessage_call. rewrite Hc, Hnone. cbn.
      unfold yields_to_primary. rewrite Hprim, Hlive.
      rewrite bool_decide_eq_false_2 by done. cbn. by destruct (_disposed c). }
    split; [done|]. by apply Hquiet.
  - intros [Ha Hp]%reachable_registry_ok Hacts.
    assert (Hcall : _handleMessage_call this message w ≠ None).
    { destruct Hacts as [Hcall|Hmoved]; [done|]. intros Hcall. by apply Hmoved, Hquiet. }
    unfold _handleMessage_call in Hcall. rewrite Hc, Hnone in Hcall. cbn in Hcall.
    destruct (_disposed c) eqn:Hd; [done|].
    assert (Hin : this ∈ globalClientRegistry w).
    { apply Ha. unfold alive. by rewrite Hc, Hd. }
    unfold yields_to_primary in Hcall.
    destruct (primaryClient w) as [p|]; [|rewrite Hp in Hin; by apply elem_of_nil in Hin].
    apply Ha in Hp. unfold alive in Hp. unfold isDisposed in Hcall.
    destruct (clients w !! p) as [cp|]; [|done].
    apply negb_true_iff in Hp. rewrite Hp in Hcall.
    destruct (decide (p = this)) as [->|Hne]; [done|].
    by rewrite bool_decide_eq_false_2 in Hcall.
  - intros Hprim Hd.
    assert (Hcall : _handleMessage_call this message w =
                      Some (if isResponseMessage message
                            then ResolveRequest (msg_id message) message
                            else RejectRequest (msg_id message) message)).
    { unfold _handleMessage_call. rewrite Hc, Hnone, Hd. cbn.
      unfold yields_to_primary. rewrite Hprim, bool_decide_eq_true_2 by done. cbn.
      destruct Hkind as [-> | Herr]; [done|]. rewrite Herr.
      by destruct (isResponseMessage message). }
    assert (Hforward :
      _handleMessage this message w =
        on_manager this
          (λ st, if isResponseMessage message
                 then (Correlation.resolveRequest (msg_id message) message st).2
                 else (Correlation.rejectRequest (msg_id message) message st).2) w).
    { unfold _handleMessage. rewrite Hcall.
      by destruct (isResponseMessage message). }
    split; [done|]. split; [done|].
    intros r Hm Hr. rewrite Hforward. unfold on_manager. rewrite Hc.
    assert (Hlen : (this < length (clients w))%nat) by by eapply lookup_lt_Some.
    destruct (CorrelationFacts.untimed_frame r (env w)) as (Hticks & _).
    destruct (isResponseMessage message).
    + rewrite (CorrelationFacts.resolveRequest_tracked _ _ r) by done.
      cbn [snd clients env Correlation.ticks Correlation.nextTick].
      rewrite list_lookup_insert_eq by done. rewrite Hticks.
      split; [|done]. eexists. split; [done|].
      cbn. apply JsMapFacts.get_delete_eq.
    + rewrite (CorrelationFacts.rejectRequest_tracked _ _ r) by done.
      cbn [snd clients env Correlation.ticks Correlation.nextTick].
      rewrite list_lookup_insert_eq by done. rewrite Hticks.
      split; [|done]. eexists. split; [done|].
      cbn. apply JsMapFacts.get_delete_eq.
Qed.

(** A page with two clients, "A" created first, then "B". *)
Definition two_clients : World :=
  (new true (Some (Options (Some "B") None)) "p7q2"
     (new true (Some (Options (Some "A") None)) "k3x9" empty_page).2).2.

(** The same page once client "A" has a request in flight. *)
Definition two_clients_waiting : World :=
  on_manager 0%nat (Correlation.addPendingRequest 0%nat "req-1" 1%nat 2%nat None)
    two_clients.

Lemma untagged_goes_to_primary_witness :
  let message := CorrelationFacts.response_200 "req-1" None in
  let w := two_clients_waiting in
  clients w !! 1%nat ≠ None ∧
  msg_instanceId message = None ∧
  isResponseMessage message = true ∧
  primaryClient w = Some 0%nat ∧
  isDisposed 0%nat w = false ∧
  reachable w ∧
  tracked 0%nat w = ["req-1"] ∧
  _handleMessage 1%nat message w = w ∧
  _handleMessage_call 0%nat message w = Some (ResolveRequest "req-1" message) ∧
  (∃ c', clients (_handleMessage 0%nat message w) !! 0%nat = Some c' ∧
         JsMap.get "req-1" (Correlation.pendingRequests (_correlationManager c')) = None) ∧
  Correlation.ticks (env (_handleMessage 0%nat message w)) =
    [Correlation.TCall 1%nat message].
Proof.
  cbn zeta.
  assert (H3 : isResponseMessage (CorrelationFacts.response_200 "req-1" None) = true)
    by reflexivity.
  assert (H4 : primaryClient two_clients_waiting = Some 0%nat) by reflexivity.
  assert (H5 : isDisposed 0%nat two_clients_waiting = false) by reflexivity.
  assert (H6 : reachable two_clients_waiting).
  { apply (reach_activity two_clients); [|apply on_manager_skeleton].
    apply reach_new, reach_new, reach_empty. }
  split; [discriminate|]. split; [reflexivity|]. split; [exact H3|].
  split; [exact H4|]. split; [exact H5|]. split; [exact H6|].
  split; [reflexivity|]. split.
  - destruct (untagged_goes_to_primary 1%nat _ (CorrelationFacts.response_200 "req-1" None)
                two_clients_waiting eq_refl eq_refl (or_introl H3)) as (Hyield & _ & _).
    apply (Hyield 0%nat H4); [discriminate|exact H5].
  - destruct (untagged_goes_to_primary 0%nat _ (CorrelationFacts.response_200 "req-1" None)
                two_clients_waiting eq_refl eq_refl (or_introl H3)) as (_ & _ & Hfwd).
    destruct (Hfwd H4 eq_refl) as (Hcall & _ & Heffect).
    split; [exact Hcall|]. exact (Heffect _ eq_refl eq_refl).
Defined.

End ClientFacts.

(** * Further properties *)

Module JsMapMore.
Import JsMap JsMapFacts.
Section JsMapMore.
Context {V : Type}.
Implicit Types (m : list (string * V)) (k : string) (v : V).

Lemma delete_filter k m : delete k m = filter (λ entry, entry.1 ≠ k) m.
Proof.
  induction m as [|[k' v'] rest IH]; [done|]. cbn [delete].
  destruct (String.eqb k k') eqn:E.
  - apply String.eqb_eq in E. subst k'.
    rewrite filter_cons_False by (cbn; intros Hne; by apply Hne). done.
  - apply String.eqb_neq in E.
    rewrite filter_cons_True by (cbn; congruence). by rewrite IH.
Qed.

Lemma get_None_keys k m : get k m = None ↔ k ∉ m.*1.
Proof.
  induction m as [|[k' v'] rest IH]; cbn.
  - split; [intros _ Hin; by apply elem_of_nil in Hin|done].
  - rewrite not_elem_of_cons, <- IH. destruct (String.eqb k k') eqn:E.
    + apply String.eqb_eq in E. split; [done|]. by intros [? _].
    + apply String.eqb_neq in E. tauto.
Qed.

Lemma get_Some_elem k v m : get k m = Some v → (k, v) ∈ m.
Proof.
  induction m as [|[k' v'] rest IH]; cbn; [done|].
  destruct (String.eqb k k') eqn:E.
  - apply String.eqb_eq in E. intros [= ->]. subst. by left.
  - intros H. right. by apply IH.
Qed.

Lemma elem_get k v m : NoDup m.*1 → (k, v) ∈ m → get k m = Some v.
Proof.
  induction m as [|[k' v'] rest IH]; cbn; intros Hnd Hin.
  - by apply elem_of_nil in Hin.
  - apply NoDup_cons in Hnd as [Hnotin Hnd].
    apply elem_of_cons in Hin as [[= <- <-]|Hin].
    + by rewrite String.eqb_refl.
    + destruct (String.eqb k k') eqn:E; [|by apply IH].
      apply String.eqb_eq in E. subst k'. exfalso. apply Hnotin.
      apply list_elem_of_fmap. by exists (k, v).
Qed.

Lemma keys_set k v m :
  (set k v m).*1 = match get k m with Some _ => m.*1 | None => m.*1 ++ [k] end.
Proof.
  induction m as [|[k' v'] rest IH]; cbn; [done|].
  destruct (String.eqb k k') eqn:E; cbn; [done|].
  rewrite IH. by destruct (get k rest).
Qed.

Lemma NoDup_set k v m : NoDup m.*1 → NoDup (set k v m).*1.
Proof.
  intros Hnd. rewrite keys_set. destruct (get k m) eqn:Eg; [done|].
  apply NoDup_app. split_and!; [done| |apply NoDup_singleton].
  intros x Hx ->%list_elem_of_singleton. by apply get_None_keys in Eg.
Qed.

Lemma NoDup_delete k m : NoDup m.*1 → NoDup (delete k m).*1.
Proof.
  rewrite delete_filter. intros Hnd.
  induction m as [|[k' v'] rest IH]; [done|].
  cbn in Hnd. apply NoDup_cons in Hnd as [Hnotin Hnd].
  destruct (decide (k' = k)) as [->|Hne].
  - rewrite filter_cons_False by (cbn; intros H; by apply H). by apply IH.
  - rewrite filter_cons_True by done. cbn. apply NoDup_cons. split; [|by apply IH].
    intros Hin. apply Hnotin. apply list_elem_of_fmap in Hin as ([k0 v0] & -> & Hin).
    apply list_elem_of_filter in Hin as [_ Hin].
    apply list_elem_of_fmap. by exists (k0, v0).
Qed.

Lemma length_set k v m :
  length (set k v m) = match get k m with Some _ => length m | None => S (length m) end.
Proof.
  rewrite <- (length_fmap fst (set k v m)), keys_set.
  destruct (get k m); rewrite ?length_app, length_fmap; cbn; lia.
Qed.

Lemma length_delete k v m :
  NoDup m.*1 → get k m = Some v → S (length (delete k m)) = length m.
Proof.
  induction m as [|[k' v'] rest IH]; cbn; [done|]. intros Hnd Hg.
  apply NoDup_cons in Hnd as [Hnotin Hnd].
  destruct (String.eqb k k') eqn:E.
  - apply String.eqb_eq in E. subst k'. f_equal.
    rewrite delete_absent; [done|]. by apply get_None_keys.
  - cbn. f_equal. by apply IH.
Qed.

End JsMapMore.
End JsMapMore.

Module CorrelationMore.
Import Js Protocol Correlation JsMapFacts JsMapMore CorrelationFacts.

Implicit Types (m : CorrelationManager) (e : Env) (st : State) (id : string).

#[local] Arguments runTicks : simpl never.

(** *** The ids of the pending table are distinct *)

Definition distinct_ids (st : State) : Prop := NoDup (pendingRequests st.1).*1.

Lemma distinct_rejectRequest id error st :
  distinct_ids st → distinct_ids (rejectRequest id error st).2.
Proof.
  destruct st as [m e]. unfold distinct_ids, rejectRequest. cbn [fst snd].
  destruct (disposed m); [done|].
  destruct (JsMap.get id (pendingRequests m)) as [r|] eqn:Eg; [|done].
  rewrite (clearRequest_tracked id r) by done. cbn. apply NoDup_delete.
Qed.

Lemma distinct_resolveRequest id response st :
  distinct_ids st → distinct_ids (resolveRequest id response st).2.
Proof.
  destruct st as [m e]. unfold distinct_ids, resolveRequest. cbn [fst snd].
  destruct (disposed m); [done|].
  destruct (JsMap.get id (pendingRequests m)) as [r|] eqn:Eg; [|done].
  rewrite (clearRequest_tracked id r) by done. cbn. apply NoDup_delete.
Qed.

Lemma distinct_expire_turns now0 (ids : list string) : ∀ acc,
  distinct_ids acc.2 → distinct_ids (foldl (expire_turn now0) acc ids).2.
Proof.
  induction ids as [|id ids IH]; intros [n st] Hd; cbn; [done|].
  apply IH. unfold expire_turn.
  destruct (rejectRequest id _ st) as [b st1] eqn:E. cbn.
  change st1 with (b, st1).2. rewrite <- E. by apply distinct_rejectRequest.
Qed.

Lemma distinct_step this st op : distinct_ids st → distinct_ids (step this st op).
Proof.
  destruct st as [m e]. intros Hd. destruct op; unfold step; cbn [fst snd].
  - unfold addPendingRequest. destruct (disposed m); [done|].
    destruct (0 <? default (defaultTimeout m) timeout); by apply NoDup_set.
  - by apply distinct_resolveRequest.
  - by apply distinct_rejectRequest.
  - unfold clearAllRequests. destruct (disposed m); [done|]. apply NoDup_nil_2.
  - unfold cleanupExpiredRequests. destruct (disposed m); [done|].
    by apply (distinct_expire_turns (now e) _ (0%nat, (m, e))).
  - unfold fireTimer. destruct (timers e !! h) as [t|]; [|done].
    destruct (bool_decide (t_owner t = this) && (t_due t <=? now e)); [|done].
    by apply distinct_rejectRequest.
  - done.
  - done.
Qed.

Lemma reachable_distinct this st : reachable this st → distinct_ids st.
Proof.
  intros (timeout & ops & ->).
  assert (Hinit : distinct_ids (init timeout)) by apply NoDup_nil_2.
  revert Hinit. generalize (init timeout).
  induction ops as [|op ops IH]; intros st Hd; [done|].
  cbn. by apply IH, distinct_step.
Qed.

(** X1. The manager keeps these invariants through every use: a disposed
    manager tracks nothing; the ids of the pending table are distinct; the
    handle a pending request carries is that of a live timer, armed for the
    request's id; and no two pending requests share a timer. *)
Theorem manager_invariants this st :
  reachable this st →
  (disposed st.1 = true → pendingRequests st.1 = []) ∧
  NoDup (pendingRequests st.1).*1 ∧
  (∀ id r h,
     JsMap.get id (pendingRequests st.1) = Some r → pr_timeout r = Some h →
     ∃ t, timers st.2 !! h = Some t ∧ t_id t = id ∧ t_owner t = this ∧
          (h < next_timer st.2)%nat) ∧
  (∀ id1 id2 r1 r2 h,
     JsMap.get id1 (pendingRequests st.1) = Some r1 →
     JsMap.get id2 (pendingRequests st.1) = Some r2 →
     pr_timeout r1 = Some h → pr_timeout r2 = Some h → id1 = id2).
Proof.
  intros Hreach. pose proof (reachable_wf _ _ Hreach) as [Hd Hs Hf Ha].
  split_and!.
  - done.
  - by apply (reachable_distinct this).
  - intros id r h Hg Hto. destruct (Ha id r h Hg Hto) as (t & Hl & Hid & Ho).
    exists t. split_and!; [done..|]. by eapply Hf.
  - intros id1 id2 r1 r2 h Hg1 Hg2 Hto1 Hto2.
    destruct (Ha id1 r1 h Hg1 Hto1) as (t1 & Hl1 & Hid1 & _).
    destruct (Ha id2 r2 h Hg2 Hto2) as (t2 & Hl2 & Hid2 & _).
    congruence.
Qed.

Lemma manager_invariants_witness :
  reachable 0%nat two_pending ∧
  NoDup (pendingRequests two_pending.1).*1 ∧
  (pendingRequests two_pending.1).*1 = ["req-1"; "req-2"].
Proof.
  assert (H1 : reachable 0%nat two_pending).
  { by exists None, [OAdd "req-1" 1%nat 2%nat None; OAdd "req-2" 3%nat 4%nat (Some 0)]. }
  split; [exact H1|]. split; [|reflexivity].
  exact (proj1 (proj2 (manager_invariants 0%nat two_pending H1))).
Defined.

(** *** Counting *)

(** X2. [getPendingCount] on a manager in use that is not disposed: registering
    an id that is not tracked raises the count by one, registering a tracked
    id again leaves it as it is, and settling a tracked id lowers it by one;
    settling an unknown id leaves it as it is. *)
Theorem pending_count_moves this st :
  reachable this st →
  disposed st.1 = false →
  (∀ id resolve reject timeout,
     getPendingCount (addPendingRequest this id resolve reject timeout st).1 =
       match JsMap.get id (pendingRequests st.1) with
       | Some _ => getPendingCount st.1
       | None => S (getPendingCount st.1)
       end) ∧
  (∀ id message,
     getPendingCount (resolveRequest id message st).2.1 =
       match JsMap.get id (pendingRequests st.1) with
       | Some _ => Nat.pred (getPendingCount st.1)
       | None => getPendingCount st.1
       end ∧
     getPendingCount (rejectRequest id message st).2.1 =
       getPendingCount (resolveRequest id message st).2.1).
Proof.
  intros Hnd%reachable_distinct Hd. destruct st as [m e].
  unfold distinct_ids in Hnd. cbn [fst snd] in *. split.
  - intros id resolve reject timeout. unfold addPendingRequest, getPendingCount.
    rewrite Hd. destruct (0 <? default (defaultTimeout m) timeout); cbn; rewrite Hd;
      apply length_set.
  - intros id message.
    destruct (JsMap.get id (pendingRequests m)) as [r|] eqn:Eg.
    + rewrite (resolveRequest_tracked id message r), (rejectRequest_tracked id message r)
        by done.
      unfold getPendingCount. cbn. rewrite Hd.
      by rewrite <- (length_delete id r (pendingRequests m)).
    + by rewrite resolveRequest_untracked, rejectRequest_untracked.
Qed.

Lemma pending_count_moves_witness :
  reachable 0%nat two_pending ∧
  disposed two_pending.1 = false ∧
  getPendingCount two_pending.1 = 2%nat ∧
  getPendingCount (addPendingRequest 0%nat "req-2" 5%nat 6%nat None two_pending).1 = 2%nat ∧
  getPendingCount (addPendingRequest 0%nat "req-3" 5%nat 6%nat None two_pending).1 = 3%nat ∧
  getPendingCount (resolveRequest "req-1" (response_200 "req-1" None) two_pending).2.1
    = 1%nat.
Proof.
  assert (H1 : reachable 0%nat two_pending).
  { by exists None, [OAdd "req-1" 1%nat 2%nat None; OAdd "req-2" 3%nat 4%nat (Some 0)]. }
  assert (H2 : disposed two_pending.1 = false) by reflexivity.
  destruct (pending_count_moves 0%nat two_pending H1 H2) as [Hadd Hsettle].
  split; [exact H1|]. split; [exact H2|]. split; [reflexivity|].
  split; [exact (Hadd "req-2" 5%nat 6%nat None)|].
  split; [exact (Hadd "req-3" 5%nat 6%nat None)|].
  exact (proj1 (Hsettle "req-1" (response_200 "req-1" None))).
Defined.

(** *** After disposal *)

(** X3. Once [clearAllRequests] has run, the manager does nothing any more:
    [addPendingRequest] tracks nothing and arms no timer, and calls the
    reject callback at once, with an error of status 503; [resolveRequest]
    and [rejectRequest] return false; [cleanupExpiredRequests] returns 0;
    the pending count is 0; none of them changes the manager or the event
    loop otherwise. *)
Theorem disposed_manager_is_inert this st :
  let st' := clearAllRequests st in
  (∀ id resolve reject timeout,
     let st'' := addPendingRequest this id resolve reject timeout st' in
     st''.1 = st'.1 ∧ timers st''.2 = timers st'.2 ∧ ticks st''.2 = ticks st'.2 ∧
     calls st''.2 =
       calls st'.2
       ++ [{| inv_cb := reject;
              inv_arg := error_literal id "Correlation manager has been disposed" 503
                           (now st'.2) |}]) ∧
  (∀ id message,
     resolveRequest id message st' = (false, st') ∧
     rejectRequest id message st' = (false, st')) ∧
  (∀ maxAge, cleanupExpiredRequests maxAge st' = (0%nat, st')) ∧
  getPendingCount st'.1 = 0%nat ∧
  clearAllRequests st' = st'.
Proof.
  cbn zeta.
  assert (Hd : disposed (clearAllRequests st).1 = true).
  { destruct st as [m e]. unfold clearAllRequests.
    by destruct (disposed m) eqn:Ed. }
  destruct (clearAllRequests st) as [m' e']. cbn [fst snd] in *.
  unfold addPendingRequest, resolveRequest, rejectRequest, cleanupExpiredRequests,
    getPendingCount, clearAllRequests.
  by rewrite Hd.
Qed.

(** *** Registering an id twice *)

Lemma fireTimer_due this h t m e :
  timers e !! h = Some t → t_owner t = this → t_due t ≤ now e →
  fireTimer this h (m, e) =
    (rejectRequest (t_id t) (error_literal (t_id t) "Request timeout" 408 (now e))
       (m, with_timers (base.delete h) e)).2.
Proof.
  intros Hl Ho Hdue. unfold fireTimer. rewrite Hl.
  rewrite bool_decide_eq_true_2 by done. apply Z.leb_le in Hdue. by rewrite Hdue.
Qed.

(** X4. Registering an id that is already pending replaces the entry but leaves
    the timer of the first registration armed; when that timer fires it is
    the second registration that is rejected with 'Request timeout', and
    its own timer is cancelled.  The callbacks of the first registration
    are in no entry and in no queued closure. *)
Theorem reregistration_keeps_old_timer this st id r0 h0 resolve reject timeout :
  reachable this st →
  JsMap.get id (pendingRequests st.1) = Some r0 →
  pr_timeout r0 = Some h0 →
  0 < default (defaultTimeout st.1) timeout →
  let st1 := addPendingRequest this id resolve reject timeout st in
  let h1 := next_timer st.2 in
  JsMap.get id (pendingRequests st1.1) =
    Some {| pr_id := id; pr_timestamp := now st.2; pr_resolve := resolve;
            pr_reject := reject; pr_timeout := Some h1 |} ∧
  h0 ≠ h1 ∧
  ticks st1.2 = ticks st.2 ∧
  ∃ t0, timers st1.2 !! h0 = Some t0 ∧ t_id t0 = id ∧
    (t_due t0 ≤ now st1.2 →
     let st2 := fireTimer this h0 st1 in
     JsMap.get id (pendingRequests st2.1) = None ∧
     timers st2.2 !! h1 = None ∧
     ticks st2.2 =
       ticks st.2 ++ [TCall reject (error_literal id "Request timeout" 408 (now st.2))]).
Proof.
  intros Hwf%reachable_wf Hg Hto HT.
  pose proof (tracked_not_disposed _ _ _ _ Hwf Hg) as Hd.
  destruct (wf_armed _ _ Hwf id r0 h0 Hg Hto) as (t0 & Hl0 & Hid0 & Ho0).
  pose proof (wf_fresh _ _ Hwf h0 t0 Hl0) as Hlt.
  destruct st as [m e]. cbn [fst snd] in *.
  unfold addPendingRequest. rewrite Hd. apply Z.ltb_lt in HT. rewrite HT.
  cbn [setTimeout fst snd timers now ticks].
  split; [apply get_set_eq|]. split; [lia|]. split; [done|].
  exists t0. split; [by rewrite lookup_insert_ne by lia|]. split; [done|].
  intros Hdue.
  erewrite fireTimer_due;
    [| by cbn [timers]; rewrite lookup_insert_ne by lia | done | done].
  rewrite Hid0.
  erewrite rejectRequest_tracked; [|done|apply get_set_eq].
  cbn. split_and!.
  - apply get_delete_eq.
  - apply lookup_delete_eq.
  - done.
Qed.

(** A manager on which "req-1" is pending with a timeout of 50 ms, 50 ms
    later. *)
Definition one_pending_later : State :=
  foldl (step 0%nat) (init None) [OAdd "req-1" 1%nat 2%nat (Some 50); OAdvance 50].

Lemma reregistration_keeps_old_timer_witness :
  reachable 0%nat one_pending_later ∧
  0 < default (defaultTimeout one_pending_later.1) (Some 5000) ∧
  let st1 := addPendingRequest 0%nat "req-1" 3%nat 4%nat (Some 5000) one_pending_later in
  now st1.2 = 50 ∧
  ticks (fireTimer 0%nat 1%nat st1).2 =
    [TCall 4%nat (error_literal "req-1" "Request timeout" 408 50)].
Proof.
  assert (H1 : reachable 0%nat one_pending_later).
  { by exists None, [OAdd "req-1" 1%nat 2%nat (Some 50); OAdvance 50]. }
  assert (H4 : 0 < default (defaultTimeout one_pending_later.1) (Some 5000)) by reflexivity.
  split; [exact H1|]. split; [exact H4|]. cbn zeta. split; [reflexivity|].
  destruct (reregistration_keeps_old_timer 0%nat one_pending_later "req-1" _ 1%nat
              3%nat 4%nat (Some 5000) H1 eq_refl eq_refl H4)
    as (_ & _ & _ & t0 & Hl & _ & Hfire).
  assert (Ht0 : t0 = {| t_owner := 0%nat; t_id := "req-1"; t_due := 50 |}).
  { vm_compute in Hl. congruence. }
  subst t0. exact (proj2 (proj2 (Hfire ltac:(vm_compute; discriminate)))).
Defined.

(** *** The sweep *)

Lemma expired_ids (age now0 : Z) (entries : list (string * PendingRequest)) :
  omap (λ '(id, request),
          if age <? now0 - pr_timestamp request then Some id else None) entries
  = (filter (λ entry, age < now0 - pr_timestamp entry.2) entries).*1.
Proof.
  induction entries as [|[id r] entries IH]; [done|]. cbn [omap list_omap].
  destruct (age <? now0 - pr_timestamp r) eqn:E.
  - apply Z.ltb_lt in E. rewrite filter_cons_True by done. cbn. by rewrite <- IH.
  - apply Z.ltb_ge in E. rewrite filter_cons_False by (cbn; lia). by rewrite <- IH.
Qed.

Lemma timers_untimed_drop r e id :
  timers (untimed r e) = drop_timer (timers e) (id, r).
Proof. unfold untimed, drop_timer. cbn. by destruct (pr_timeout r). Qed.

Lemma expire_turns_spec now0 (old : list (string * PendingRequest)) : ∀ n m e,
  disposed m = false →
  NoDup (pendingRequests m).*1 →
  NoDup old.*1 →
  (∀ entry, entry ∈ old → entry ∈ pendingRequests m) →
  foldl (expire_turn now0) (n, (m, e)) old.*1 =
    ((n + length old)%nat,
     (with_pending (filter (λ entry, entry.1 ∉ old.*1)) m,
      {| timers := foldl drop_timer (timers e) old;
         next_timer := next_timer e;
         ticks := ticks e
                  ++ map (λ entry, TCall (pr_reject entry.2)
                                     (error_literal entry.1 "Request expired" 408 now0))
                       old;
         heap := heap e; calls := calls e; now := now e |})).
Proof.
  induction old as [|[id r] old IH]; intros n m e Hd Hnd Hold Hsub.
  - cbn. rewrite Nat.add_0_r, app_nil_r. f_equal. f_equal.
    + destruct m. unfold with_pending. cbn. f_equal.
      clear. induction pendingRequests0 as [|entry l IHl]; [done|].
      rewrite filter_cons_True by apply not_elem_of_nil. by rewrite <- IHl.
    + by destruct e.
  - cbn [fmap list_fmap foldl fst]. unfold expire_turn at 2.
    assert (Hg : JsMap.get id (pendingRequests m) = Some r).
    { apply elem_get; [done|]. apply Hsub. by left. }
    rewrite (rejectRequest_tracked id _ r m e Hd Hg).
    cbn in Hold. apply NoDup_cons in Hold as [Hnotin Hold].
    rewrite IH; cbn [disposed with_pending pendingRequests]; [|done| | done|].
    + f_equal; [cbn; lia|]. f_equal.
      * unfold with_pending. cbn. f_equal. rewrite delete_filter, list_filter_filter.
        apply list_filter_iff. intros [k v]. cbn. rewrite not_elem_of_cons. tauto.
      * cbn. destruct (untimed_frame r e) as (-> & -> & -> & ->).
        rewrite next_timer_untimed, (timers_untimed_drop r e id), <- app_assoc. done.
    + by apply NoDup_delete.
    + intros [k v] Hin. rewrite delete_filter. apply list_elem_of_filter. split.
      * cbn. intros ->. apply Hnotin. apply list_elem_of_fmap. by exists (id, v).
      * apply Hsub. by right.
Qed.

Lemma filter_ext_in {A} (P Q : A → Prop)
  {decP : ∀ x, Decision (P x)} {decQ : ∀ x, Decision (Q x)} (l : list A) :
  (∀ x, x ∈ l → P x ↔ Q x) → filter P l = filter Q l.
Proof.
  induction l as [|x l IH]; intros Hpq; [done|].
  assert (Hl : filter P l = filter Q l).
  { apply IH. intros y Hy. apply Hpq. by right. }
  destruct (decide (P x)) as [Hp|Hp].
  - rewrite !filter_cons_True; [by rewrite Hl| |done]. apply Hpq; [by left|done].
  - rewrite !filter_cons_False; [done| |done].
    intros Hq. apply Hp, Hpq; [by left|done].
Qed.

Lemma drop_timers_other (entries : list (string * PendingRequest)) : ∀ ts h,
  (∀ id r, (id, r) ∈ entries → pr_timeout r ≠ Some h) →
  foldl drop_timer ts entries !! h = ts !! h.
Proof.
  induction entries as [|[id r] entries IH]; intros ts h Hne; [done|].
  cbn. rewrite IH by (intros id' r' Hin; apply (Hne id'); by right).
  unfold drop_timer. cbn. pose proof (Hne id r ltac:(by left)) as Hh.
  destruct (pr_timeout r) as [h'|]; [|done].
  apply lookup_delete_ne. congruence.
Qed.

(** X5. [cleanupExpiredRequests(maxAge)] on a manager in use.  The requests
    swept are those registered more than [maxAge] ms ago (strictly; 60000
    when no age is given): the number returned is their number, they leave
    the table, their timers are cancelled, and for each one, in the order of
    the table, one call of its reject callback with 'Request expired' and
    status 408 is queued.  The other requests stay, in their order, with
    their timers; no callback runs during the sweep. *)
Theorem cleanupExpiredRequests_sweeps this maxAge st :
  reachable this st →
  let age := default 60000 maxAge in
  let expired := λ entry : string * PendingRequest,
    age < now st.2 - pr_timestamp entry.2 in
  let old := filter expired (pendingRequests st.1) in
  let res := cleanupExpiredRequests maxAge st in
  res.1 = length old ∧
  pendingRequests res.2.1 = filter (λ entry, ¬ expired entry) (pendingRequests st.1) ∧
  ticks res.2.2 =
    ticks st.2
    ++ map (λ entry, TCall (pr_reject entry.2)
                       (error_literal entry.1 "Request expired" 408 (now st.2))) old ∧
  calls res.2.2 = calls st.2 ∧
  (∀ id r h, (id, r) ∈ old → pr_timeout r = Some h → timers res.2.2 !! h = None) ∧
  (∀ id r h, (id, r) ∈ pendingRequests res.2.1 → pr_timeout r = Some h →
             timers res.2.2 !! h = timers st.2 !! h).
Proof.
  intros Hreach. pose proof (reachable_wf _ _ Hreach) as [Hdis _ _ Ha].
  pose proof (reachable_distinct _ _ Hreach) as Hnd. unfold distinct_ids in Hnd.
  destruct st as [m e]. cbn [fst snd] in *. cbn zeta.
  unfold cleanupExpiredRequests. destruct (disposed m) eqn:Hd.
  { cbn [fst snd]. rewrite (Hdis eq_refl). cbn. split_and!; try done.
    - by rewrite app_nil_r.
    - intros id r h Hin. by apply elem_of_nil in Hin. }
  rewrite expired_ids.
  set (expired := λ entry : string * PendingRequest,
         default 60000 maxAge < now e - pr_timestamp entry.2).
  set (old := filter expired (pendingRequests m)).
  assert (Hsub : ∀ entry, entry ∈ old → entry ∈ pendingRequests m).
  { intros entry Hin. by apply list_elem_of_filter in Hin as [_ ?]. }
  assert (Hold : NoDup old.*1).
  { apply (NoDup_fmap_2_strong fst).
    - intros [k1 v1] [k2 v2] H1%Hsub H2%Hsub Hk. cbn in Hk. subst k2.
      f_equal. apply (elem_get _ _ _ Hnd) in H1, H2. congruence.
    - apply NoDup_filter. by eapply NoDup_fmap_1. }
  pose proof (expire_turns_spec (now e) old 0%nat m e Hd Hnd Hold Hsub) as Hspec.
  unfold State in *. rewrite Hspec. clear Hspec.
  cbn [fst snd pendingRequests with_pending ticks calls timers].
  assert (Hkeys : ∀ entry, entry ∈ pendingRequests m →
                    entry.1 ∉ old.*1 ↔ ¬ expired entry).
  { intros [k v] Hin. cbn [fst]. split.
    - intros Hnot Hexp. apply Hnot. apply list_elem_of_fmap. exists (k, v).
      split; [done|]. apply list_elem_of_filter. by split.
    - intros Hexp ([k' v'] & Hk & Hin')%list_elem_of_fmap. cbn in Hk. subst k'.
      apply Hexp. apply list_elem_of_filter in Hin' as [Hexp' Hin'].
      apply (elem_get _ _ _ Hnd) in Hin, Hin'. congruence. }
  split_and!.
  - done.
  - by apply filter_ext_in.
  - done.
  - done.
  - intros id r h Hin Hto. by eapply drop_timers_gone.
  - intros id r h Hin Hto. apply drop_timers_other. intros id' r' Hin' Hto'.
    apply list_elem_of_filter in Hin as [Hkeep Hin].
    pose proof (Hsub _ Hin') as Hin''.
    apply (elem_get _ _ _ Hnd) in Hin, Hin''.
    destruct (Ha id r h Hin Hto) as (t1 & Hl1 & Hid1 & _).
    destruct (Ha id' r' h Hin'' Hto') as (t2 & Hl2 & Hid2 & _).
    assert (Hid : id' = id) by congruence.
    apply Hkeep. apply list_elem_of_fmap. exists (id', r'). by split.
Qed.

(** Two requests registered 70 s apart, seen 1 s after the second. *)
Definition old_and_new : State :=
  foldl (step 0%nat) (init None)
    [OAdd "old" 1%nat 2%nat (Some 0); OAdvance 70; OAdd "new" 3%nat 4%nat (Some 0);
     OAdvance 1].

Lemma cleanupExpiredRequests_sweeps_witness :
  reachable 0%nat old_and_new ∧
  let res := cleanupExpiredRequests (Some 60) old_and_new in
  res.1 = 1%nat ∧ (pendingRequests res.2.1).*1 = ["new"] ∧
  ticks res.2.2 = [TCall 2%nat (error_literal "old" "Request expired" 408 71)].
Proof.
  assert (H1 : reachable 0%nat old_and_new).
  { by exists None, [OAdd "old" 1%nat 2%nat (Some 0); OAdvance 70;
                     OAdd "new" 3%nat 4%nat (Some 0); OAdvance 1]. }
  split; [exact H1|]. cbn zeta.
  destruct (cleanupExpiredRequests_sweeps 0%nat (Some 60) old_and_new H1)
    as (Hn & Hp & Ht & _).
  split; [exact Hn|]. split; [exact (f_equal (fmap fst) Hp)|exact Ht].
Defined.

End CorrelationMore.

(** ** More on the server side *)

Module ResponseMore.
Import Js JsObject Protocol Server ResponseUse ServerFacts.

Implicit Types (r : Response.VSCodeHttpResponse).

(** *** Header names *)

Lemma lower_ascii_idem c : lower_ascii (lower_ascii c) = lower_ascii c.
Proof. by destruct c as [[] [] [] [] [] [] [] []]. Qed.

Lemma toLowerCase_idem s : toLowerCase (toLowerCase s) = toLowerCase s.
Proof. induction s as [|c s IH]; cbn; [done|]. by rewrite lower_ascii_idem, IH. Qed.

(** X6. Header names are case-insensitive on a response whose headers are not
    sent and that is not disposed: a header set under one spelling is read,
    found and removed under any spelling with the same lower-case form, and
    setting or removing it leaves the headers of other names as they
    were.  (The name is one the headers object does not inherit.) *)
Theorem header_names_fold_case name name' value r :
  Response.headersSent r = false → Response._disposed r = false →
  own_name (toLowerCase name) →
  let r1 := Response.setHeader name value r in
  (toLowerCase name' = toLowerCase name →
   Response.getHeader name' r1 = Some value ∧
   Response.hasHeader name' r1 = true ∧
   Response.getHeader name (Response.removeHeader name' r1) = None ∧
   Response.hasHeader name (Response.removeHeader name' r1) = false) ∧
  (toLowerCase name' ≠ toLowerCase name →
   Response.getHeader name' r1 = Response.getHeader name' r ∧
   Response.getHeader name' (Response.removeHeader name r) = Response.getHeader name' r) ∧
  Response.getHeaders r1 !! toLowerCase name = Some value.
Proof.
  intros Hs Hd _. cbn zeta.
  unfold Response.getHeader, Response.hasHeader, Response.removeHeader,
    Response.setHeader, Response.getHeaders.
  rewrite Hs, Hd. cbn. rewrite ?Hd. cbn. split_and!.
  - intros ->. split_and!.
    + apply lookup_insert_eq.
    + apply bool_decide_eq_true_2. rewrite lookup_insert_eq. by eexists.
    + apply lookup_delete_eq.
    + apply bool_decide_eq_false_2. rewrite lookup_delete_eq. by intros [? ?].
  - intros Hne. split.
    + by apply lookup_insert_ne.
    + by apply lookup_delete_ne.
  - apply lookup_insert_eq.
Qed.

Lemma header_names_fold_case_witness :
  let r := Response.new "req-1" 0%nat "server_A" in
  Response.headersSent r = false ∧ Response._disposed r = false ∧
  own_name (toLowerCase "Content-Type") ∧
  toLowerCase "content-TYPE" = toLowerCase "Content-Type" ∧
  Response.getHeader "content-TYPE" (Response.setHeader "Content-Type" "text/plain" r)
    = Some "text/plain".
Proof.
  cbn zeta.
  assert (Hown : own_name (toLowerCase "Content-Type")).
  { unfold own_name, inherited. vm_compute toLowerCase.
    rewrite !not_elem_of_cons. split_and!; [discriminate..|apply not_elem_of_nil]. }
  split; [reflexivity|]. split; [reflexivity|]. split; [exact Hown|].
  split; [reflexivity|].
  exact (proj1 (proj1 (header_names_fold_case "Content-Type" "content-TYPE" "text/plain"
                         (Response.new "req-1" 0%nat "server_A") eq_refl eq_refl Hown)
                  eq_refl)).
Defined.

(** X7. [writeHead] stores the headers it is given under their names as
    written.  A header passed under a name with a capital letter is in the
    headers of the response, and so in the envelope, but [getHeader] and
    [hasHeader] do not see it under any spelling, since they look up
    lower-case names only. *)
Theorem writeHead_keeps_header_case status message name value r :
  Response.headersSent r = false → Response._disposed r = false →
  Response._responseSent r = false →
  toLowerCase name ≠ name →
  let r1 := Response.writeHead status message (Some {[ name := value ]}) r in
  Response.headers r1 !! name = Some value ∧
  ∀ name', Response.getHeader name' r1 = Response.getHeader name' r ∧
           Response.hasHeader name' r1 = Response.hasHeader name' r.
Proof.
  intros Hs Hd Hr Hcase. cbn zeta.
  unfold Response.writeHead, Response.getHeader, Response.hasHeader.
  rewrite Hs, Hd, Hr. cbn. split.
  - apply lookup_union_Some_l, lookup_singleton_eq.
  - intros name'.
    assert (Hl : ({[name := value]} ∪ Response.headers r) !! toLowerCase name'
                 = Response.headers r !! toLowerCase name').
    { apply lookup_union_r, lookup_singleton_ne. intros Heq. apply Hcase.
      by rewrite Heq, toLowerCase_idem. }
    by rewrite Hl.
Qed.

Lemma writeHead_keeps_header_case_witness :
  let r := Response.new "req-1" 0%nat "server_A" in
  let r1 := Response.writeHead 200 None (Some {[ "Content-Type" := "text/plain" ]}) r in
  toLowerCase "Content-Type" ≠ "Content-Type" ∧
  Response.headers r1 !! "Content-Type" = Some "text/plain" ∧
  Response.getHeader "Content-Type" r1 = None.
Proof.
  cbn zeta.
  assert (Hcase : toLowerCase "Content-Type" ≠ "Content-Type") by discriminate.
  split; [exact Hcase|].
  destruct (writeHead_keeps_header_case 200 None "Content-Type" "text/plain"
              (Response.new "req-1" 0%nat "server_A") eq_refl eq_refl eq_refl Hcase)
    as [Hin Hget].
  split; [exact Hin|]. exact (proj1 (Hget "Content-Type")).
Defined.

(** *** The flags of a response *)

(** What holds of the flags of a response whatever was called on it. *)
Record consistent r : Prop := {
  finished_why :
    Response.finished r = true →
    Response._disposed r = true ∨ Response._responseSent r = true;
  sent_flags :
    Response._responseSent r = true →
    Response.headersSent r = true ∧ Response.finished r = true;
  body_flags : Response._body r ≠ [] → Response.headersSent r = true;
}.

Lemma consistent_new correlationId webview instanceId :
  consistent (Response.new correlationId webview instanceId).
Proof. by split. Qed.

Lemma consistent_call r c : consistent r → consistent (call r c).
Proof.
  intros [Hf Hs Hb]. destruct c; cbn [call].
  - unfold Response.setHeader. by destruct (_ || _).
  - unfold Response.removeHeader. by destruct (negb _).
  - unfold Response.writeHead.
    destruct (Response.headersSent r || Response._disposed r || Response._responseSent r)
      eqn:Hg; [done|].
    apply orb_false_elim in Hg as [[Hh Hd]%orb_false_elim Hr].
    split; cbn; [done|by rewrite Hr|done].
  - unfold Response.write.
    destruct (Response.finished r || Response._disposed r || Response._responseSent r)
      eqn:Hg; [done|].
    apply orb_false_elim in Hg as [[Hh Hd]%orb_false_elim Hr].
    split; cbn; [by rewrite Hh|by rewrite Hr|done].
  - unfold ended.
    destruct (Response.finished r || Response._disposed r || Response._responseSent r);
      [done|].
    split; cbn; auto.
  - unfold Response.dispose. destruct (Response._disposed r) eqn:Hd; [by split; auto|].
    split; cbn; [auto| |auto]. intros Hr. split; [by apply Hs|done].
  - unfold Response.once_finish. by destruct (negb _).
Qed.

Lemma consistent_after cs : ∀ r, consistent r → consistent (after cs r).
Proof.
  induction cs as [|c cs IH]; intros r Hr; [done|].
  apply IH. by apply consistent_call.
Qed.

(** What [end] does to the response object, in the world. *)
Lemma end_response `{Runtime} res chunk r w :
  responses w !! res = Some r →
  responses (end_ res chunk w) !! res = Some (ended chunk r).
Proof.
  intros Hr. unfold ended.
  destruct (Response.finished r || Response._disposed r || Response._responseSent r)
    eqn:Hc.
  { by rewrite (end_closed res chunk r). }
  apply orb_false_elim in Hc as [[Hf Hd]%orb_false_elim Hs].
  rewrite (end_open res chunk r) by done.
  set (w1 := update_response res (Response.end_mark chunk) w).
  assert (Hr1 : responses w1 !! res = Some (Response.end_mark chunk r)).
  { cbn. by rewrite list_lookup_alter_eq, Hr. }
  destruct (emit_finish_frame res _ w1 Hr1) as (_ & Hrs & _ & _).
  unfold try_postMessage, postMessage.
  destruct (webviews (emit_finish res w1) !! Response._webview r) as [wv|]; cbn;
    [destruct (gone wv); cbn|]; by rewrite Hrs, list_lookup_alter_eq, Hr1.
Qed.

(** X8. Once a response is finished, by [end] or by [dispose], whatever else
    was called on it since it was made: [write] returns false, and [write],
    [writeHead], [setHeader] and [end] leave the object as it is, so the
    status, the headers they would set and the chunks are lost. *)
Theorem finished_response_is_inert correlationId webview instanceId cs :
  let r := after cs (Response.new correlationId webview instanceId) in
  Response.finished r = true →
  (∀ chunk, Response.write chunk r = (false, r)) ∧
  (∀ status message extra, Response.writeHead status message extra r = r) ∧
  (∀ name value, Response.setHeader name value r = r) ∧
  (∀ chunk, ended chunk r = r).
Proof.
  cbn zeta. intros Hfin.
  pose proof (consistent_after cs _ (consistent_new correlationId webview instanceId))
    as [Hf Hs Hb].
  set (r := after cs _) in *.
  unfold Response.write, Response.writeHead, Response.setHeader, ended.
  rewrite Hfin. cbn [orb].
  destruct (Hf Hfin) as [Hd|Hr].
  - rewrite Hd, !orb_true_r. done.
  - destruct (Hs Hr) as [Hh _]. rewrite Hr, Hh, !orb_true_r. done.
Qed.

Lemma finished_response_is_inert_witness :
  let r := after [Write (JStr "a"); End JUndefined] (Response.new "req-1" 0%nat "server_A") in
  Response.finished r = true ∧
  Response.write (JStr "b") r = (false, r) ∧
  Response.writeHead 404 None None r = r.
Proof.
  cbn zeta.
  destruct (finished_response_is_inert "req-1" 0%nat "server_A"
              [Write (JStr "a"); End JUndefined] eq_refl) as (Hw & Hh & _).
  split; [reflexivity|]. split; [exact (Hw (JStr "b"))|exact (Hh 404 None None)].
Defined.

(** X9. The status line is fixed by whichever comes first of [writeHead] and a
    successful [write]: a second [writeHead] is ignored, and so is a
    [writeHead] after a chunk was written, which leaves the status at what
    it was. *)
Theorem status_is_fixed_by_first_write status message extra r :
  (∀ status0 message0 extra0,
     Response.writeHead status message extra
       (Response.writeHead status0 message0 extra0 r)
     = Response.writeHead status0 message0 extra0 r) ∧
  (∀ chunk,
     (Response.write chunk r).1 = true →
     Response.writeHead status message extra (Response.write chunk r).2
     = (Response.write chunk r).2 ∧
     Response.statusCode (Response.write chunk r).2 = Response.statusCode r).
Proof.
  split.
  - intros status0 message0 extra0. unfold Response.writeHead.
    destruct (Response.headersSent r || Response._disposed r || Response._responseSent r)
      eqn:Hg; [by rewrite Hg|done].
  - intros chunk. unfold Response.write.
    destruct (Response.finished r || Response._disposed r || Response._responseSent r)
      eqn:Hg; [done|]. intros _. done.
Qed.

Lemma status_is_fixed_by_first_write_witness :
  let r := Response.new "req-1" 0%nat "server_A" in
  (Response.write (JStr "a") r).1 = true ∧
  Response.statusCode (Response.writeHead 404 None None (Response.write (JStr "a") r).2)
    = 200.
Proof.
  cbn zeta.
  destruct (status_is_fixed_by_first_write 404 None None
              (Response.new "req-1" 0%nat "server_A")) as [_ Hw].
  destruct (Hw (JStr "a") eq_refl) as [Heq Hst].
  split; [reflexivity|]. exact (eq_trans (f_equal Response.statusCode Heq) Hst).
Defined.

(** *** The chunks of a response *)

Lemma after_writes (chunks : list JsValue) : ∀ r,
  open r →
  open (after (Write <$> chunks) r) ∧
  Response._body (after (Write <$> chunks) r) = Response._body r ++ chunks ∧
  Response.statusCode (after (Write <$> chunks) r) = Response.statusCode r ∧
  Response.headers (after (Write <$> chunks) r) = Response.headers r ∧
  Response._correlationId (after (Write <$> chunks) r) = Response._correlationId r ∧
  Response._webview (after (Write <$> chunks) r) = Response._webview r ∧
  Response._instanceId (after (Write <$> chunks) r) = Response._instanceId r.
Proof.
  induction chunks as [|chunk chunks IH]; intros r Hopen.
  - cbn. by rewrite app_nil_r.
  - cbn [fmap list_fmap after foldl call].
    set (r1 := (Response.write chunk r).2).
    assert (Hr1 : open r1 ∧ Response._body r1 = Response._body r ++ [chunk] ∧
                  Response.statusCode r1 = Response.statusCode r ∧
                  Response.headers r1 = Response.headers r ∧
                  Response._correlationId r1 = Response._correlationId r ∧
                  Response._webview r1 = Response._webview r ∧
                  Response._instanceId r1 = Response._instanceId r).
    { destruct Hopen as (Hf & Hd & Hs). unfold r1, Response.write.
      by rewrite Hf, Hd, Hs. }
    destruct Hr1 as (Hopen1 & E2 & E3 & E4 & E5 & E6 & E7).
    destruct (IH r1 Hopen1) as (H1 & H2 & H3 & H4 & H5 & H6 & H7).
    unfold after in *. rewrite H2, H3, H4, H5, H6, H7, E2, E3, E4, E5, E6, E7.
    by rewrite <- app_assoc.
Qed.

(** X10. The chunks written to a response that is open and still empty, and the
    chunk given to [end] if there is one, reach the webview in one envelope,
    in the order they were written: every [write] returns true, and the body
    of the envelope is made of the concatenation of all of them (read as
    JSON when it begins with "{" or "[" and parses); without any chunk the
    envelope has no body.  The envelope carries the id, the status and the
    headers of the response. *)
Theorem chunks_are_sent_in_order `{Runtime} res r wv (chunks : list JsValue) last w :
  responses w !! res = Some r → open r → Response._body r = [] →
  webviews w !! Response._webview r = Some wv → gone wv = false →
  let all := chunks ++ (if is_undefined last then [] else [last]) in
  let w' := end_ res last (update_response res (after (Write <$> chunks)) w) in
  (∀ k c, chunks !! k = Some c →
          (Response.write c (after (Write <$> take k chunks) r)).1 = true) ∧
  ∃ envelope,
    posted <$> webviews w' !! Response._webview r = Some (posted wv ++ [envelope]) ∧
    msg_id envelope = Response._correlationId r ∧
    msg_type envelope = MResponse ∧
    msg_status envelope = Some (Response.statusCode r) ∧
    msg_headers envelope = Some (Response.headers r) ∧
    msg_body envelope =
      match all with
      | [] => JUndefined
      | _ :: _ =>
          let combined := join "" all in
          if startsWith "{" combined || startsWith "[" combined then
            match JSON_parse combined with
            | Some parsed => parsed
            | None => JStr combined
            end
          else JStr combined
      end.
Proof.
  intros Hr Hopen Hbody Hwv Hgone all w'. split.
  { intros k c _.
    destruct (after_writes (take k chunks) r Hopen) as ((Hf & Hd & Hs) & _).
    unfold Response.write. by rewrite Hf, Hd, Hs. }
  destruct (after_writes chunks r Hopen) as (Hopen1 & Hb1 & Hst1 & Hh1 & Hid1 & Hwv1 & _).
  set (r1 := after (Write <$> chunks) r) in *.
  set (w1 := update_response res (after (Write <$> chunks)) w).
  assert (Hr1 : responses w1 !! res = Some r1).
  { cbn. by rewrite list_lookup_alter_eq, Hr. }
  assert (Hwv' : webviews w1 !! Response._webview r1 = Some wv) by by rewrite Hwv1.
  destruct (end_open_posts res last r1 wv w1 Hr1 Hopen1 Hwv' Hgone) as (Hwvs & _ & _).
  exists (Response.responseMessage (now w1) (Response.end_mark last r1)).
  unfold w'. fold w1. rewrite Hwvs. rewrite Hwv1, list_lookup_alter_eq.
  change (webviews w1) with (webviews w). rewrite Hwv. cbn [fmap option_fmap option_map posted].
  split; [done|]. split; [exact Hid1|]. split; [done|].
  split; [exact (f_equal Some Hst1)|]. split; [exact (f_equal Some Hh1)|].
  unfold Response.responseMessage, Response._combineBody.
  cbn [msg_body Response._body Response.end_mark]. rewrite Hb1, Hbody. cbn [app].
  assert (Hall : (if negb (is_undefined last) then chunks ++ [last] else chunks) = all).
  { unfold all. destruct (is_undefined last); cbn; [by rewrite app_nil_r|done]. }
  rewrite Hall. destruct all; [done|].
  by rewrite bool_decide_eq_true_2 by (cbn; lia).
Qed.

Lemma chunks_are_sent_in_order_witness :
  let r := Response.new "req-1" 0%nat "server_A" in
  let w := fresh_response in
  responses w !! 0%nat = Some r ∧ open r ∧ Response._body r = [] ∧
  webviews w !! 0%nat = Some {| posted := []; gone := false; subscribers := [] |} ∧
  ∃ envelope,
    posted <$> webviews
      (@end_ JsonRef.runtime 0%nat (JStr "c")
         (update_response 0%nat (after [Write (JStr "a"); Write (JStr "b")]) w)) !! 0%nat
      = Some [envelope] ∧
    msg_body envelope = JStr "abc".
Proof.
  cbn zeta.
  assert (H1 : responses fresh_response !! 0%nat
               = Some (Response.new "req-1" 0%nat "server_A")) by reflexivity.
  assert (H2 : open (Response.new "req-1" 0%nat "server_A")) by by repeat split.
  assert (H4 : webviews fresh_response
                 !! Response._webview (Response.new "req-1" 0%nat "server_A")
               = Some {| posted := []; gone := false; subscribers := [] |}) by reflexivity.
  split; [exact H1|]. split; [exact H2|]. split; [reflexivity|]. split; [exact H4|].
  destruct (@chunks_are_sent_in_order JsonRef.runtime 0%nat _ _ [JStr "a"; JStr "b"]
              (JStr "c") fresh_response H1 H2 eq_refl H4 eq_refl)
    as (_ & envelope & Hp & _ & _ & _ & _ & Hb).
  exists envelope. split; [exact Hp|exact Hb].
Defined.

End ResponseMore.

Module TransportMore.
Import Js Protocol Server ResponseUse ServerFacts ResponseMore.

Implicit Types (w : World) (s : Transport.VSCodeHttpTransportServer).

(** A server that takes requests: listening, not disposed, not inside its
    handler, and not yielding to the server registered for its webview. *)
Record ready (this : nat) s w : Prop := {
  ready_server : servers w !! this = Some s;
  ready_unlocked : Transport._messageHandlerLock s = false;
  ready_alive : Transport._disposed s = false;
  ready_listening : Transport._listening s = true;
  ready_primary : yields_to_registered this (Transport._webview s) w = false;
}.

(** The world in which the listeners on 'request' run: the two objects are
    made, the response is tracked, and the handler holds its lock. *)
Definition entered (this : nat) s (message : MessageProtocol) w : World :=
  {| webviews := webviews w;
     requests := requests (new_request message w).2;
     responses :=
       responses w
       ++ [Response.once_finish (Response.Untrack this)
             (Response.new (msg_id message) (Transport._webview s)
                (Transport._instanceId s))];
     servers :=
       <[this := Transport.with_lock true
                   (Transport.with_pendingResponses
                      (λ set, {[length (responses w)]} ∪ set) s)]> (servers w);
     webviewServerRegistry := webviewServerRegistry w;
     emitted := emitted w ++ [EvRequest this (length (requests w)) (length (responses w))];
     ticks := ticks w ++ [TRequestBody (length (requests w))];
     now := now w |}.

Lemma handleMessage_ready on_request this s message w :
  ready this s w → isRequestMessage message = true →
  _handleMessage on_request this message w =
    update_server this (Transport.with_lock false)
      match on_request (length (requests w)) (length (responses w))
              (entered this s message w) with
      | (w6, Some error) => _sendErrorResponse this (msg_id message) error w6
      | (w6, None) => w6
      end.
Proof.
  intros [Hs Hl Hd Hli Hp] Hreq. unfold _handleMessage.
  rewrite Hs, Hl, Hd, Hli, Hreq, Hp. cbn [orb negb].
  cbn [new_request new_response length].
  match goal with |- context [emit ?ev ?w0] => set (w5 := emit ev w0) end.
  assert (E : w5 = entered this s message w).
  { unfold w5, entered, emit, update_response, update_server, with_responses,
      with_servers, nextTick, with_requests. cbn. f_equal.
    - replace (length (responses w)) with (length (responses w) + 0)%nat at 1 by lia.
      by rewrite alter_app_r.
    - apply list_eq. intros i. destruct (decide (i = this)) as [->|Hne].
      + assert (Hlen : (this < length (servers w))%nat) by by eapply lookup_lt_Some.
        rewrite !list_lookup_alter_eq, Hs, list_lookup_insert_eq by done. done.
      + by rewrite !list_lookup_alter_ne, list_lookup_insert_ne by done. }
  clearbody w5. subst w5.
  by destruct (on_request _ _ _) as [w6 [error|]].
Qed.

(** The world after the handler ran on a request, for a listener on
    'request' that returns without touching the world: one that answers
    later, or none at all. *)
Definition handled (this : nat) s (message : MessageProtocol) w : World :=
  {| webviews := webviews w;
     requests := requests (new_request message w).2;
     responses :=
       responses w
       ++ [Response.once_finish (Response.Untrack this)
             (Response.new (msg_id message) (Transport._webview s)
                (Transport._instanceId s))];
     servers :=
       <[this := Transport.with_pendingResponses
                   (λ set, {[length (responses w)]} ∪ set) s]> (servers w);
     webviewServerRegistry := webviewServerRegistry w;
     emitted := emitted w ++ [EvRequest this (length (requests w)) (length (responses w))];
     ticks := ticks w ++ [TRequestBody (length (requests w))];
     now := now w |}.

Lemma unlock_entered this s message w :
  ready this s w →
  alter (Transport.with_lock false) this (servers (entered this s message w))
  = servers (handled this s message w).
Proof.
  intros [Hs Hl Hd Hli Hp]. cbn [entered handled servers].
  assert (Hlen : (this < length (servers w))%nat) by by eapply lookup_lt_Some.
  apply list_eq. intros i. destruct (decide (i = this)) as [->|Hne].
  - rewrite list_lookup_alter_eq, !list_lookup_insert_eq by done. cbn.
    f_equal. destruct s. cbn in *. by subst.
  - by rewrite list_lookup_alter_ne, !list_lookup_insert_ne by done.
Qed.

Lemma handleMessage_returns this s message w :
  ready this s w → isRequestMessage message = true →
  _handleMessage no_listener this message w = handled this s message w.
Proof.
  intros Hready Hreq. rewrite (handleMessage_ready _ this s) by done.
  unfold no_listener, update_server, with_servers.
  rewrite (unlock_entered this s message w Hready). done.
Qed.

Lemma handleMessage_throws this s message error w :
  ready this s w → isRequestMessage message = true →
  _handleMessage (λ _ _ w, (w, Some error)) this message w =
    _sendErrorResponse this (msg_id message) error (handled this s message w).
Proof.
  intros Hready Hreq. rewrite (handleMessage_ready _ this s) by done.
  pose proof (unlock_entered this s message w Hready) as Hunlock.
  destruct Hready as [Hs Hl Hd Hli Hp].
  assert (Hlen : (this < length (servers w))%nat) by by eapply lookup_lt_Some.
  unfold _sendErrorResponse. cbn [servers handled entered].
  rewrite !list_lookup_insert_eq by done.
  cbn [Transport._disposed Transport.with_lock Transport.with_pendingResponses
       Transport._instanceId Transport._webview]. rewrite Hd.
  unfold try_postMessage, postMessage. cbn [webviews now handled entered].
  cbn [entered handled servers] in Hunlock.
  destruct (webviews w !! Transport._webview s) as [wv|]; cbn [default];
    [destruct (gone wv); cbn [default]|];
    unfold update_server, with_servers, with_webviews; cbn; by rewrite Hunlock.
Qed.

Lemma try_postMessage_servers webview message w :
  servers (try_postMessage webview message w) = servers w.
Proof.
  unfold try_postMessage, postMessage.
  destruct (webviews w !! webview) as [wv|]; [destruct (gone wv)|]; done.
Qed.

(** [end] on an open response that carries the server's listener takes the
    response out of the server's in-flight set. *)
Lemma end_untracks `{Runtime} res chunk r server w :
  responses w !! res = Some r → open r →
  Response.finish_listeners r = [Response.Untrack server] →
  servers (end_ res chunk w) =
    alter (Transport.with_pendingResponses (λ set, set ∖ {[res]})) server (servers w).
Proof.
  intros Hr Hopen Hl. rewrite (end_open res chunk r) by done.
  rewrite try_postMessage_servers. unfold emit_finish.
  cbn [update_response with_responses responses].
  rewrite list_lookup_alter_eq, Hr. cbn [fmap option_fmap option_map].
  cbn [Response.finish_listeners Response.end_mark]. rewrite Hl. done.
Qed.

(** *** A request and its answer *)

(** X11. A request that reaches a server which takes requests makes one request
    and one response object, is announced by one 'request' event, and puts
    the response in the in-flight set; the handler's lock is free again
    afterwards.  When the framework then ends the response without having
    set a status, the webview gets one Response envelope with the id of the
    request, status 200 and the instance id of the server; and the response
    leaves the in-flight set. *)
Theorem request_is_answered `{Runtime} this s message chunk wv w :
  ready this s w → isRequestMessage message = true →
  webviews w !! Transport._webview s = Some wv → gone wv = false →
  let res := length (responses w) in
  let w1 := _handleMessage no_listener this message w in
  let w2 := end_ res chunk w1 in
  (length (requests w1) = S (length (requests w)) ∧
   length (responses w1) = S (length (responses w)) ∧
   emitted w1 = emitted w ++ [EvRequest this (length (requests w)) res] ∧
   webviews w1 = webviews w ∧
   Transport._pendingResponses <$> servers w1 !! this
     = Some ({[res]} ∪ Transport._pendingResponses s) ∧
   Transport._messageHandlerLock <$> servers w1 !! this = Some false) ∧
  (∃ envelope,
     posted <$> webviews w2 !! Transport._webview s = Some (posted wv ++ [envelope]) ∧
     msg_id envelope = msg_id message ∧ msg_type envelope = MResponse ∧
     msg_status envelope = Some 200 ∧
     msg_instanceId envelope =
       (if truthy (Some (Transport._instanceId s)) then Some (Transport._instanceId s)
        else None)) ∧
  Transport._pendingResponses <$> servers w2 !! this
    = Some (Transport._pendingResponses s ∖ {[res]}).
Proof.
  intros Hready Hreq Hwv Hgone res w1 w2.
  assert (E1 : w1 = handled this s message w) by by apply handleMessage_returns.
  pose proof (ready_server _ _ _ Hready) as Hs.
  pose proof (ready_unlocked _ _ _ Hready) as Hl.
  assert (Hlen : (this < length (servers w))%nat) by by eapply lookup_lt_Some.
  set (r := Response.once_finish (Response.Untrack this)
              (Response.new (msg_id message) (Transport._webview s)
                 (Transport._instanceId s))).
  assert (Hr : responses w1 !! res = Some r).
  { rewrite E1. cbn [handled responses]. unfold res.
    by rewrite lookup_app_r, Nat.sub_diag by lia. }
  assert (Hopen : open r) by by repeat split.
  split; [|split].
  - rewrite E1. cbn [handled requests responses emitted webviews servers new_request
                     with_requests nextTick snd].
    rewrite !length_app, list_lookup_insert_eq by done. cbn.
    split_and!; try done; try lia. by rewrite Hl.
  - assert (Hwv1 : webviews w1 !! Response._webview r = Some wv).
    { rewrite E1. exact Hwv. }
    destruct (end_open_posts res chunk r wv w1 Hr Hopen Hwv1 Hgone) as (Hwvs & _ & _).
    exists (Response.responseMessage (now w1) (Response.end_mark chunk r)).
    unfold w2. rewrite Hwvs.
    change (Response._webview r) with (Transport._webview s).
    rewrite list_lookup_alter_eq. rewrite E1 at 1. cbn [handled webviews].
    rewrite Hwv. done.
  - unfold w2. rewrite (end_untracks res chunk r this w1 Hr Hopen eq_refl).
    rewrite list_lookup_alter_eq, E1. cbn [handled servers].
    rewrite list_lookup_insert_eq by done. cbn. f_equal.
    apply set_eq. intros x.
    rewrite !elem_of_difference, elem_of_union. tauto.
Qed.

(** X12. When a listener on 'request' throws, whatever it did before it
    threw, the handler goes on from the world the listener left.  Unless
    the listener disposed the server, the server posts one Error envelope
    for the request, after what the listener posted: with status 500, the
    message of the error (or 'Unknown error' for a value that is no
    [Error]) and the instance id of the server.  The lock is free again,
    and nothing else changes: the requests, the responses, the events, the
    queued closures and the in-flight set are as the listener left them.
    So the response of a listener that threw without touching anything is
    open and in flight, while a listener that ends the response and then
    throws makes the webview get two envelopes for the one request. *)
Theorem throwing_handler_gets_500 on_request this s message error s' w w' :
  ready this s w → isRequestMessage message = true →
  on_request (length (requests w)) (length (responses w)) (entered this s message w)
    = (w', Some error) →
  servers w' !! this = Some s' →
  let res := length (responses w) in
  let w1 := _handleMessage on_request this message w in
  let failure :=
    {| msg_id := msg_id message; msg_type := MError; msg_method := None;
       msg_url := None; msg_headers := None; msg_body := JUndefined;
       msg_status := Some 500;
       msg_error := Some match error with
                         | ThrowError text => text
                         | ThrowOther => "Unknown error"
                         end;
       msg_stack := None;
       msg_instanceId :=
         if truthy (Some (Transport._instanceId s'))
         then Some (Transport._instanceId s') else None;
       msg_timestamp := now w' |} in
  (∀ wv', Transport._disposed s' = false →
          webviews w' !! Transport._webview s' = Some wv' → gone wv' = false →
          webviews w1 =
            alter (λ wv, {| posted := posted wv ++ [failure]; gone := gone wv;
                            subscribers := subscribers wv |})
              (Transport._webview s') (webviews w') ∧
          posted <$> webviews w1 !! Transport._webview s'
            = Some (posted wv' ++ [failure])) ∧
  (Transport._disposed s' = true → webviews w1 = webviews w') ∧
  servers w1 = <[this := Transport.with_lock false s']> (servers w') ∧
  requests w1 = requests w' ∧ responses w1 = responses w' ∧
  emitted w1 = emitted w' ∧ ticks w1 = ticks w' ∧
  webviewServerRegistry w1 = webviewServerRegistry w' ∧
  (w' = entered this s message w →
   Transport._pendingResponses <$> servers w1 !! this
     = Some ({[res]} ∪ Transport._pendingResponses s) ∧
   ∃ r, responses w1 !! res = Some r ∧ open r).
Proof.
  intros Hready Hreq Hrun Hs' res w1 failure.
  assert (E1 : w1 = update_server this (Transport.with_lock false)
                      (_sendErrorResponse this (msg_id message) error w')).
  { unfold w1. rewrite (handleMessage_ready _ this s) by done. by rewrite Hrun. }
  assert (Hlen' : (this < length (servers w'))%nat) by by eapply lookup_lt_Some.
  assert (Hsent : servers (_sendErrorResponse this (msg_id message) error w')
                  = servers w').
  { unfold _sendErrorResponse. rewrite Hs'.
    destruct (Transport._disposed s'); [done|]. apply try_postMessage_servers. }
  assert (Hservers : servers w1 = <[this := Transport.with_lock false s']> (servers w')).
  { rewrite E1. cbn [update_server with_servers servers]. rewrite Hsent.
    apply list_eq. intros i. destruct (decide (i = this)) as [->|Hne].
    - by rewrite list_lookup_alter_eq, list_lookup_insert_eq, Hs' by done.
    - by rewrite list_lookup_alter_ne, list_lookup_insert_ne by done. }
  assert (Hrest : requests w1 = requests w' ∧ responses w1 = responses w' ∧
                  emitted w1 = emitted w' ∧ ticks w1 = ticks w' ∧
                  webviewServerRegistry w1 = webviewServerRegistry w').
  { rewrite E1. unfold _sendErrorResponse. rewrite Hs'.
    destruct (Transport._disposed s'); [done|].
    unfold try_postMessage, postMessage.
    destruct (webviews w' !! Transport._webview s') as [wv'|]; [|done].
    by destruct (gone wv'). }
  split_and!; try apply Hrest; try done.
  - intros wv' Hd Hwv Hgone.
    assert (Hwvs : webviews w1 =
                     alter (λ wv, {| posted := posted wv ++ [failure]; gone := gone wv;
                                     subscribers := subscribers wv |})
                       (Transport._webview s') (webviews w')).
    { rewrite E1. unfold _sendErrorResponse. rewrite Hs', Hd.
      unfold try_postMessage, postMessage. by rewrite Hwv, Hgone. }
    split; [done|]. by rewrite Hwvs, list_lookup_alter_eq, Hwv.
  - intros Hd. rewrite E1. unfold _sendErrorResponse. by rewrite Hs', Hd.
  - intros ->. destruct Hrest as (_ & Hresponses & _).
    pose proof (ready_server _ _ _ Hready) as Hs.
    assert (Hlen : (this < length (servers w))%nat) by by eapply lookup_lt_Some.
    cbn [entered servers] in Hs'. rewrite list_lookup_insert_eq in Hs' by done.
    injection Hs' as <-. split.
    + by rewrite Hservers, list_lookup_insert_eq.
    + rewrite Hresponses. cbn [entered responses]. eexists. split.
      * unfold res. by rewrite lookup_app_r, Nat.sub_diag by lia.
      * by repeat split.
Qed.

(** X13. While the listeners on 'request' run, the server takes no other
    message: a request delivered to the same server from inside a listener
    is dropped, without a response object and without an envelope. *)
Theorem nested_delivery_is_dropped on_request this s message nested w :
  ready this s w → isRequestMessage message = true →
  _handleMessage
    (λ _ _ w', (_handleMessage on_request this nested w', None)) this message w
  = _handleMessage no_listener this message w.
Proof.
  intros Hready Hreq.
  rewrite (handleMessage_ready _ this s message w Hready Hreq).
  rewrite (handleMessage_ready no_listener this s message w Hready Hreq).
  pose proof (ready_server _ _ _ Hready) as Hs.
  assert (Hlen : (this < length (servers w))%nat) by by eapply lookup_lt_Some.
  unfold no_listener. f_equal.
  unfold _handleMessage. cbn [entered servers].
  by rewrite list_lookup_insert_eq by done.
Qed.

(** The server "server_A" of [listening_server]. *)
Definition server_A : Transport.VSCodeHttpTransportServer :=
  {| Transport.listening := false; Transport._webview := 0%nat;
     Transport._listening := true; Transport._disposed := false;
     Transport._disposables := [0%nat]; Transport._pendingResponses := ∅;
     Transport._messageHandlerLock := false; Transport._instanceId := "server_A" |}.

Lemma ready_server_A : ready 0%nat server_A listening_server.
Proof. by split. Defined.

Lemma request_is_answered_witness :
  ready 0%nat server_A listening_server ∧
  isRequestMessage (request_for None) = true ∧
  ∃ envelope,
    posted <$> webviews
      (@end_ JsonRef.runtime 0%nat (JStr "ok")
         (_handleMessage no_listener 0%nat (request_for None) listening_server)) !! 0%nat
      = Some [envelope] ∧
    msg_id envelope = "req-1" ∧ msg_instanceId envelope = Some "server_A".
Proof.
  split; [exact ready_server_A|]. split; [reflexivity|].
  destruct (@request_is_answered JsonRef.runtime 0%nat server_A (request_for None)
              (JStr "ok") _ listening_server ready_server_A eq_refl eq_refl eq_refl)
    as (_ & (envelope & Hp & Hid & _ & _ & Hinst) & _).
  exists envelope. split; [exact Hp|]. split; [exact Hid|exact Hinst].
Defined.

(** A listener that answers and then throws. *)
Definition ends_then_throws (req res : nat) (w : World) : World * option Thrown :=
  (@end_ JsonRef.runtime res (JStr "ok") w, Some (ThrowError "boom")).

Lemma throwing_handler_gets_500_witness :
  ready 0%nat server_A listening_server ∧
  isRequestMessage (request_for None) = true ∧
  fmap msg_error <$>
    (posted <$> webviews
       (_handleMessage (λ _ _ w, (w, Some (ThrowError "boom"))) 0%nat (request_for None)
          listening_server) !! 0%nat)
    = Some [Some "boom"] ∧
  fmap msg_type <$>
    (posted <$> webviews
       (_handleMessage ends_then_throws 0%nat (request_for None) listening_server)
       !! 0%nat)
    = Some [MResponse; MError].
Proof.
  split; [exact ready_server_A|]. split; [reflexivity|]. split.
  - destruct (throwing_handler_gets_500 (λ _ _ w, (w, Some (ThrowError "boom")))
                0%nat server_A (request_for None) (ThrowError "boom") _
                listening_server _ ready_server_A eq_refl eq_refl eq_refl)
      as (Hp & _).
    destruct (Hp _ eq_refl eq_refl eq_refl) as (_ & Hposted).
    exact (f_equal (fmap (fmap msg_error)) Hposted).
  - destruct (throwing_handler_gets_500 ends_then_throws
                0%nat server_A (request_for None) (ThrowError "boom")
                (Transport.with_lock true server_A)
                listening_server _ ready_server_A eq_refl eq_refl eq_refl)
      as (Hp & _).
    destruct (Hp _ eq_refl eq_refl eq_refl) as (_ & Hposted).
    exact (f_equal (fmap (fmap msg_type)) Hposted).
Defined.

Lemma nested_delivery_is_dropped_witness :
  ready 0%nat server_A listening_server ∧
  isRequestMessage (request_for None) = true ∧
  length (responses
    (_handleMessage
       (λ _ _ w', (_handleMessage no_listener 0%nat (request_for None) w', None))
       0%nat (request_for None) listening_server)) = 1%nat.
Proof.
  split; [exact ready_server_A|]. split; [reflexivity|].
  exact (f_equal (λ w, length (responses w))
           (nested_delivery_is_dropped no_listener 0%nat server_A (request_for None)
              (request_for None) listening_server ready_server_A eq_refl)).
Defined.

(** *** [listen] and [close] *)

Lemma queue_callback_spec callback w :
  queue_callback callback w =
    {| webviews := webviews w; requests := requests w; responses := responses w;
       servers := servers w; webviewServerRegistry := webviewServerRegistry w;
       emitted := emitted w; ticks := ticks w ++ option_list (TCallback <$> callback);
       now := now w |}.
Proof.
  destruct callback as [cb|]; cbn; [done|]. rewrite app_nil_r. by destruct w.
Qed.

(** X14. [listen] on a server that is neither listening nor disposed subscribes
    its handler to the webview once, emits 'listening' and queues the
    callback.  A further [listen] only queues its callback: no second
    handler is subscribed and no second 'listening' is emitted. *)
Theorem listen_twice_subscribes_once this s wv callback again w :
  servers w !! this = Some s →
  Transport._listening s = false → Transport._disposed s = false →
  webviews w !! Transport._webview s = Some wv →
  let w1 := listen this callback w in
  subscribers <$> webviews w1 !! Transport._webview s = Some (subscribers wv ++ [this]) ∧
  emitted w1 = emitted w ++ [EvListening this] ∧
  ticks w1 = ticks w ++ option_list (TCallback <$> callback) ∧
  Transport._listening <$> servers w1 !! this = Some true ∧
  listen this again w1 = queue_callback again w1.
Proof.
  intros Hs Hl Hd Hwv w1. unfold w1, listen. rewrite Hs, Hl, Hd. cbn [orb].
  assert (Hlen : (this < length (servers w))%nat) by by eapply lookup_lt_Some.
  rewrite !queue_callback_spec. cbn.
  rewrite !list_lookup_alter_eq, Hwv, Hs. cbn. split_and!; done.
Qed.

Lemma listen_twice_subscribes_once_witness :
  let w := (new_server 0%nat "server_A" one_webview).2 in
  (subscribers <$> webviews (listen 0%nat None w) !! 0%nat = Some [0%nat]) ∧
  (subscribers <$> webviews (listen 0%nat (Some 7%nat) (listen 0%nat None w)) !! 0%nat
   = Some [0%nat]).
Proof.
  cbn zeta.
  destruct (listen_twice_subscribes_once 0%nat _ _ None (Some 7%nat)
              (new_server 0%nat "server_A" one_webview).2 eq_refl eq_refl eq_refl eq_refl)
    as (Hsub & _ & _ & _ & Hagain).
  split; [exact Hsub|].
  exact (eq_trans (f_equal (λ w, subscribers <$> webviews w !! 0%nat) Hagain) Hsub).
Defined.

(** The loop of [close] over the in-flight responses. *)
Lemma dispose_all_spec (l : list nat) : ∀ w,
  foldr (λ res w, update_response res Response.dispose w) w l =
    with_responses (λ rs, foldr (alter Response.dispose) rs l) w.
Proof.
  induction l as [|res l IH]; intros w; cbn [foldr].
  - by destruct w.
  - by rewrite IH.
Qed.

Lemma dispose_idem r : Response.dispose (Response.dispose r) = Response.dispose r.
Proof. unfold Response.dispose. by destruct (Response._disposed r) eqn:E; cbn; rewrite ?E. Qed.

Lemma length_foldr_alter (l : list nat) (rs : list Response.VSCodeHttpResponse) :
  length (foldr (alter Response.dispose) rs l) = length rs.
Proof. induction l as [|res l IH]; cbn [foldr]; [done|]. by rewrite length_alter. Qed.

Lemma lookup_dispose_all (l : list nat) (rs : list Response.VSCodeHttpResponse) i :
  foldr (alter Response.dispose) rs l !! i =
    (if bool_decide (i ∈ l) then Response.dispose else id) <$> rs !! i.
Proof.
  induction l as [|res l IH]; cbn [foldr].
  - rewrite bool_decide_eq_false_2 by apply not_elem_of_nil. by destruct (rs !! i).
  - destruct (decide (i = res)) as [->|Hne].
    + rewrite list_lookup_alter_eq, IH.
      rewrite (bool_decide_eq_true_2 (res ∈ res :: l)) by by left.
      destruct (rs !! res) as [r|]; [|done]. cbn.
      destruct (bool_decide (res ∈ l)); [by rewrite dispose_idem|done].
    + rewrite list_lookup_alter_ne, IH by done.
      destruct (rs !! i) as [r|]; [|done]. cbn. f_equal.
      destruct (decide (i ∈ l)) as [Hin|Hnin].
      * by rewrite !bool_decide_eq_true_2 by (try right; done).
      * rewrite !bool_decide_eq_false_2; [done| |done].
        rewrite elem_of_cons. tauto.
Qed.

(** The server object after [close]. *)
Definition closed s : Transport.VSCodeHttpTransportServer :=
  {| Transport.listening := Transport.listening s;
     Transport._webview := Transport._webview s;
     Transport._listening := false; Transport._disposed := true;
     Transport._disposables := []; Transport._pendingResponses := ∅;
     Transport._messageHandlerLock := Transport._messageHandlerLock s;
     Transport._instanceId := Transport._instanceId s |}.

Lemma close_listening this s callback w :
  servers w !! this = Some s →
  Transport._listening s = true → Transport._disposed s = false →
  close this callback w =
    {| webviews :=
         alter (λ wv, {| posted := posted wv; gone := gone wv;
                         subscribers := filter (λ sub, sub ≠ this) (subscribers wv) |})
           (Transport._webview s) (webviews w);
       requests := requests w;
       responses :=
         foldr (alter Response.dispose) (responses w)
           (elements (Transport._pendingResponses s));
       servers := <[this := closed s]> (servers w);
       webviewServerRegistry :=
         if bool_decide (webviewServerRegistry w !! Transport._webview s = Some this)
         then base.delete (Transport._webview s) (webviewServerRegistry w)
         else webviewServerRegistry w;
       emitted := emitted w ++ [EvClose this];
       ticks := ticks w ++ option_list (TCallback <$> callback);
       now := now w |}.
Proof.
  intros Hs Hl Hd. unfold close. rewrite Hs, Hl, Hd. cbn [negb orb].
  unfold set_fold. cbn [compose]. rewrite dispose_all_spec, queue_callback_spec.
  assert (Hlen : (this < length (servers w))%nat) by by eapply lookup_lt_Some.
  assert (Hsrv : alter closed this (servers w) = <[this := closed s]> (servers w)).
  { apply list_eq. intros i. destruct (decide (i = this)) as [->|Hne].
    - by rewrite list_lookup_alter_eq, list_lookup_insert_eq, Hs by done.
    - by rewrite list_lookup_alter_ne, list_lookup_insert_ne by done. }
  cbn. fold (closed). rewrite <- Hsrv.
  by destruct (bool_decide (webviewServerRegistry w !! Transport._webview s = Some this)).
Qed.

(** X15. [close] on a listening server gives up what is in flight: every
    response of the in-flight set is disposed, so that an [end] that comes
    later sends nothing for its request; the handler is unsubscribed, the
    server leaves the registry if it was the registered one, 'close' is
    emitted and the callback queued.  The server then ignores every
    message, and [listen] and [close] do no more than queue their
    callback: a closed server cannot be opened again. *)
Theorem close_gives_up_in_flight `{Runtime} this s callback w :
  servers w !! this = Some s →
  Transport._listening s = true → Transport._disposed s = false →
  let w' := close this callback w in
  (∀ res, responses w' !! res =
          (if bool_decide (res ∈ Transport._pendingResponses s)
           then Response.dispose else id) <$> responses w !! res) ∧
  (∀ res chunk, res ∈ Transport._pendingResponses s → end_ res chunk w' = w') ∧
  servers w' !! this = Some (closed s) ∧
  (∀ wv, webviews w !! Transport._webview s = Some wv →
         webviews w' !! Transport._webview s =
           Some {| posted := posted wv; gone := gone wv;
                   subscribers := filter (λ sub, sub ≠ this) (subscribers wv) |}) ∧
  webviewServerRegistry w' !! Transport._webview s ≠ Some this ∧
  emitted w' = emitted w ++ [EvClose this] ∧
  ticks w' = ticks w ++ option_list (TCallback <$> callback) ∧
  (∀ on_request message, _handleMessage on_request this message w' = w') ∧
  (∀ again, listen this again w' = queue_callback again w' ∧
            close this again w' = queue_callback again w').
Proof.
  intros Hs Hl Hd w'.
  assert (E : w' = _) by exact (close_listening this s callback w Hs Hl Hd).
  assert (Hlen : (this < length (servers w))%nat) by by eapply lookup_lt_Some.
  assert (Hres : ∀ res, responses w' !! res =
          (if bool_decide (res ∈ Transport._pendingResponses s)
           then Response.dispose else id) <$> responses w !! res).
  { intros res. rewrite E. cbn [responses]. rewrite lookup_dispose_all.
    destruct (responses w !! res) as [r|]; [|done]. cbn. f_equal.
    by rewrite (bool_decide_ext _ _ (elem_of_elements (Transport._pendingResponses s) res)). }
  assert (Hsrv : servers w' !! this = Some (closed s)).
  { rewrite E. cbn [servers]. by rewrite list_lookup_insert_eq. }
  split_and!.
  - exact Hres.
  - intros res chunk Hin. unfold end_. rewrite Hres.
    rewrite bool_decide_eq_true_2 by done.
    destruct (responses w !! res) as [r|]; [|done]. cbn.
    assert (Hdis : Response._disposed (Response.dispose r) = true).
    { unfold Response.dispose. by destruct (Response._disposed r) eqn:Ed. }
    by rewrite Hdis, orb_true_r.
  - exact Hsrv.
  - intros wv Hwv. rewrite E. cbn [webviews]. by rewrite list_lookup_alter_eq, Hwv.
  - rewrite E. cbn [webviewServerRegistry].
    destruct (bool_decide _) eqn:Eb.
    + by rewrite lookup_delete_eq.
    + by apply bool_decide_eq_false_1 in Eb.
  - by rewrite E.
  - by rewrite E.
  - intros on_request message. unfold _handleMessage. rewrite Hsrv.
    change (Transport._disposed (closed s)) with true. by rewrite orb_true_r.
  - intros again. unfold listen, close. rewrite Hsrv.
    change (Transport._disposed (closed s)) with true. by rewrite !orb_true_r.
Qed.

(** "server_A" with the request "req-1" in flight. *)
Definition one_in_flight : World :=
  _handleMessage no_listener 0%nat (request_for None) listening_server.

Lemma close_gives_up_in_flight_witness :
  (Transport._listening <$> servers one_in_flight !! 0%nat = Some true) ∧
  (Transport._disposed <$> servers one_in_flight !! 0%nat = Some false) ∧
  (elements <$> (Transport._pendingResponses <$> servers one_in_flight !! 0%nat)
   = Some [0%nat]) ∧
  let w' := close 0%nat None one_in_flight in
  @end_ JsonRef.runtime 0%nat (JStr "late") w' = w' ∧
  posted <$> webviews w' !! 0%nat = Some [].
Proof.
  split; [reflexivity|]. split; [reflexivity|]. split; [reflexivity|]. cbn zeta.
  destruct (@close_gives_up_in_flight JsonRef.runtime 0%nat
              (Transport.with_pendingResponses (λ set, {[0%nat]} ∪ set) server_A)
              None one_in_flight eq_refl eq_refl eq_refl) as (_ & Hend & _ & Hwv & _).
  split.
  - apply Hend. apply elem_of_union_l, elem_of_singleton. reflexivity.
  - exact (f_equal (fmap posted) (Hwv _ eq_refl)).
Defined.

(** *** Several servers on one webview *)

(** X16. Constructing a server registers it for its webview, whether or not it
    ever listens.  From then on every server made earlier for that webview
    leaves all messages alone; the new server takes none either until it
    listens; and [close] on the new server, as long as it has not listened,
    only queues its callback and leaves it registered. *)
Theorem newer_server_silences_older on_request this s instanceId message callback w :
  servers w !! this = Some s →
  let newer := length (servers w) in
  let w1 := (new_server (Transport._webview s) instanceId w).2 in
  isPrimaryServer newer w1 = true ∧ isPrimaryServer this w1 = false ∧
  _handleMessage on_request this message w1 = w1 ∧
  _handleMessage on_request newer message w1 = w1 ∧
  close newer callback w1 = queue_callback callback w1 ∧
  _handleMessage on_request this message (close newer callback w1)
    = close newer callback w1.
Proof.
  intros Hs newer w1.
  assert (Hlen : (this < length (servers w))%nat) by by eapply lookup_lt_Some.
  assert (Hthis : servers w1 !! this = Some s).
  { cbn. by rewrite lookup_app_l. }
  assert (Hnewer : ∃ s', servers w1 !! newer = Some s' ∧
                     Transport._listening s' = false ∧ Transport._disposed s' = false ∧
                     Transport._webview s' = Transport._webview s).
  { eexists. split.
    - cbn. unfold newer. by rewrite lookup_app_r, Nat.sub_diag by lia.
    - done. }
  destruct Hnewer as (s' & Hs' & Hl' & Hd' & Hwv').
  assert (Hreg : webviewServerRegistry w1 !! Transport._webview s = Some newer).
  { cbn. apply lookup_insert_eq. }
  assert (Hyield : yields_to_registered this (Transport._webview s) w1 = true).
  { unfold yields_to_registered, isDisposed. rewrite Hreg, Hs', Hd'.
    rewrite bool_decide_eq_false_2 by (unfold newer; lia). done. }
  assert (Hquiet : ∀ w2, servers w2 = servers w1 →
            webviewServerRegistry w2 = webviewServerRegistry w1 →
            _handleMessage on_request this message w2 = w2).
  { intros w2 E1 E2. unfold _handleMessage. rewrite E1, Hthis.
    assert (Hy : yields_to_registered this (Transport._webview s) w2 = true).
    { unfold yields_to_registered, isDisposed in *. by rewrite E1, E2. }
    rewrite Hy.
    by destruct (Transport._messageHandlerLock s || Transport._disposed s
                 || negb (Transport._listening s)), (negb (isRequestMessage message)). }
  assert (Hclose : close newer callback w1 = queue_callback callback w1).
  { unfold close. by rewrite Hs', Hl'. }
  split_and!.
  - unfold isPrimaryServer. rewrite Hs', Hwv', Hreg. by apply bool_decide_eq_true_2.
  - unfold isPrimaryServer. rewrite Hthis, Hreg. apply bool_decide_eq_false_2.
    unfold newer. intros [=]. lia.
  - by apply Hquiet.
  - unfold _handleMessage. rewrite Hs', Hl'. by rewrite orb_true_r.
  - exact Hclose.
  - rewrite Hclose. apply Hquiet; by rewrite queue_callback_spec.
Qed.

Lemma newer_server_silences_older_witness :
  let w1 := (new_server 0%nat "server_B" listening_server).2 in
  servers listening_server !! 0%nat = Some server_A ∧
  emitted (_handleMessage no_listener 0%nat (request_for None) listening_server)
    = [EvListening 0%nat; EvRequest 0%nat 0%nat 0%nat] ∧
  _handleMessage no_listener 0%nat (request_for None) w1 = w1.
Proof.
  cbn zeta. split; [reflexivity|]. split; [reflexivity|].
  destruct (newer_server_silences_older no_listener 0%nat server_A "server_B"
              (request_for None) None listening_server eq_refl) as (_ & _ & Hq & _).
  exact Hq.
Defined.

(** X17. When the server registered for a webview, having listened, is closed,
    the webview has no registered server any more, and every other server
    that listens on it takes requests again, although none of them is the
    primary server. *)
Theorem closing_registered_server_frees_webview this s other s' callback message w :
  servers w !! this = Some s → servers w !! other = Some s' → other ≠ this →
  Transport._webview s' = Transport._webview s →
  webviewServerRegistry w !! Transport._webview s = Some other →
  Transport._listening s' = true → Transport._disposed s' = false →
  Transport._listening s = true → Transport._disposed s = false →
  Transport._messageHandlerLock s = false →
  isRequestMessage message = true →
  let w' := close other callback w in
  _handleMessage no_listener this message w = w ∧
  webviewServerRegistry w' !! Transport._webview s = None ∧
  isPrimaryServer this w' = false ∧
  emitted (_handleMessage no_listener this message w') =
    emitted w ++ [EvClose other;
                  EvRequest this (length (requests w)) (length (responses w))].
Proof.
  intros Hs Hs' Hne Hwv Hreg Hl' Hd' Hl Hd Hlock Hreq w'.
  assert (E : w' = _) by exact (close_listening other s' callback w Hs' Hl' Hd').
  assert (Hlen : (other < length (servers w))%nat) by by eapply lookup_lt_Some.
  assert (Hnone : webviewServerRegistry w' !! Transport._webview s = None).
  { rewrite E. cbn [webviewServerRegistry]. rewrite Hwv, Hreg.
    rewrite bool_decide_eq_true_2 by done. apply lookup_delete_eq. }
  assert (Hthis : servers w' !! this = Some s).
  { rewrite E. cbn [servers]. by rewrite list_lookup_insert_ne. }
  split_and!.
  - unfold _handleMessage. rewrite Hs, Hlock, Hd, Hl, Hreq. cbn.
    unfold yields_to_registered, isDisposed. rewrite Hreg, Hs', Hd'.
    by rewrite bool_decide_eq_false_2.
  - exact Hnone.
  - unfold isPrimaryServer. by rewrite Hthis, Hnone.
  - assert (Hready : ready this s w').
    { split; try done. unfold yields_to_registered. by rewrite Hnone. }
    rewrite (handleMessage_returns this s message w' Hready Hreq).
    cbn [handled emitted]. rewrite E. cbn [emitted requests responses].
    rewrite length_foldr_alter, <- app_assoc. done.
Qed.

(** The server "server_B" of [two_servers]. *)
Definition server_B : Transport.VSCodeHttpTransportServer :=
  {| Transport.listening := false; Transport._webview := 0%nat;
     Transport._listening := true; Transport._disposed := false;
     Transport._disposables := [1%nat]; Transport._pendingResponses := ∅;
     Transport._messageHandlerLock := false; Transport._instanceId := "server_B" |}.

Lemma closing_registered_server_frees_webview_witness :
  servers two_servers !! 0%nat = Some server_A ∧
  servers two_servers !! 1%nat = Some server_B ∧
  webviewServerRegistry two_servers !! 0%nat = Some 1%nat ∧
  isRequestMessage (request_for None) = true ∧
  emitted (_handleMessage no_listener 0%nat (request_for None)
             (close 1%nat None two_servers))
    = emitted two_servers ++ [EvClose 1%nat; EvRequest 0%nat 0%nat 0%nat].
Proof.
  split; [reflexivity|]. split; [reflexivity|]. split; [reflexivity|].
  split; [reflexivity|].
  destruct (closing_registered_server_frees_webview 0%nat server_A 1%nat server_B None
              (request_for None) two_servers eq_refl eq_refl) as (_ & _ & _ & Hem);
    [discriminate|reflexivity..|exact Hem].
Defined.

(** *** The body of a request *)

Section RequestBodyFacts.
Context `{Runtime}.
Import RequestBody.

(** X18. The request object made for a message and the events of its body.
    With a body and no 'content-type' header of a non-empty value (under
    that lower-case name), the header is set to 'application/json'.  On the
    next tick a request without body emits 'end' only and gets no
    'content-length'; a request with a body emits 'data' with the body
    itself if it is a string, else with its JSON text, and then 'end', and
    its 'content-length' is the length of that chunk. *)
Theorem request_body_events message w :
  let req := length (requests w) in
  let w1 := (new_request message w).2 in
  let given := default ∅ (msg_headers message) in
  let headers1 :=
    if negb (is_undefined (msg_body message)) && negb (truthy (given !! "content-type"))
    then <["content-type" := "application/json"]> given else given in
  (Request.headers <$> requests w1 !! req = Some headers1) ∧
  ticks w1 = ticks w ++ [TRequestBody req] ∧
  (msg_body message = JUndefined →
   ∃ w2, body_events req w1 = Some w2 ∧
         emitted w2 = emitted w ++ [EvEnd req] ∧
         Request.headers <$> requests w2 !! req = Some given) ∧
  (∀ text,
     msg_body message = JStr text ∨
     (typeof (msg_body message) ≠ TyString ∧ msg_body message ≠ JUndefined ∧
      JSON_stringify (msg_body message) = JStr text) →
     ∃ w2, body_events req w1 = Some w2 ∧
           emitted w2 = emitted w ++ [EvData req text; EvEnd req] ∧
           Request.headers <$> requests w2 !! req =
             Some (<["content-length" := pretty (Z.of_nat (String.length text))]>
                     headers1)).
Proof.
  cbn zeta. unfold body_events.
  cbn [new_request snd requests with_requests nextTick ticks].
  rewrite lookup_app_r, Nat.sub_diag by lia. cbn [lookup list_lookup Request.body].
  split; [done|]. split; [done|]. split.
  - intros ->. cbn. eexists. split; [done|].
    cbn. by rewrite lookup_app_r, Nat.sub_diag by lia.
  - intros text Hbody.
    assert (Hdef : is_undefined (msg_body message) = false).
    { destruct Hbody as [->|(_ & Hne & _)]; [done|]. by destruct (msg_body message). }
    rewrite Hdef. cbn [negb andb].
    assert (Hstr : match msg_body message with
                   | JStr text => JStr text
                   | body => JSON_stringify body
                   end = JStr text).
    { destruct Hbody as [->|(Hty & _ & Hjson)]; [done|].
      by destruct (msg_body message). }
    rewrite Hstr. eexists. split; [done|]. cbn.
    rewrite <- app_assoc. split; [done|].
    by rewrite list_lookup_alter_eq, lookup_app_r, Nat.sub_diag by lia.
Qed.

End RequestBodyFacts.

Lemma request_body_events_witness :
  let message :=
    {| msg_id := "req-2"; msg_type := MRequest; msg_method := Some POST;
       msg_url := Some "/x"; msg_headers := Some {[ "Content-Type" := "text/plain" ]};
       msg_body := JStr "hello"; msg_status := None; msg_error := None;
       msg_stack := None; msg_instanceId := None; msg_timestamp := 0 |} in
  msg_body message = JStr "hello" ∧
  ∃ w2, @RequestBody.body_events JsonRef.runtime 0%nat (new_request message one_webview).2
          = Some w2 ∧
        emitted w2 = [EvData 0%nat "hello"; EvEnd 0%nat] ∧
        Request.headers <$> requests w2 !! 0%nat =
          Some (<["content-length" := "5"]>
                  (<["content-type" := "application/json"]>
                     {[ "Content-Type" := "text/plain" ]})).
Proof.
  cbn zeta. split; [reflexivity|].
  destruct (@request_body_events JsonRef.runtime
              {| msg_id := "req-2"; msg_type := MRequest; msg_method := Some POST;
                 msg_url := Some "/x";
                 msg_headers := Some {[ "Content-Type" := "text/plain" ]};
                 msg_body := JStr "hello"; msg_status := None; msg_error := None;
                 msg_stack := None; msg_instanceId := None; msg_timestamp := 0 |}
              one_webview) as (_ & _ & _ & Hbody).
  destruct (Hbody "hello" (or_introl eq_refl)) as (w2 & Hev & Hem & Hh).
  exists w2. split; [exact Hev|]. split; [exact Hem|exact Hh].
Defined.

(** *** A server from its constructor *)

(** The server the constructor makes, once it listens. *)
Definition constructed (webview : nat) (generated : string) (this : nat)
  : Transport.VSCodeHttpTransportServer :=
  {| Transport.listening := false; Transport._webview := webview;
     Transport._listening := true; Transport._disposed := false;
     Transport._disposables := [this]; Transport._pendingResponses := ∅;
     Transport._messageHandlerLock := false;
     Transport._instanceId := "server_" +:+ generated |}.

Lemma construct_listen_ready webview generated callback wv w :
  webviews w !! webview = Some wv →
  let this := length (servers w) in
  let w1 := listen this callback (ServerInstance.construct webview generated w).2 in
  ready this (constructed webview generated this) w1 ∧
  responses w1 = responses w ∧
  webviews w1 !! webview =
    Some {| posted := posted wv; gone := gone wv;
            subscribers := subscribers wv ++ [this] |}.
Proof.
  intros Hwv this w1.
  assert (Hs : servers (ServerInstance.construct webview generated w).2 !! this
               = Some {| Transport.listening := false; Transport._webview := webview;
                         Transport._listening := false; Transport._disposed := false;
                         Transport._disposables := [];
                         Transport._pendingResponses := ∅;
                         Transport._messageHandlerLock := false;
                         Transport._instanceId := "server_" +:+ generated |}).
  { cbn. by rewrite lookup_app_r, Nat.sub_diag by lia. }
  unfold w1, listen. rewrite Hs. cbn [Transport._listening Transport._disposed orb].
  rewrite queue_callback_spec.
  unfold emit, subscribe, update_server, with_servers, with_webviews.
  cbn [webviews requests responses servers webviewServerRegistry emitted ticks now
       Transport._webview].
  split_and!.
  - split.
    + cbn [servers]. rewrite list_lookup_alter_eq, Hs. done.
    + done.
    + done.
    + done.
    + unfold yields_to_registered.
      cbn [webviewServerRegistry ServerInstance.construct new_server with_registry
           with_servers snd Transport._webview constructed].
      rewrite lookup_insert_eq. fold this.
      by rewrite (bool_decide_eq_true_2 (this = this)).
  - done.
  - cbn [ServerInstance.construct new_server with_registry with_servers snd webviews].
    by rewrite list_lookup_alter_eq, Hwv.
Qed.

(** The envelope of the answer, for a listener that returns and a
    framework that ends the response afterwards. *)
Lemma answer_posted `{Runtime} this s message chunk wv w :
  ready this s w → isRequestMessage message = true →
  webviews w !! Transport._webview s = Some wv → gone wv = false →
  ∃ answer,
    posted <$>
      webviews (end_ (length (responses w)) chunk
                  (_handleMessage no_listener this message w))
        !! Transport._webview s
      = Some (posted wv ++ [answer]) ∧
    msg_type answer = MResponse ∧ msg_id answer = msg_id message ∧
    msg_instanceId answer =
      (if truthy (Some (Transport._instanceId s)) then Some (Transport._instanceId s)
       else None).
Proof.
  intros Hready Hreq Hwv Hgone.
  rewrite (handleMessage_returns this s message w Hready Hreq).
  set (w1 := handled this s message w).
  set (r0 := Response.once_finish (Response.Untrack this)
               (Response.new (msg_id message) (Transport._webview s)
                  (Transport._instanceId s))).
  assert (Hr0 : responses w1 !! length (responses w) = Some r0).
  { cbn. by rewrite lookup_app_r, Nat.sub_diag by lia. }
  assert (Hopen : open r0) by by repeat split.
  destruct (end_open_posts (length (responses w)) chunk r0 wv w1 Hr0 Hopen Hwv Hgone)
    as (Hwvs & _ & _).
  exists (Response.responseMessage (now w1) (Response.end_mark chunk r0)).
  split; [|done].
  rewrite Hwvs. change (Response._webview r0) with (Transport._webview s).
  rewrite list_lookup_alter_eq. change (webviews w1) with (webviews w).
  by rewrite Hwv.
Qed.

(** The envelope of the error, for a listener that throws at once. *)
Lemma failure_posted this s message error wv w :
  ready this s w → isRequestMessage message = true →
  webviews w !! Transport._webview s = Some wv → gone wv = false →
  ∃ failure,
    posted <$>
      webviews (_handleMessage (λ _ _ w, (w, Some error)) this message w)
        !! Transport._webview s
      = Some (posted wv ++ [failure]) ∧
    msg_type failure = MError ∧ msg_id failure = msg_id message ∧
    msg_status failure = Some 500 ∧
    msg_instanceId failure =
      (if truthy (Some (Transport._instanceId s)) then Some (Transport._instanceId s)
       else None).
Proof.
  intros Hready Hreq Hwv Hgone.
  rewrite (handleMessage_throws this s message error w Hready Hreq).
  pose proof (ready_server _ _ _ Hready) as Hs.
  pose proof (ready_alive _ _ _ Hready) as Hd.
  assert (Hlen : (this < length (servers w))%nat) by by eapply lookup_lt_Some.
  unfold _sendErrorResponse. cbn [handled servers].
  rewrite list_lookup_insert_eq by done.
  cbn [Transport._disposed Transport.with_pendingResponses Transport._webview
       Transport._instanceId]. rewrite Hd.
  unfold try_postMessage, postMessage. cbn [webviews now handled]. rewrite Hwv, Hgone.
  unfold default. cbn [from_option id with_webviews webviews].
  rewrite list_lookup_alter_eq. cbn [webviews handled]. rewrite Hwv.
  cbn [fmap option_fmap option_map posted].
  eexists. split; [reflexivity|]. done.
Qed.

End TransportMore.

(** ** The two sides together *)

Module EndToEnd.
Import Js Protocol.

(** *** The body, from [write] to [json()] *)

(** [JSON.parse] gives an object or an array, and not [null], for a text
    that begins with "{" or "[". *)
Definition parses_objects `{Runtime} : Prop :=
  ∀ text v,
    startsWith "{" text || startsWith "[" text = true →
    JSON_parse text = Some v →
    typeof v = TyObject ∧ nullish v = false.

Lemma value_object fuel (c : Ascii.ascii) rest x :
  c = Ascii.ascii_of_N 123 ∨ c = Ascii.ascii_of_N 91 →
  JsonRef.value (S fuel) (String c rest) = Some x →
  typeof x.1 = TyObject ∧ nullish x.1 = false.
Proof.
  intros [-> | ->] Hv; cbn [JsonRef.value] in Hv; cbn in Hv;
    repeat case_match; simplify_eq;
    try (destruct (JsonRef.members _ _ _) as [[? ?]|]; simplify_eq/=);
    try (destruct (JsonRef.elements _ _ _) as [[? ?]|]; simplify_eq/=);
    done.
Qed.

Lemma reference_parses_objects : @parses_objects JsonRef.runtime.
Proof.
  intros text v Hstart Hparse. change (JsonRef.parse text = Some v) in Hparse.
  unfold JsonRef.parse in Hparse.
  destruct text as [|c rest]; [done|].
  assert (Hc : c = Ascii.ascii_of_N 123 ∨ c = Ascii.ascii_of_N 91).
  { unfold startsWith in Hstart. cbn [String.prefix] in Hstart.
    destruct (Ascii.ascii_dec _ c) as [<-|]; [by left|].
    destruct (Ascii.ascii_dec _ c) as [<-|]; [by right|done]. }
  destruct (JsonRef.value (S (String.length (String c rest))) (String c rest))
    as [[v' rest']|] eqn:Hv; [|done].
  cbn [mbind option_bind] in Hparse. destruct (JsonRef.skip_ws rest'); [|done].
  injection Hparse as <-. exact (value_object _ _ _ _ Hc Hv).
Qed.

(** X20. The response object the client builds from the envelope the server
    sends exists exactly when [Headers] accepts the headers of the server's
    response.  What its [json()] gives is what [JSON.parse] makes of the
    text the framework wrote, the chunks put together: on the server the
    text is parsed when it begins with "{" or "[" and sent as a string
    otherwise, and on the client a string is parsed and an object passed
    on.  Where the text is no JSON, [json()] rejects with 'Response is not
    valid JSON' and [text()] gives the text as written.  The status the
    client sees is the status code of the response. *)
Theorem json_reads_what_the_server_wrote `{Runtime} r timestamp url :
  parses_objects →
  Server.Response._body r ≠ [] →
  let written := join "" (Server.Response._body r) in
  match Client.Response.new (Server.Response.responseMessage timestamp r) url with
  | Some answer =>
      Client.Response.Headers_accepts (Server.Response.headers r) = true ∧
      (Client.Response.json answer).1 =
        match JSON_parse written with
        | Some v => Client.Fulfilled v
        | None => Client.Rejected "Response is not valid JSON"
        end ∧
      (JSON_parse written = None →
       (Client.Response.text answer).1 = Client.Fulfilled (JStr written)) ∧
      Client.Response.status answer = Some (Server.Response.statusCode r)
  | None => Client.Response.Headers_accepts (Server.Response.headers r) = false
  end.
Proof.
  intros Hobj Hne written. unfold Client.Response.new.
  change (default ∅ (msg_headers (Server.Response.responseMessage timestamp r)))
    with (Server.Response.headers r).
  destruct (Client.Response.Headers_accepts (Server.Response.headers r)); [|done].
  split; [done|].
  match goal with |- context [Client.Response.json ?x] => set (answer := x) end.
  assert (Hbody : Client.Response._body answer =
            if startsWith "{" written || startsWith "[" written then
              match JSON_parse written with
              | Some parsed => parsed
              | None => JStr written
              end
            else JStr written).
  { unfold answer, Server.Response.responseMessage,
      Server.Response._combineBody. cbn [Client.Response._body msg_body].
    fold written. destruct (Server.Response._body r); [done|].
    by rewrite bool_decide_eq_true_2 by (cbn; lia). }
  unfold Client.Response.json, Client.Response.text. rewrite Hbody.
  split; [|split; [|done]].
  - destruct (startsWith "{" written || startsWith "[" written) eqn:Hstart.
    + destruct (JSON_parse written) as [v|] eqn:Hparse.
      * destruct (Hobj written v Hstart Hparse) as [Hty Hnull]. by rewrite Hnull, Hty.
      * cbn. by rewrite Hparse.
    + cbn. by destruct (JSON_parse written).
  - intros ->. by destruct (startsWith "{" written || startsWith "[" written).
Qed.

Lemma json_reads_what_the_server_wrote_witness :
  let r := ResponseUse.after
             [ResponseUse.SetHeader "Content-Type" "application/json";
              ResponseUse.Write (JStr "[1,"); ResponseUse.Write (JStr "2]")]
             (Server.Response.new "req-1" 0%nat "server_A") in
  let answer :=
    {| Client.Response.status := Some 200; Client.Response.statusText := "OK";
       Client.Response.headers := {[ "content-type" := "application/json" ]};
       Client.Response.ok := true; Client.Response.url := "/x";
       Client.Response._body := JArr [JNum 1; JNum 2] |} in
  @parses_objects JsonRef.runtime ∧
  Server.Response._body r ≠ [] ∧
  Client.Response.new (@Server.Response.responseMessage JsonRef.runtime 0 r) "/x"
    = Some answer ∧
  (@Client.Response.json JsonRef.runtime answer).1
    = Client.Fulfilled (JArr [JNum 1; JNum 2]).
Proof.
  cbv zeta. split; [exact reference_parses_objects|]. split; [discriminate|].
  match goal with |- ?new = Some ?answer ∧ _ =>
    assert (Hnew : new = Some answer) by (vm_compute; reflexivity) end.
  split; [exact Hnew|].
  pose proof (@json_reads_what_the_server_wrote JsonRef.runtime
                (ResponseUse.after
                   [ResponseUse.SetHeader "Content-Type" "application/json";
                    ResponseUse.Write (JStr "[1,"); ResponseUse.Write (JStr "2]")]
                   (Server.Response.new "req-1" 0%nat "server_A"))
                0 "/x" reference_parses_objects ltac:(discriminate)) as Hread.
  cbv zeta in Hread. rewrite Hnew in Hread.
  exact (proj1 (proj2 Hread)).
Defined.

End EndToEnd.

(** ** [fetch] *)

Module FetchFacts.
Import Js Protocol Client Fetch.

Implicit Types (pg : Page) (w : World) (c : VSCodeHttpClient).

(** *** URLs *)

Lemma includes_prefix p s : String.prefix p s = true → includes p s = true.
Proof. intros Hp. destruct s; cbn [includes]; by rewrite Hp. Qed.

Lemma includes_cons p a s :
  includes p (String a s) = String.prefix p (String a s) || includes p s.
Proof. done. Qed.

Lemma prefix_slash a s :
  String.prefix "/" (String a s) = is_slash a.
Proof.
  change (String.prefix "/" (String a s))
    with (if Ascii.ascii_dec (Ascii.ascii_of_N 47) a then String.prefix "" s else false).
  destruct (Ascii.ascii_dec (Ascii.ascii_of_N 47) a) as [<-|Hne]; [by destruct s|].
  symmetry. apply N.eqb_neq. intros Heq. apply Hne.
  rewrite <- (Ascii.ascii_N_embedding a), Heq. done.
Qed.

Lemma collapse_slashes_start s :
  startsWith "/" (collapse_slashes s) = startsWith "/" s.
Proof.
  unfold startsWith. induction s as [|a s IH]; [done|]. cbn [collapse_slashes].
  destruct (is_slash a && startsWith "/" s) eqn:E.
  - apply andb_true_iff in E as [Ha Hs]. unfold startsWith in Hs.
    by rewrite IH, Hs, prefix_slash, Ha.
  - by rewrite !prefix_slash.
Qed.

Lemma collapse_slashes_single s : includes "//" (collapse_slashes s) = false.
Proof.
  induction s as [|a s IH]; [done|]. cbn [collapse_slashes].
  destruct (is_slash a && startsWith "/" s) eqn:E; [done|].
  rewrite includes_cons, IH, orb_false_r.
  change (String.prefix "//" (String a (collapse_slashes s)))
    with (if Ascii.ascii_dec (Ascii.ascii_of_N 47) a then String.prefix "/" (collapse_slashes s) else false).
  destruct (Ascii.ascii_dec (Ascii.ascii_of_N 47) a) as [<-|]; [|done].
  pose proof (collapse_slashes_start s) as Hstart. unfold startsWith in *.
  rewrite Hstart. by destruct (String.prefix "/" s).
Qed.

Lemma no_double_slash_no_scheme s : includes "//" s = false → includes "://" s = false.
Proof.
  induction s as [|a s IH]; [done|]. rewrite !includes_cons.
  intros [Hp Hi]%orb_false_elim. rewrite IH, orb_false_r by done.
  change (String.prefix "://" (String a s))
    with (if Ascii.ascii_dec (Ascii.ascii_of_N 58) a then String.prefix "//" s else false).
  destruct (Ascii.ascii_dec (Ascii.ascii_of_N 58) a); [|done].
  destruct (String.prefix "//" s) eqn:E; [|done].
  by rewrite (includes_prefix _ _ E) in Hi.
Qed.

(** X21. [_resolveUrl] returns the URL as given when it begins with a slash,
    contains "://", or the client has no base URL.  Otherwise it joins the
    base URL and the URL with a slash and then collapses every run of
    slashes in the whole string: the result has no "//" in it, so the two
    slashes after the scheme of a base URL like "https://host/api" become
    one. *)
Theorem resolveUrl_collapses_slashes c url :
  (startsWith "/" url = true ∨ includes "://" url = true ∨ _baseUrl c = "" →
   _resolveUrl c url = url) ∧
  (startsWith "/" url = false → includes "://" url = false → _baseUrl c ≠ "" →
   _resolveUrl c url = collapse_slashes (_baseUrl c +:+ "/" +:+ url) ∧
   includes "//" (_resolveUrl c url) = false ∧
   includes "://" (_resolveUrl c url) = false).
Proof.
  unfold _resolveUrl. split.
  - intros [-> | [-> | ->]]; [done|by rewrite orb_true_r|].
    by destruct (_ || _).
  - intros -> -> Hbase. cbn [orb].
    assert (Ht : truthy (Some (_baseUrl c)) = true) by by destruct (_baseUrl c).
    rewrite Ht. split; [done|].
    pose proof (collapse_slashes_single (_baseUrl c +:+ "/" +:+ url)) as Hs.
    split; [done|by apply no_double_slash_no_scheme].
Qed.

(** A client with the base URL "https://host/api/". *)
Definition api_client : VSCodeHttpClient :=
  {| _correlationManager := Correlation.new None; _baseUrl := "https://host/api/";
     _disposed := false; _pendingRequests := ∅; _instanceId := "A" |}.

Lemma resolveUrl_collapses_slashes_witness :
  startsWith "/" "users" = false ∧ includes "://" "users" = false ∧
  _baseUrl api_client ≠ "" ∧
  _resolveUrl api_client "users" = "https:/host/api/users" ∧
  _resolveUrl api_client "/users" = "/users".
Proof.
  assert (H3 : _baseUrl api_client ≠ "") by discriminate.
  split; [reflexivity|]. split; [reflexivity|]. split; [exact H3|].
  destruct (resolveUrl_collapses_slashes api_client "users") as [_ Hjoin].
  destruct (resolveUrl_collapses_slashes api_client "/users") as [Hsame _].
  split; [exact (proj1 (Hjoin eq_refl eq_refl H3))|exact (Hsame (or_introl eq_refl))].
Defined.

(** *** Promises and callbacks *)

Lemma settle_fresh (promises0 : list Promise) outcome w cls out api :
  settle (length promises0) outcome
    {| world := w; closures := cls; promises := promises0 ++ [Pending];
       outbox := out; api_throws := api |}
  = {| world := w; closures := cls; promises := promises0 ++ [outcome];
       outbox := out; api_throws := api |}.
Proof.
  unfold settle. cbn [promises].
  rewrite lookup_app_r, Nat.sub_diag by lia. cbn. f_equal.
  replace (length promises0) with (length promises0 + 0)%nat at 1 by lia.
  by rewrite insert_app_r.
Qed.

(** A manager method that invokes no callback while it runs. *)
Lemma call_manager_quiet this f pg :
  Correlation.calls (env (on_manager this f (world pg)))
    = Correlation.calls (env (world pg)) →
  call_manager this f pg = with_world (on_manager this f) pg.
Proof.
  intros Hcalls. unfold call_manager, run_new_calls. cbn [with_world world].
  by rewrite Hcalls, drop_all.
Qed.

Lemma on_manager_env this c f w :
  clients w !! this = Some c →
  env (on_manager this f w) = (f (_correlationManager c, env w)).2.
Proof. intros Hc. unfold on_manager. rewrite Hc. by destruct (f _). Qed.

Lemma on_manager_client this c f w :
  clients w !! this = Some c →
  clients (on_manager this f w) =
    <[this := {| _correlationManager := (f (_correlationManager c, env w)).1;
                 _baseUrl := _baseUrl c; _disposed := _disposed c;
                 _pendingRequests := _pendingRequests c;
                 _instanceId := _instanceId c |}]> (clients w).
Proof. intros Hc. unfold on_manager. rewrite Hc. by destruct (f _). Qed.

Lemma on_manager_spec this c f w :
  clients w !! this = Some c →
  on_manager this f w =
    {| clients :=
         <[this := {| _correlationManager := (f (_correlationManager c, env w)).1;
                      _baseUrl := _baseUrl c; _disposed := _disposed c;
                      _pendingRequests := _pendingRequests c;
                      _instanceId := _instanceId c |}]> (clients w);
       globalClientRegistry := globalClientRegistry w;
       primaryClient := primaryClient w;
       message_listeners := message_listeners w;
       env := (f (_correlationManager c, env w)).2 |}.
Proof. intros Hc. unfold on_manager. rewrite Hc. by destruct (f _). Qed.

(** *** [fetch] on a disposed client *)

(** X22. [fetch] on a disposed client returns a promise that is rejected with
    'HTTP client has been disposed': nothing is sent, nothing is tracked,
    and the page is otherwise as before. *)
Theorem fetch_on_disposed_client_rejects this c url options correlationId pg :
  clients (world pg) !! this = Some c → _disposed c = true →
  let pg' := fetch this url options correlationId pg in
  promises pg' =
    promises pg ++ [RejectedWith (Error "HTTP client has been disposed")] ∧
  world pg' = world pg ∧ outbox pg' = outbox pg ∧ closures pg' = closures pg.
Proof.
  intros Hc Hd. cbn zeta. unfold fetch. rewrite Hc, Hd.
  by rewrite settle_fresh.
Qed.

(** *** [fetch] on a live client *)

Lemma addPendingRequest_calls this id resolve reject timeout m e :
  Correlation.disposed m = false →
  Correlation.calls (Correlation.addPendingRequest this id resolve reject timeout (m, e)).2
    = Correlation.calls e.
Proof.
  intros Hd. unfold Correlation.addPendingRequest. rewrite Hd.
  by destruct (0 <? _).
Qed.

Lemma fetch_live this c url options correlationId pg :
  clients (world pg) !! this = Some c → _disposed c = false →
  Correlation.disposed (_correlationManager c) = false →
  api_throws pg = None →
  fetch this url options correlationId pg =
    {| world :=
         on_manager this
           (Correlation.addPendingRequest this correlationId (length (closures pg))
              (S (length (closures pg))) (timeout options))
           (update_client this
              (λ c, {| _correlationManager := _correlationManager c;
                       _baseUrl := _baseUrl c; _disposed := _disposed c;
                       _pendingRequests := {[correlationId]} ∪ _pendingRequests c;
                       _instanceId := _instanceId c |}) (world pg));
       closures :=
         closures pg ++ [OnResponse this correlationId (_resolveUrl c url)
                           (length (promises pg));
                         OnError this correlationId (_resolveUrl c url)
                           (length (promises pg))];
       promises := promises pg ++ [Pending];
       outbox :=
         outbox pg
         ++ [{| msg_id := correlationId; msg_type := MRequest;
                msg_method := Some (default GET (method options));
                msg_url := Some (_resolveUrl c url); msg_headers := headers options;
                msg_body := body options; msg_status := None; msg_error := None;
                msg_stack := None;
                msg_instanceId := if truthy (Some (_instanceId c))
                                  then Some (_instanceId c) else None;
                msg_timestamp := Correlation.now (env (world pg)) |}];
       api_throws := None |}.
Proof.
  intros Hc Hd Hm Hapi. destruct pg as [w cls ps out api]. cbn in Hc, Hapi. subst api.
  unfold fetch. cbn [world closures promises outbox api_throws]. rewrite Hc, Hd.
  unfold with_pendingRequests, with_world. cbn [world closures promises outbox api_throws].
  set (c1 := {| _correlationManager := _correlationManager c; _baseUrl := _baseUrl c;
                _disposed := _disposed c;
                _pendingRequests := {[correlationId]} ∪ _pendingRequests c;
                _instanceId := _instanceId c |}).
  match goal with |- context [update_client this ?g w] =>
    set (w1 := update_client this g w) end.
  assert (Hc1 : clients w1 !! this = Some c1).
  { cbn. by rewrite list_lookup_alter_eq, Hc. }
  assert (Hlive : isDisposed this w1 = false).
  { unfold isDisposed. by rewrite Hc1. }
  rewrite Hlive.
  rewrite call_manager_quiet.
  - done.
  - cbn [world]. rewrite (on_manager_env this c1) by done.
    by apply addPendingRequest_calls.
Qed.

(** X23. [fetch] on a client that is not disposed and can post.  The request
    envelope goes to the extension: the id, the method ('GET' if none is
    given), the resolved URL, the headers and body of the options, and the
    client's instance id.  The id joins the client's pending set, the
    manager tracks it with the two closures of this call, armed with a timer
    if the timeout (the option, else the manager's default) is positive, and
    the promise returned is pending. *)
Theorem fetch_sends_and_tracks this c url options correlationId pg :
  clients (world pg) !! this = Some c → _disposed c = false →
  Correlation.disposed (_correlationManager c) = false →
  api_throws pg = None →
  let e := env (world pg) in
  let fullUrl := _resolveUrl c url in
  let p := length (promises pg) in
  let timeoutMs :=
    default (Correlation.defaultTimeout (_correlationManager c)) (timeout options) in
  let pg' := fetch this url options correlationId pg in
  outbox pg' =
    outbox pg
    ++ [{| msg_id := correlationId; msg_type := MRequest;
           msg_method := Some (default GET (method options));
           msg_url := Some fullUrl; msg_headers := headers options;
           msg_body := body options; msg_status := None; msg_error := None;
           msg_stack := None;
           msg_instanceId := if truthy (Some (_instanceId c))
                             then Some (_instanceId c) else None;
           msg_timestamp := Correlation.now e |}] ∧
  promises pg' = promises pg ++ [Pending] ∧
  closures pg' =
    closures pg ++ [OnResponse this correlationId fullUrl p;
                    OnError this correlationId fullUrl p] ∧
  (∃ c', clients (world pg') !! this = Some c' ∧
     _pendingRequests c' = {[correlationId]} ∪ _pendingRequests c ∧
     _disposed c' = false ∧ _instanceId c' = _instanceId c ∧
     Correlation.disposed (_correlationManager c') = false ∧
     JsMap.get correlationId (Correlation.pendingRequests (_correlationManager c')) =
       Some {| Correlation.pr_id := correlationId;
               Correlation.pr_timestamp := Correlation.now e;
               Correlation.pr_resolve := length (closures pg);
               Correlation.pr_reject := S (length (closures pg));
               Correlation.pr_timeout :=
                 if 0 <? timeoutMs then Some (Correlation.next_timer e) else None |}) ∧
  (0 < timeoutMs →
   Correlation.timers (env (world pg')) !! Correlation.next_timer e =
     Some {| Correlation.t_owner := this; Correlation.t_id := correlationId;
             Correlation.t_due := Correlation.now e + timeoutMs |}) ∧
  Correlation.ticks (env (world pg')) = Correlation.ticks e.
Proof.
  intros Hc Hd Hm Hapi. cbn zeta.
  rewrite (fetch_live this c url options correlationId pg Hc Hd Hm Hapi).
  cbn [world closures promises outbox api_throws].
  assert (Hlen : (this < length (clients (world pg)))%nat) by by eapply lookup_lt_Some.
  set (c1 := {| _correlationManager := _correlationManager c; _baseUrl := _baseUrl c;
                _disposed := _disposed c;
                _pendingRequests := {[correlationId]} ∪ _pendingRequests c;
                _instanceId := _instanceId c |}).
  match goal with |- context [update_client this ?g (world pg)] =>
    set (w1 := update_client this g (world pg)) end.
  assert (Hc1 : clients w1 !! this = Some c1).
  { cbn. by rewrite list_lookup_alter_eq, Hc. }
  rewrite (on_manager_env this c1), (on_manager_client this c1) by done.
  rewrite list_lookup_insert_eq by (by unfold w1; cbn; rewrite length_alter).
  unfold Correlation.addPendingRequest. cbn [_correlationManager c1]. rewrite Hm.
  change (env w1) with (env (world pg)).
  split; [done|]. split; [done|]. split; [done|].
  destruct (0 <? default _ _) eqn:HT; cbn.
  - split_and!.
    + eexists. split; [done|]. cbn. split_and!; try done.
      apply JsMapFacts.get_set_eq.
    + intros _. apply lookup_insert_eq.
    + done.
  - split_and!.
    + eexists. split; [done|]. cbn. split_and!; try done.
      apply JsMapFacts.get_set_eq.
    + intros HT'. apply Z.ltb_ge in HT. lia.
    + done.
Qed.

(** *** A request in flight *)

(** The request [id] of client [this] is in flight: the client is in use,
    its manager tracks the id with the two closures of the [fetch] call, and
    the promise of the call is pending. *)
Record in_flight (this : nat) c (r : Correlation.PendingRequest)
  (id fullUrl : string) (p : nat) pg : Prop := {
  fl_client : clients (world pg) !! this = Some c;
  fl_alive : _disposed c = false;
  fl_manager : Correlation.disposed (_correlationManager c) = false;
  fl_tracked :
    JsMap.get id (Correlation.pendingRequests (_correlationManager c)) = Some r;
  fl_resolve : closures pg !! Correlation.pr_resolve r = Some (OnResponse this id fullUrl p);
  fl_reject : closures pg !! Correlation.pr_reject r = Some (OnError this id fullUrl p);
  fl_promise : promises pg !! p = Some Pending;
}.

(** The page after the manager settled the tracked request [id] and the
    event loop took the closure it queued, before the closure's body
    runs. *)
Definition taken (this : nat) c (r : Correlation.PendingRequest) (id : string)
  (cb : nat) (arg : MessageProtocol) pg : Page :=
  {| world :=
       {| clients :=
            <[this := {| _correlationManager :=
                           Correlation.with_pending (JsMap.delete id)
                             (_correlationManager c);
                         _baseUrl := _baseUrl c; _disposed := _disposed c;
                         _pendingRequests := _pendingRequests c;
                         _instanceId := _instanceId c |}]> (clients (world pg));
          globalClientRegistry := globalClientRegistry (world pg);
          primaryClient := primaryClient (world pg);
          message_listeners := message_listeners (world pg);
          env :=
            {| Correlation.timers :=
                 Correlation.timers (CorrelationFacts.untimed r (env (world pg)));
               Correlation.next_timer := Correlation.next_timer (env (world pg));
               Correlation.ticks := [];
               Correlation.heap := Correlation.heap (env (world pg));
               Correlation.calls :=
                 Correlation.calls (env (world pg))
                 ++ [{| Correlation.inv_cb := cb; Correlation.inv_arg := arg |}];
               Correlation.now := Correlation.now (env (world pg)) |} |};
     closures := closures pg; promises := promises pg; outbox := outbox pg;
     api_throws := api_throws pg |}.

Lemma tick_after_resolve this c r id arg cl pg :
  clients (world pg) !! this = Some c →
  Correlation.disposed (_correlationManager c) = false →
  JsMap.get id (Correlation.pendingRequests (_correlationManager c)) = Some r →
  Correlation.ticks (env (world pg)) = [] →
  closures pg !! Correlation.pr_resolve r = Some cl →
  tick (with_world (on_manager this (λ st, (Correlation.resolveRequest id arg st).2)) pg)
  = run_closure cl arg (taken this c r id (Correlation.pr_resolve r) arg pg).
Proof.
  intros Hc Hm Hr Ht Hcl. unfold tick, run_new_calls, with_world.
  cbn [world closures promises outbox api_throws].
  rewrite (on_manager_spec this c) by done.
  rewrite (CorrelationFacts.resolveRequest_tracked id arg r) by done.
  cbn [fst snd clients globalClientRegistry primaryClient message_listeners env].
  destruct (CorrelationFacts.untimed_frame r (env (world pg)))
    as (Hti & Hh & Hca & Hn).
  unfold Correlation.runTick, Correlation.nextTick.
  cbn [Correlation.ticks Correlation.calls Correlation.heap Correlation.timers
       Correlation.next_timer Correlation.now].
  rewrite Hti, Ht, Hca, Hh, Hn, CorrelationFacts.next_timer_untimed.
  cbn [app Correlation.invocation option_list Correlation.calls].
  rewrite drop_app_length.
  match goal with |- context [option_list (Some ?x)] =>
    change (option_list (Some x)) with [x] end.
  cbn [foldl]. unfold run_invocation.
  cbn [closures Correlation.inv_cb Correlation.inv_arg]. by rewrite Hcl.
Qed.

Lemma tick_after_reject this c r id arg cl pg :
  clients (world pg) !! this = Some c →
  Correlation.disposed (_correlationManager c) = false →
  JsMap.get id (Correlation.pendingRequests (_correlationManager c)) = Some r →
  Correlation.ticks (env (world pg)) = [] →
  closures pg !! Correlation.pr_reject r = Some cl →
  tick (with_world (on_manager this (λ st, (Correlation.rejectRequest id arg st).2)) pg)
  = run_closure cl arg (taken this c r id (Correlation.pr_reject r) arg pg).
Proof.
  intros Hc Hm Hr Ht Hcl. unfold tick, run_new_calls, with_world.
  cbn [world closures promises outbox api_throws].
  rewrite (on_manager_spec this c) by done.
  rewrite (CorrelationFacts.rejectRequest_tracked id arg r) by done.
  cbn [fst snd clients globalClientRegistry primaryClient message_listeners env].
  destruct (CorrelationFacts.untimed_frame r (env (world pg)))
    as (Hti & Hh & Hca & Hn).
  unfold Correlation.runTick, Correlation.nextTick.
  cbn [Correlation.ticks Correlation.calls Correlation.heap Correlation.timers
       Correlation.next_timer Correlation.now].
  rewrite Hti, Ht, Hca, Hh, Hn, CorrelationFacts.next_timer_untimed.
  cbn [app Correlation.invocation option_list Correlation.calls].
  rewrite drop_app_length.
  match goal with |- context [option_list (Some ?x)] =>
    change (option_list (Some x)) with [x] end.
  cbn [foldl]. unfold run_invocation.
  cbn [closures Correlation.inv_cb Correlation.inv_arg]. by rewrite Hcl.
Qed.

(** What the two closures settle the promise with, on a client that is
    not disposed; [None] where the constructor of the response throws and
    the closure is left before it settles anything. *)
Definition response_outcome (message : MessageProtocol) (fullUrl : string)
  : option Promise :=
  match Response.new message fullUrl with
  | Some httpResponse =>
      Some (if Response.ok httpResponse then Resolved httpResponse
            else RejectedWith
                   (VSCodeHttpError
                      ("HTTP " +:+ status_text (msg_status message) +:+ ": "
                       +:+ Response.statusText httpResponse)
                      (msg_status message) httpResponse))
  | None => None
  end.

(** The response the error closure builds: its envelope has no headers, so
    [Headers] takes it. *)
Definition error_response (error : MessageProtocol) (fullUrl : string)
  : Response.VSCodeHttpResponse :=
  {| Response.status := msg_status error;
     Response.statusText := Response._getStatusText (msg_status error);
     Response.headers := ∅;
     Response.ok := match msg_status error with
                    | Some n => (200 <=? n) && (n <? 300)
                    | None => false
                    end;
     Response.url := fullUrl;
     Response._body := JObj [("error", match msg_error error with
                                       | Some text => JStr text
                                       | None => JUndefined
                                       end)] |}.

Definition error_outcome (error : MessageProtocol) (fullUrl : string) : option Promise :=
  Some (RejectedWith
          (VSCodeHttpError (default "" (msg_error error)) (msg_status error)
             (error_response error fullUrl))).

Definition closure_outcome (cl : Closure) (arg : MessageProtocol) : option Promise :=
  match cl with
  | OnResponse _ _ fullUrl _ => response_outcome arg fullUrl
  | OnError _ _ fullUrl _ => error_outcome arg fullUrl
  end.

Lemma new_without_headers message fullUrl :
  msg_headers message = None →
  Response.new message fullUrl =
    Some {| Response.status := msg_status message;
            Response.statusText := Response._getStatusText (msg_status message);
            Response.headers := ∅;
            Response.ok := match msg_status message with
                           | Some n => (200 <=? n) && (n <? 300)
                           | None => false
                           end;
            Response.url := fullUrl;
            Response._body := msg_body message |}.
Proof.
  intros Hh. unfold Response.new. rewrite Hh. cbn [default from_option id].
  change (Response.Headers_accepts ∅) with true. done.
Qed.

Lemma new_empty_headers message fullUrl :
  msg_headers message = Some ∅ →
  Response.new message fullUrl =
    Some {| Response.status := msg_status message;
            Response.statusText := Response._getStatusText (msg_status message);
            Response.headers := ∅;
            Response.ok := match msg_status message with
                           | Some n => (200 <=? n) && (n <? 300)
                           | None => false
                           end;
            Response.url := fullUrl;
            Response._body := msg_body message |}.
Proof.
  intros Hh. unfold Response.new. rewrite Hh. cbn [default from_option id].
  change (Response.Headers_accepts ∅) with true. done.
Qed.

Definition closure_of (cl : Closure) : nat * string * nat :=
  match cl with
  | OnResponse this id _ p | OnError this id _ p => (this, id, p)
  end.

(** The client once its request [id] is settled. *)
Definition settled_client c (id : string) : VSCodeHttpClient :=
  {| _correlationManager :=
       Correlation.with_pending (JsMap.delete id) (_correlationManager c);
     _baseUrl := _baseUrl c; _disposed := _disposed c;
     _pendingRequests := _pendingRequests c ∖ {[id]};
     _instanceId := _instanceId c |}.

Lemma closure_lands this c r id p cb arg cl pg :
  clients (world pg) !! this = Some c → _disposed c = false →
  promises pg !! p = Some Pending →
  closure_of cl = (this, id, p) →
  let pg' := run_closure cl arg (taken this c r id cb arg pg) in
  promises pg' = match closure_outcome cl arg with
                 | Some outcome => <[p := outcome]> (promises pg)
                 | None => promises pg
                 end ∧
  clients (world pg') = <[this := settled_client c id]> (clients (world pg)) ∧
  Correlation.ticks (env (world pg')) = [] ∧
  Correlation.timers (env (world pg')) =
    Correlation.timers (CorrelationFacts.untimed r (env (world pg))) ∧
  Correlation.now (env (world pg')) = Correlation.now (env (world pg)) ∧
  outbox pg' = outbox pg ∧ closures pg' = closures pg ∧
  api_throws pg' = api_throws pg.
Proof.
  intros Hc Hd Hp Hcl. cbn zeta.
  assert (Hlen : (this < length (clients (world pg)))%nat) by by eapply lookup_lt_Some.
  assert (Hdisp : ∀ f : gset string → gset string,
            isDisposed this
              (world (with_pendingRequests this f (taken this c r id cb arg pg)))
            = false).
  { intros f. unfold isDisposed. cbn.
    by rewrite list_lookup_alter_eq, list_lookup_insert_eq, Hd by done. }
  assert (Hclients : ∀ f : gset string → gset string,
            alter (λ c0, {| _correlationManager := _correlationManager c0;
                            _baseUrl := _baseUrl c0; _disposed := _disposed c0;
                            _pendingRequests := f (_pendingRequests c0);
                            _instanceId := _instanceId c0 |}) this
              (<[this := {| _correlationManager :=
                              Correlation.with_pending (JsMap.delete id)
                                (_correlationManager c);
                            _baseUrl := _baseUrl c; _disposed := _disposed c;
                            _pendingRequests := _pendingRequests c;
                            _instanceId := _instanceId c |}]> (clients (world pg)))
            = <[this := {| _correlationManager :=
                              Correlation.with_pending (JsMap.delete id)
                                (_correlationManager c);
                            _baseUrl := _baseUrl c; _disposed := _disposed c;
                            _pendingRequests := f (_pendingRequests c);
                            _instanceId := _instanceId c |}]> (clients (world pg))).
  { intros f. apply list_eq. intros i. destruct (decide (i = this)) as [->|Hne].
    - by rewrite list_lookup_alter_eq, !list_lookup_insert_eq by done.
    - by rewrite list_lookup_alter_ne, !list_lookup_insert_ne by done. }
  set (pg1 := with_pendingRequests this (λ set, set ∖ {[id]})
                (taken this c r id cb arg pg)).
  assert (Hsettle : ∀ outcome,
            settle p outcome pg1 =
              {| world := world pg1; closures := closures pg;
                 promises := <[p := outcome]> (promises pg); outbox := outbox pg;
                 api_throws := api_throws pg |}).
  { intros outcome. unfold settle. cbn [pg1 promises with_pendingRequests with_world taken].
    by rewrite Hp. }
  assert (Hworld : clients (world pg1) = <[this := settled_client c id]> (clients (world pg))
                   ∧ Correlation.ticks (env (world pg1)) = []
                   ∧ Correlation.timers (env (world pg1)) =
                       Correlation.timers (CorrelationFacts.untimed r (env (world pg)))
                   ∧ Correlation.now (env (world pg1)) = Correlation.now (env (world pg))).
  { cbn. by rewrite (Hclients (λ set, set ∖ {[id]})). }
  destruct Hworld as (W1 & W2 & W3 & W4).
  destruct cl as [this' id' url p'|this' id' url p']; cbn in Hcl;
    injection Hcl as -> -> ->; unfold run_closure; rewrite (Hdisp _); fold pg1.
  - cbn [closure_outcome]. unfold response_outcome.
    destruct (Response.new arg url) as [httpResponse|]; [|done].
    destruct (Response.ok httpResponse); by rewrite Hsettle.
  - cbn [closure_outcome]. unfold error_outcome.
    rewrite new_without_headers by done. by rewrite Hsettle.
Qed.

(** *** How a request in flight ends *)

(** A message the client's handler passes on: it carries the client's
    instance id, or none (or an empty one) while the client is the primary
    client. *)
Definition addressed_to (this : nat) c (message : MessageProtocol) w : Prop :=
  (truthy (msg_instanceId message) = true ∧
   msg_instanceId message = Some (_instanceId c)) ∨
  (truthy (msg_instanceId message) = false ∧ primaryClient w = Some this).

Lemma on_message_response this c message pg :
  clients (world pg) !! this = Some c → _disposed c = false →
  addressed_to this c message (world pg) →
  isResponseMessage message = true →
  on_message this message pg =
    with_world
      (on_manager this (λ st, (Correlation.resolveRequest (msg_id message) message st).2))
      pg.
Proof.
  intros Hc Hd Haddr Hresp. unfold on_message, with_world. f_equal.
  unfold _messageHandler, isDisposed. rewrite Hc, Hd.
  unfold _handleMessage, _handleMessage_call. rewrite Hc, Hd.
  destruct Haddr as [[Ht Hi]|[Ht Hp]].
  - rewrite Ht, Hi. rewrite bool_decide_eq_true_2 by done. cbn [negb andb].
    by rewrite Hresp.
  - rewrite Ht. unfold yields_to_primary. rewrite Hp.
    rewrite (bool_decide_eq_true_2 (this = this)) by done. cbn [negb andb].
    by rewrite Hresp.
Qed.

Lemma response_lands this c r id fullUrl p message status pg :
  in_flight this c r id fullUrl p pg →
  Correlation.ticks (env (world pg)) = [] →
  msg_type message = MResponse → msg_status message = Some status →
  msg_id message = id →
  addressed_to this c message (world pg) →
  let pg' := tick (on_message this message pg) in
  promises pg' =
    match Response.new message fullUrl with
    | Some answer =>
        <[p := if (200 <=? status) && (status <? 300) then Resolved answer
               else RejectedWith
                      (VSCodeHttpError
                         ("HTTP " +:+ pretty status +:+ ": "
                          +:+ Response._getStatusText (Some status))
                         (Some status) answer)]> (promises pg)
    | None => promises pg
    end ∧
  (Response.new message fullUrl = None ↔
   Response.Headers_accepts (default ∅ (msg_headers message)) = false) ∧
  clients (world pg') !! this = Some (settled_client c id) ∧
  (∀ h, Correlation.pr_timeout r = Some h →
        Correlation.timers (env (world pg')) !! h = None) ∧
  Correlation.ticks (env (world pg')) = [] ∧
  outbox pg' = outbox pg.
Proof.
  intros [Hc Hd Hm Hr Hres Hrej Hp] Ht Hty Hst Hid Haddr pg'.
  assert (Hresp : isResponseMessage message = true).
  { unfold isResponseMessage. by rewrite Hty, Hst. }
  assert (Hlen : (this < length (clients (world pg)))%nat) by by eapply lookup_lt_Some.
  unfold pg'. rewrite (on_message_response this c) by done. rewrite Hid.
  rewrite (tick_after_resolve this c r id message _ pg Hc Hm Hr Ht Hres).
  destruct (closure_lands this c r id p (Correlation.pr_resolve r) message
              (OnResponse this id fullUrl p) pg Hc Hd Hp eq_refl)
    as (H1 & H2 & H3 & H4 & _ & H6 & _).
  split_and!.
  - rewrite H1. cbn [closure_outcome]. unfold response_outcome, Response.new.
    destruct (Response.Headers_accepts (default ∅ (msg_headers message))); [|done].
    cbn [Response.ok Response.statusText]. by rewrite Hst.
  - unfold Response.new.
    by destruct (Response.Headers_accepts (default ∅ (msg_headers message))).
  - rewrite H2. by apply list_lookup_insert_eq.
  - intros h Hh. rewrite H4. unfold CorrelationFacts.untimed. rewrite Hh.
    apply lookup_delete_eq.
  - exact H3.
  - exact H6.
Qed.

(** X24. When the Response for a request in flight reaches the client, the
    request leaves the client's pending set and the manager's table and its
    timer is cancelled.  On the next tick, if [Headers] accepts the headers
    of the envelope, the promise of the [fetch] call settles: it is
    fulfilled with the fetch-like response if the status is from 200 to
    299, and is rejected otherwise with a [VSCodeHttpError] whose message is
    'HTTP', the status and its text, as in 'HTTP 404: Not Found'.  If
    [Headers] refuses a name or a value, the constructor of the response
    throws inside the closure, the Correlation Manager swallows the error,
    and the promise stays pending, with nothing left to settle it.  No
    other promise changes. *)
Theorem response_settles_fetch this c r id fullUrl p message status pg :
  in_flight this c r id fullUrl p pg →
  Correlation.ticks (env (world pg)) = [] →
  msg_type message = MResponse → msg_status message = Some status →
  msg_id message = id →
  addressed_to this c message (world pg) →
  let pg' := tick (on_message this message pg) in
  promises pg' =
    match Response.new message fullUrl with
    | Some answer =>
        <[p := if (200 <=? status) && (status <? 300) then Resolved answer
               else RejectedWith
                      (VSCodeHttpError
                         ("HTTP " +:+ pretty status +:+ ": "
                          +:+ Response._getStatusText (Some status))
                         (Some status) answer)]> (promises pg)
    | None => promises pg
    end ∧
  (Response.new message fullUrl = None ↔
   Response.Headers_accepts (default ∅ (msg_headers message)) = false) ∧
  clients (world pg') !! this = Some (settled_client c id) ∧
  (∀ h, Correlation.pr_timeout r = Some h →
        Correlation.timers (env (world pg')) !! h = None) ∧
  Correlation.ticks (env (world pg')) = [] ∧
  outbox pg' = outbox pg.
Proof. apply response_lands. Qed.

Lemma fire_due this c id h t pg :
  clients (world pg) !! this = Some c →
  Correlation.timers (env (world pg)) !! h = Some t →
  Correlation.t_owner t = this → Correlation.t_id t = id →
  Correlation.t_due t ≤ Correlation.now (env (world pg)) →
  fire this h pg =
    call_manager this
      (λ st, (Correlation.rejectRequest id
                (error_literal id "Request timeout" 408 (Correlation.now (env (world pg))))
                st).2)
      (with_world
         (λ w, {| clients := clients w; globalClientRegistry := globalClientRegistry w;
                  primaryClient := primaryClient w;
                  message_listeners := message_listeners w;
                  env := Correlation.with_timers (base.delete h) (env w) |}) pg).
Proof.
  intros Hc Hl Ho Hi Hdue. unfold fire, call_manager, run_new_calls, with_world.
  cbn [world closures promises outbox api_throws env Correlation.calls
       Correlation.with_timers].
  rewrite !(on_manager_spec this c) by done. cbn [env clients].
  by rewrite (CorrelationMore.fireTimer_due this h t _ _ Hl Ho Hdue), Hi.
Qed.

(** X25. When the timer of a request in flight comes due, the promise of the
    [fetch] call is rejected on the next tick with a [VSCodeHttpError] of
    message 'Request timeout' and status 408, whose response has the status
    text 'Request Timeout' and the body {error: 'Request timeout'}.  The id
    leaves the client's pending set and the manager's table. *)
Theorem timeout_rejects_fetch this c r id fullUrl p h t pg :
  in_flight this c r id fullUrl p pg →
  Correlation.ticks (env (world pg)) = [] →
  Correlation.timers (env (world pg)) !! h = Some t →
  Correlation.t_owner t = this → Correlation.t_id t = id →
  Correlation.t_due t ≤ Correlation.now (env (world pg)) →
  let pg' := tick (fire this h pg) in
  promises pg' =
    <[p := RejectedWith
             (VSCodeHttpError "Request timeout" (Some 408)
                {| Response.status := Some 408;
                   Response.statusText := "Request Timeout";
                   Response.headers := ∅; Response.ok := false;
                   Response.url := fullUrl;
                   Response._body := JObj [("error", JStr "Request timeout")] |})]>
      (promises pg) ∧
  clients (world pg') !! this = Some (settled_client c id) ∧
  Correlation.timers (env (world pg')) !! h = None ∧
  Correlation.ticks (env (world pg')) = [] ∧
  outbox pg' = outbox pg.
Proof.
  intros [Hc Hd Hm Hr Hres Hrej Hp] Ht Hl Ho Hi Hdue pg'.
  assert (Hlen : (this < length (clients (world pg)))%nat) by by eapply lookup_lt_Some.
  unfold pg'. rewrite (fire_due this c id h t pg Hc Hl Ho Hi Hdue).
  set (pg0 := with_world _ pg).
  rewrite call_manager_quiet.
  2:{ rewrite (on_manager_env this c) by done.
      rewrite (CorrelationFacts.rejectRequest_tracked id _ r) by done.
      cbn [snd Correlation.nextTick Correlation.calls].
      by destruct (CorrelationFacts.untimed_frame r (env (world pg0))) as (_ & _ & -> & _). }
  rewrite (tick_after_reject this c r id _ _ pg0 Hc Hm Hr Ht Hrej).
  destruct (closure_lands this c r id p (Correlation.pr_reject r)
              (error_literal id "Request timeout" 408 (Correlation.now (env (world pg))))
              (OnError this id fullUrl p) pg0 Hc Hd Hp eq_refl)
    as (H1 & H2 & H3 & H4 & _ & H6 & _).
  split_and!.
  - by rewrite H1.
  - rewrite H2. by apply list_lookup_insert_eq.
  - rewrite H4. unfold CorrelationFacts.untimed.
    destruct (Correlation.pr_timeout r); cbn; [|apply lookup_delete_eq].
    apply lookup_delete_None. right. apply lookup_delete_eq.
  - exact H3.
  - exact H6.
Qed.

(** *** When the message cannot be sent *)

(** The request the manager tracks for a [fetch] call. *)
Definition tracked_request (id : string) (e : Correlation.Env) (cls : list Closure)
  (timeoutMs : Z) : Correlation.PendingRequest :=
  {| Correlation.pr_id := id; Correlation.pr_timestamp := Correlation.now e;
     Correlation.pr_resolve := length cls; Correlation.pr_reject := S (length cls);
     Correlation.pr_timeout :=
       if 0 <? timeoutMs then Some (Correlation.next_timer e) else None |}.

(** The client and the event loop after [addPendingRequest] in [fetch]. *)
Definition tracking_client c (id : string) (e : Correlation.Env) (cls : list Closure)
  (timeoutMs : Z) (set : gset string) : VSCodeHttpClient :=
  {| _correlationManager :=
       Correlation.with_pending (JsMap.set id (tracked_request id e cls timeoutMs))
         (_correlationManager c);
     _baseUrl := _baseUrl c; _disposed := _disposed c; _pendingRequests := set;
     _instanceId := _instanceId c |}.

Lemma addPendingRequest_live this id resolve reject timeout m e :
  Correlation.disposed m = false →
  let timeoutMs := default (Correlation.defaultTimeout m) timeout in
  Correlation.addPendingRequest this id resolve reject timeout (m, e) =
    (Correlation.with_pending
       (JsMap.set id
          {| Correlation.pr_id := id; Correlation.pr_timestamp := Correlation.now e;
             Correlation.pr_resolve := resolve; Correlation.pr_reject := reject;
             Correlation.pr_timeout :=
               if 0 <? timeoutMs then Some (Correlation.next_timer e) else None |}) m,
     if 0 <? timeoutMs
     then (Correlation.setTimeout
             {| Correlation.t_owner := this; Correlation.t_id := id;
                Correlation.t_due := Correlation.now e + timeoutMs |} e).2
     else e).
Proof.
  intros Hd. cbn zeta. unfold Correlation.addPendingRequest. rewrite Hd.
  by destruct (0 <? _).
Qed.

Lemma fetch_throwing this c url options correlationId error pg :
  clients (world pg) !! this = Some c → _disposed c = false →
  Correlation.disposed (_correlationManager c) = false →
  api_throws pg = Some error →
  let e := env (world pg) in
  let timeoutMs :=
    default (Correlation.defaultTimeout (_correlationManager c)) (timeout options) in
  fetch this url options correlationId pg =
    with_world
      (on_manager this
         (λ st,
            (Correlation.rejectRequest correlationId
               {| msg_id := correlationId; msg_type := MError; msg_method := None;
                  msg_url := None; msg_headers := None; msg_body := JUndefined;
                  msg_status := Some 503;
                  msg_error := Some match error with
                                    | Server.ThrowError message => message
                                    | Server.ThrowOther => "Failed to send message"
                                    end;
                  msg_stack := None; msg_instanceId := None;
                  msg_timestamp := Correlation.now e |} st).2))
      {| world :=
           {| clients :=
                <[this := tracking_client c correlationId e (closures pg) timeoutMs
                            (({[correlationId]} ∪ _pendingRequests c) ∖ {[correlationId]})]>
                  (clients (world pg));
              globalClientRegistry := globalClientRegistry (world pg);
              primaryClient := primaryClient (world pg);
              message_listeners := message_listeners (world pg);
              env :=
                if 0 <? timeoutMs
                then (Correlation.setTimeout
                        {| Correlation.t_owner := this;
                           Correlation.t_id := correlationId;
                           Correlation.t_due := Correlation.now e + timeoutMs |} e).2
                else e |};
         closures :=
           closures pg ++ [OnResponse this correlationId (_resolveUrl c url)
                             (length (promises pg));
                           OnError this correlationId (_resolveUrl c url)
                             (length (promises pg))];
         promises := promises pg ++ [Pending];
         outbox := outbox pg;
         api_throws := Some error |}.
Proof.
  intros Hc Hd Hm Hapi. cbn zeta.
  destruct pg as [w cls ps out api]. cbn in Hc, Hapi. subst api.
  assert (Hlen : (this < length (clients w))%nat) by by eapply lookup_lt_Some.
  unfold fetch. cbn [world closures promises outbox api_throws]. rewrite Hc, Hd.
  unfold with_pendingRequests, with_world. cbn [world closures promises outbox api_throws].
  set (c1 := {| _correlationManager := _correlationManager c; _baseUrl := _baseUrl c;
                _disposed := _disposed c;
                _pendingRequests := {[correlationId]} ∪ _pendingRequests c;
                _instanceId := _instanceId c |}).
  match goal with |- context [update_client this ?g w] =>
    set (w1 := update_client this g w) end.
  assert (Hc1 : clients w1 !! this = Some c1).
  { cbn. by rewrite list_lookup_alter_eq, Hc. }
  assert (Hlive : isDisposed this w1 = false).
  { unfold isDisposed. by rewrite Hc1. }
  rewrite Hlive.
  rewrite call_manager_quiet.
  2:{ cbn [world]. rewrite (on_manager_env this c1) by done.
      by apply addPendingRequest_calls. }
  unfold with_world. cbn [world closures promises outbox api_throws].
  rewrite (on_manager_spec this c1) by done.
  rewrite (addPendingRequest_live _ _ _ _ _ _ _ Hm).
  cbn [fst snd c1 _correlationManager _baseUrl _disposed _pendingRequests _instanceId].
  change (env w1) with (env w). change (globalClientRegistry w1) with (globalClientRegistry w).
  change (primaryClient w1) with (primaryClient w).
  change (message_listeners w1) with (message_listeners w).
  set (T := default _ _).
  match goal with |- call_manager this _ ?x = _ => set (pg4 := x) end.
  assert (Hpg4 : pg4 = {| world :=
             {| clients :=
                  <[this := tracking_client c correlationId (env w) cls T
                              (({[correlationId]} ∪ _pendingRequests c) ∖ {[correlationId]})]>
                    (clients w);
                globalClientRegistry := globalClientRegistry w;
                primaryClient := primaryClient w;
                message_listeners := message_listeners w;
                env := if 0 <? T
                       then (Correlation.setTimeout
                               {| Correlation.t_owner := this;
                                  Correlation.t_id := correlationId;
                                  Correlation.t_due := Correlation.now (env w) + T |}
                               (env w)).2
                       else env w |};
             closures := cls ++ [OnResponse this correlationId (_resolveUrl c url) (length ps);
                                 OnError this correlationId (_resolveUrl c url) (length ps)];
             promises := ps ++ [Pending]; outbox := out; api_throws := Some error |}).
  { unfold pg4, update_client. cbn [clients globalClientRegistry primaryClient
      message_listeners env]. f_equal. f_equal.
    apply list_eq. intros i. destruct (decide (i = this)) as [->|Hne].
    - rewrite list_lookup_alter_eq, !list_lookup_insert_eq;
        [done|done|by unfold w1; cbn; rewrite length_alter].
    - rewrite list_lookup_alter_ne, !list_lookup_insert_ne by done.
      unfold w1. cbn. by rewrite list_lookup_alter_ne. }
  clearbody pg4. subst pg4.
  assert (Hnow : Correlation.now
                   (if 0 <? T
                    then (Correlation.setTimeout
                            {| Correlation.t_owner := this;
                               Correlation.t_id := correlationId;
                               Correlation.t_due := Correlation.now (env w) + T |}
                            (env w)).2
                    else env w) = Correlation.now (env w)) by by destruct (0 <? T).
  cbn [env] in Hnow |- *. rewrite Hnow.
  rewrite call_manager_quiet; [done|]. cbn [world].
  rewrite (on_manager_env this (tracking_client c correlationId (env w) cls T
             (({[correlationId]} ∪ _pendingRequests c) ∖ {[correlationId]})))
    by (by cbn; rewrite list_lookup_insert_eq).
  rewrite (CorrelationFacts.rejectRequest_tracked correlationId _
             (tracked_request correlationId (env w) cls T));
    [|done|apply JsMapFacts.get_set_eq].
  cbn [snd Correlation.nextTick Correlation.calls env].
  destruct (CorrelationFacts.untimed_frame (tracked_request correlationId (env w) cls T)
              (if 0 <? T
               then (Correlation.setTimeout
                       {| Correlation.t_owner := this; Correlation.t_id := correlationId;
                          Correlation.t_due := Correlation.now (env w) + T |} (env w)).2
               else env w)) as (_ & _ & -> & _).
  done.
Qed.

(** X26. When [postMessage] of the VS Code API throws, [fetch] still returns a
    promise, and the promise is rejected on the next tick with a
    [VSCodeHttpError] of status 503 whose message is that of the error
    thrown, or 'Failed to send message' for a value that is no [Error].
    Nothing is sent, the id is in neither the pending set nor the manager's
    table afterwards, and the timer armed for it is cancelled. *)
Theorem send_failure_rejects_fetch this c url options correlationId error pg :
  clients (world pg) !! this = Some c → _disposed c = false →
  Correlation.disposed (_correlationManager c) = false →
  api_throws pg = Some error →
  Correlation.ticks (env (world pg)) = [] →
  let text := match error with
              | Server.ThrowError message => message
              | Server.ThrowOther => "Failed to send message"
              end in
  let pg' := tick (fetch this url options correlationId pg) in
  promises pg' =
    promises pg
    ++ [RejectedWith
          (VSCodeHttpError text (Some 503)
             {| Response.status := Some 503;
                Response.statusText := "Service Unavailable";
                Response.headers := ∅; Response.ok := false;
                Response.url := _resolveUrl c url;
                Response._body := JObj [("error", JStr text)] |})] ∧
  outbox pg' = outbox pg ∧
  (∃ c', clients (world pg') !! this = Some c' ∧
         (correlationId ∉ _pendingRequests c') ∧
         JsMap.get correlationId (Correlation.pendingRequests (_correlationManager c'))
           = None) ∧
  (0 < default (Correlation.defaultTimeout (_correlationManager c)) (timeout options) →
   Correlation.timers (env (world pg')) !! Correlation.next_timer (env (world pg))
   = None) ∧
  Correlation.ticks (env (world pg')) = [].
Proof.
  intros Hc Hd Hm Hapi Ht text pg'.
  assert (Hlen : (this < length (clients (world pg)))%nat) by by eapply lookup_lt_Some.
  unfold pg'. rewrite (fetch_throwing this c url options correlationId error pg) by done.
  set (e := env (world pg)).
  set (T := default _ _).
  set (c4 := tracking_client c correlationId e (closures pg) T
               (({[correlationId]} ∪ _pendingRequests c) ∖ {[correlationId]})).
  set (r := tracked_request correlationId e (closures pg) T).
  match goal with |- context [with_world _ ?x] => set (pg4 := x) end.
  assert (Hc4 : clients (world pg4) !! this = Some c4).
  { cbn. by rewrite list_lookup_insert_eq. }
  assert (Hr4 : JsMap.get correlationId
                  (Correlation.pendingRequests (_correlationManager c4)) = Some r).
  { apply JsMapFacts.get_set_eq. }
  assert (Ht4 : Correlation.ticks (env (world pg4)) = []).
  { cbn. by destruct (0 <? T). }
  assert (Hrej : closures pg4 !! Correlation.pr_reject r
                 = Some (OnError this correlationId (_resolveUrl c url)
                           (length (promises pg)))).
  { cbn. rewrite lookup_app_r by lia.
    by replace (S (length (closures pg)) - length (closures pg))%nat with 1%nat by lia. }
  assert (Hp4 : promises pg4 !! length (promises pg) = Some Pending).
  { cbn. by rewrite lookup_app_r, Nat.sub_diag by lia. }
  assert (Hm4 : Correlation.disposed (_correlationManager c4) = false) by exact Hm.
  assert (Hd4 : _disposed c4 = false) by exact Hd.
  rewrite (tick_after_reject this c4 r correlationId _ _ pg4 Hc4 Hm4 Hr4 Ht4 Hrej).
  match goal with |- context [run_closure _ ?m _] => set (lit := m) end.
  destruct (closure_lands this c4 r correlationId (length (promises pg))
              (Correlation.pr_reject r) lit
              (OnError this correlationId (_resolveUrl c url) (length (promises pg)))
              pg4 Hc4 Hd4 Hp4 eq_refl)
    as (H1 & H2 & H3 & H4 & _ & H6 & _).
  split_and!.
  - rewrite H1. cbn [closure_outcome pg4 promises]. unfold error_outcome.
    replace (length (promises pg)) with (length (promises pg) + 0)%nat at 1 by lia.
    by rewrite insert_app_r.
  - by rewrite H6.
  - exists (settled_client c4 correlationId). split_and!.
    + rewrite H2. apply list_lookup_insert_eq. cbn. by rewrite length_insert.
    + cbn. rewrite !elem_of_difference, elem_of_singleton. tauto.
    + apply JsMapFacts.get_delete_eq.
  - intros HT. apply Z.ltb_lt in HT. rewrite H4. unfold CorrelationFacts.untimed.
    cbn [r tracked_request Correlation.pr_timeout pg4 world env]. fold T.
    rewrite HT. apply lookup_delete_eq.
  - exact H3.
Qed.

(** *** [dispose] with requests in flight *)

Definition client_of (cl : Closure) : nat := (closure_of cl).1.1.
Definition promise_of (cl : Closure) : nat := (closure_of cl).2.

Definition disposed_error : Promise :=
  RejectedWith (Error "HTTP client has been disposed").

(** A closure of a disposed client runs. *)
Lemma run_closure_disposed cl arg pg :
  isDisposed (client_of cl) (world pg) = true →
  let pg' := run_closure cl arg pg in
  promises pg' =
    (match promises pg !! promise_of cl with
     | Some Pending => <[promise_of cl := disposed_error]> (promises pg)
     | _ => promises pg
     end) ∧
  closures pg' = closures pg ∧ outbox pg' = outbox pg ∧
  env (world pg') = env (world pg) ∧
  (∀ i, isDisposed i (world pg') = isDisposed i (world pg)) ∧
  (∀ i, (getPendingRequestCount i (world pg') ≤ getPendingRequestCount i (world pg))%nat).
Proof.
  intros Hd. cbn zeta.
  assert (Hkeep : ∀ this (f : gset string → gset string) i,
            isDisposed i (world (with_pendingRequests this f pg)) = isDisposed i (world pg)).
  { intros this f i. unfold isDisposed. cbn.
    destruct (decide (i = this)) as [->|Hne].
    - rewrite list_lookup_alter_eq. by destruct (clients (world pg) !! this).
    - by rewrite list_lookup_alter_ne. }
  assert (Hcount : ∀ this id i,
            (getPendingRequestCount i
               (world (with_pendingRequests this (λ set, set ∖ {[id]}) pg))
             ≤ getPendingRequestCount i (world pg))%nat).
  { intros this id i. unfold getPendingRequestCount. cbn.
    destruct (decide (i = this)) as [->|Hne].
    - rewrite list_lookup_alter_eq. destruct (clients (world pg) !! this); [|done].
      cbn. apply subseteq_size, subseteq_difference_l. done.
    - by rewrite list_lookup_alter_ne. }
  destruct cl as [this id url p|this id url p]; cbn in Hd; unfold run_closure;
    rewrite Hkeep, Hd; unfold settle, promise_of; cbn;
    destruct (promises pg !! p) as [[| |]|]; split_and!; try done;
    intros i; first [exact (Hkeep this (λ set, set ∖ {[id]}) i)|exact (Hcount this id i)].
Qed.

Lemma tick_shared cb ref rest arg cl pg :
  Correlation.ticks (env (world pg)) = Correlation.TCallShared cb ref :: rest →
  Correlation.heap (env (world pg)) !! ref = Some arg →
  closures pg !! cb = Some cl →
  tick pg =
    run_closure cl arg
      (with_world
         (λ w, {| clients := clients w; globalClientRegistry := globalClientRegistry w;
                  primaryClient := primaryClient w;
                  message_listeners := message_listeners w;
                  env := Correlation.runTick (env w) |}) pg).
Proof.
  intros Ht Hh Hcl. unfold tick, run_new_calls, with_world.
  cbn [world closures promises outbox api_throws env].
  assert (Hcalls : Correlation.calls (Correlation.runTick (env (world pg)))
                   = Correlation.calls (env (world pg))
                     ++ [{| Correlation.inv_cb := cb; Correlation.inv_arg := arg |}]).
  { unfold Correlation.runTick. rewrite Ht. cbn. by rewrite Hh. }
  rewrite Hcalls, drop_app_length.
  cbn [foldl]. unfold run_invocation.
  cbn [closures Correlation.inv_cb Correlation.inv_arg]. by rewrite Hcl.
Qed.

(** The closures queued by [clearAllRequests] run, on a disposed client. *)
Lemma drain_disposed this ref arg (entries : list (string * Correlation.PendingRequest)) :
  ∀ pg,
  isDisposed this (world pg) = true →
  Correlation.ticks (env (world pg)) =
    map (λ entry, Correlation.TCallShared (Correlation.pr_reject entry.2) ref) entries →
  Correlation.heap (env (world pg)) !! ref = Some arg →
  (∀ entry, entry ∈ entries →
            ∃ cl, closures pg !! Correlation.pr_reject entry.2 = Some cl ∧
                  client_of cl = this) →
  let pg' := Nat.iter (length entries) tick pg in
  Correlation.ticks (env (world pg')) = [] ∧
  closures pg' = closures pg ∧ outbox pg' = outbox pg ∧
  (∀ i, isDisposed i (world pg') = isDisposed i (world pg)) ∧
  (∀ i, (getPendingRequestCount i (world pg') ≤ getPendingRequestCount i (world pg))%nat) ∧
  (∀ p o, promises pg !! p = Some o → o ≠ Pending → promises pg' !! p = Some o) ∧
  (∀ entry cl, entry ∈ entries →
     closures pg !! Correlation.pr_reject entry.2 = Some cl →
     promises pg !! promise_of cl = Some Pending →
     promises pg' !! promise_of cl = Some disposed_error).
Proof.
  induction entries as [|entry rest IH]; intros pg Hd Ht Hh Hown.
  { cbn. split_and!; try done. intros entry cl Hin. by apply elem_of_nil in Hin. }
  cbn zeta. rewrite length_cons, Nat.iter_succ_r.
  destruct (Hown entry ltac:(by left)) as (cl & Hcl & Hthis).
  cbn [map] in Ht.
  rewrite (tick_shared _ ref _ arg cl pg Ht Hh Hcl).
  set (pg0 := with_world _ pg).
  assert (Hd0 : isDisposed (client_of cl) (world pg0) = true) by by rewrite Hthis.
  destruct (run_closure_disposed cl arg pg0 Hd0)
    as (Hps & Hcls & Hout & Henv & Hdis & Hcnt).
  set (pg1 := run_closure cl arg pg0) in *.
  assert (Henv0 : Correlation.ticks (env (world pg0)) =
                    map (λ entry, Correlation.TCallShared
                                    (Correlation.pr_reject entry.2) ref) rest ∧
                  Correlation.heap (env (world pg0)) = Correlation.heap (env (world pg))).
  { cbn. unfold Correlation.runTick. by rewrite Ht. }
  destruct Henv0 as [Ht0 Hh0].
  destruct (IH pg1) as (I1 & I2 & I3 & I4 & Ic & I5 & I6).
  - by rewrite Hdis.
  - by rewrite Henv.
  - by rewrite Henv, Hh0.
  - intros entry' Hin. rewrite Hcls. apply Hown. by right.
  - assert (Hstable : ∀ p o, promises pg !! p = Some o → o ≠ Pending →
                             promises pg1 !! p = Some o).
    { intros p o Hp Ho. rewrite Hps. change (promises pg0) with (promises pg).
      destruct (promises pg !! promise_of cl) as [[| |]|] eqn:Hq; try done.
      destruct (decide (p = promise_of cl)) as [->|Hne]; [congruence|].
      by rewrite list_lookup_insert_ne. }
    split_and!.
    + exact I1.
    + by rewrite I2, Hcls.
    + by rewrite I3, Hout.
    + intros i. by rewrite I4, Hdis.
    + intros i. etrans; [apply Ic|]. etrans; [apply Hcnt|]. done.
    + intros p o Hp Ho. apply I5; [|done]. by apply Hstable.
    + intros entry' cl' Hin Hcl' Hp.
      destruct (promises pg1 !! promise_of cl') as [o|] eqn:Hq1.
      * assert (Ho : o = Pending ∨ o ≠ Pending) by (destruct o; [left|right|right]; done).
        destruct Ho as [->|Hne].
        -- apply elem_of_cons in Hin as [->|Hin].
           ++ assert (cl' = cl) by congruence. subst cl'.
              rewrite Hps in Hq1. change (promises pg0) with (promises pg) in Hq1.
              rewrite Hp in Hq1. rewrite list_lookup_insert_eq in Hq1; [done|].
              by eapply lookup_lt_Some.
           ++ apply (I6 entry'); [done|by rewrite Hcls|done].
        -- assert (o = disposed_error).
           { rewrite Hps in Hq1. change (promises pg0) with (promises pg) in Hq1.
             destruct (promises pg !! promise_of cl) as [[| |]|] eqn:Hq; try congruence.
             destruct (decide (promise_of cl' = promise_of cl)) as [Heq|Hne'].
             - rewrite Heq, list_lookup_insert_eq in Hq1; [congruence|].
               by eapply lookup_lt_Some.
             - rewrite list_lookup_insert_ne in Hq1 by done. congruence. }
           subst o. by apply I5.
      * exfalso. rewrite Hps in Hq1. change (promises pg0) with (promises pg) in Hq1.
        apply lookup_ge_None in Hq1. apply lookup_lt_Some in Hp.
        destruct (promises pg !! promise_of cl) as [[| |]|]; try lia.
        rewrite length_insert in Hq1. lia.
Qed.

Lemma dispose_live this c w :
  clients w !! this = Some c → _disposed c = false →
  clients (Client.dispose this w) !! this =
    Some {| _correlationManager :=
              (Correlation.clearAllRequests (_correlationManager c, env w)).1;
            _baseUrl := _baseUrl c; _disposed := true; _pendingRequests := ∅;
            _instanceId := _instanceId c |} ∧
  env (Client.dispose this w) =
    (Correlation.clearAllRequests (_correlationManager c, env w)).2.
Proof.
  intros Hc Hd. unfold Client.dispose. rewrite Hc, Hd.
  assert (Hlen : (this < length (clients w))%nat) by by eapply lookup_lt_Some.
  match goal with |- context [on_manager this _ ?x] => set (w4 := x) end.
  set (c1 := {| _correlationManager := _correlationManager c; _baseUrl := _baseUrl c;
                _disposed := true; _pendingRequests := _pendingRequests c;
                _instanceId := _instanceId c |}).
  assert (Hc4 : clients w4 !! this = Some c1).
  { unfold w4. destruct (bool_decide _); cbn; by rewrite list_lookup_alter_eq, Hc. }
  assert (He4 : env w4 = env w).
  { unfold w4. by destruct (bool_decide _). }
  rewrite (on_manager_spec this c1 _ w4 Hc4). cbn [update_client clients env c1
    _correlationManager].
  rewrite list_lookup_alter_eq, list_lookup_insert_eq, He4; [done|].
  apply lookup_lt_Some in Hc4. done.
Qed.

(** X27. [dispose] with requests in flight.  Once the event loop has drained
    the tick queue, the promise of every [fetch] call of the client that was
    in flight is rejected with 'HTTP client has been disposed' (the
    'Connection closed' error of the Correlation Manager does not reach the
    caller), promises that were settled stay as they were, the client counts
    no pending request, and nothing is sent. *)
Theorem dispose_rejects_every_fetch this c pg :
  clients (world pg) !! this = Some c → _disposed c = false →
  Correlation.disposed (_correlationManager c) = false →
  Correlation.ticks (env (world pg)) = [] →
  (∀ entry, entry ∈ Correlation.pendingRequests (_correlationManager c) →
            ∃ cl, closures pg !! Correlation.pr_reject entry.2 = Some cl ∧
                  client_of cl = this) →
  let pg' := drain (dispose this pg) in
  (∀ r id fullUrl p,
     in_flight this c r id fullUrl p pg →
     promises pg' !! p = Some (RejectedWith (Error "HTTP client has been disposed"))) ∧
  (∀ p o, promises pg !! p = Some o → o ≠ Pending → promises pg' !! p = Some o) ∧
  isDisposed this (world pg') = true ∧
  getPendingRequestCount this (world pg') = 0%nat ∧
  Correlation.ticks (env (world pg')) = [] ∧
  outbox pg' = outbox pg.
Proof.
  intros Hc Hd Hm Ht Hown pg'.
  destruct (dispose_live this c (world pg) Hc Hd) as [Hc' He'].
  set (m := _correlationManager c) in *. set (e := env (world pg)) in *.
  set (ref := length (Correlation.heap e)).
  assert (Henv : env (world (dispose this pg)) =
            {| Correlation.timers :=
                 foldl CorrelationFacts.drop_timer (Correlation.timers e)
                   (Correlation.pendingRequests m);
               Correlation.next_timer := Correlation.next_timer e;
               Correlation.ticks :=
                 map (λ entry, Correlation.TCallShared
                                 (Correlation.pr_reject entry.2) ref)
                   (Correlation.pendingRequests m);
               Correlation.heap :=
                 foldl (CorrelationFacts.retag ref)
                   (Correlation.heap e
                    ++ [error_literal "" "Connection closed" 503 (Correlation.now e)])
                   (Correlation.pendingRequests m);
               Correlation.calls := Correlation.calls e;
               Correlation.now := Correlation.now e |}).
  { cbn [dispose with_world world]. rewrite He'. unfold Correlation.clearAllRequests.
    rewrite Hm. cbn [snd]. rewrite CorrelationFacts.clearAll_fold. cbn.
    fold e. by rewrite Ht. }
  assert (Hheap : ∃ arg, Correlation.heap (env (world (dispose this pg))) !! ref = Some arg).
  { rewrite Henv. cbn [Correlation.heap]. eexists.
    apply (CorrelationFacts.retag_shared ref _ _ "" "Connection closed" 503
             (Correlation.now e)).
    unfold ref. by rewrite lookup_app_r, Nat.sub_diag by lia. }
  destruct Hheap as [arg Harg].
  assert (Hdis : isDisposed this (world (dispose this pg)) = true).
  { unfold isDisposed. cbn [dispose with_world world]. by rewrite Hc'. }
  assert (Hticks : Correlation.ticks (env (world (dispose this pg))) =
            map (λ entry, Correlation.TCallShared (Correlation.pr_reject entry.2) ref)
              (Correlation.pendingRequests m)) by by rewrite Henv.
  destruct (drain_disposed this ref arg (Correlation.pendingRequests m)
              (dispose this pg) Hdis Hticks Harg Hown)
    as (D1 & D2 & D3 & D4 & D5 & D6 & D7).
  assert (Hpg' : pg' = Nat.iter (length (Correlation.pendingRequests m)) tick
                         (dispose this pg)).
  { unfold pg', drain. by rewrite Hticks, length_map. }
  rewrite Hpg'. split_and!.
  - intros r id fullUrl p [_ _ _ Hr _ Hrej Hp].
    apply (D7 (id, r) (OnError this id fullUrl p)); [|done|done].
    by apply JsMapMore.get_Some_elem.
  - exact D6.
  - by rewrite D4.
  - pose proof (D5 this) as Hle.
    assert (H0 : getPendingRequestCount this (world (dispose this pg)) = 0%nat).
    { unfold getPendingRequestCount. cbn [dispose with_world world]. by rewrite Hc'. }
    lia.
  - exact D1.
  - by rewrite D3.
Qed.

(** *** Messages for somebody else *)

Lemma on_message_foreign this c message pg :
  clients (world pg) !! this = Some c →
  truthy (msg_instanceId message) = true →
  msg_instanceId message ≠ Some (_instanceId c) →
  on_message this message pg = pg.
Proof.
  intros Hc Ht Hne. unfold on_message, with_world.
  assert (Hw : _messageHandler this message (world pg) = world pg).
  { unfold _messageHandler, isDisposed. rewrite Hc.
    destruct (_disposed c) eqn:Hd; [done|].
    unfold _handleMessage, _handleMessage_call. rewrite Hc, Hd, Ht.
    by rewrite bool_decide_eq_false_2. }
  rewrite Hw. by destruct pg.
Qed.

(** *** A page at work *)

Lemma fetch_in_flight this c url options correlationId pg :
  clients (world pg) !! this = Some c → _disposed c = false →
  Correlation.disposed (_correlationManager c) = false →
  api_throws pg = None →
  let e := env (world pg) in
  let timeoutMs :=
    default (Correlation.defaultTimeout (_correlationManager c)) (timeout options) in
  in_flight this
    (tracking_client c correlationId e (closures pg) timeoutMs
       ({[correlationId]} ∪ _pendingRequests c))
    (tracked_request correlationId e (closures pg) timeoutMs)
    correlationId (_resolveUrl c url) (length (promises pg))
    (fetch this url options correlationId pg).
Proof.
  intros Hc Hd Hm Hapi. cbn zeta.
  rewrite (fetch_live this c url options correlationId pg Hc Hd Hm Hapi).
  assert (Hlen : (this < length (clients (world pg)))%nat) by by eapply lookup_lt_Some.
  split; cbn [world closures promises].
  - set (c1 := {| _correlationManager := _correlationManager c; _baseUrl := _baseUrl c;
                  _disposed := _disposed c;
                  _pendingRequests := {[correlationId]} ∪ _pendingRequests c;
                  _instanceId := _instanceId c |}).
    match goal with |- context [update_client this ?g (world pg)] =>
      set (w1 := update_client this g (world pg)) end.
    assert (Hc1 : clients w1 !! this = Some c1).
    { cbn. by rewrite list_lookup_alter_eq, Hc. }
    rewrite (on_manager_client this c1) by done.
    rewrite list_lookup_insert_eq by (by unfold w1; cbn; rewrite length_alter).
    rewrite (addPendingRequest_live _ _ _ _ _ _ _ Hm). done.
  - done.
  - done.
  - apply JsMapFacts.get_set_eq.
  - cbn. by rewrite lookup_app_r, Nat.sub_diag by lia.
  - cbn. rewrite lookup_app_r by lia.
    by replace (S (length (closures pg)) - length (closures pg))%nat with 1%nat by lia.
  - by rewrite lookup_app_r, Nat.sub_diag by lia.
Qed.

(** The client "A" with the base URL "/api", alone on its page. *)
Definition client_A : VSCodeHttpClient :=
  {| _correlationManager := Correlation.new None; _baseUrl := "/api";
     _disposed := false; _pendingRequests := ∅; _instanceId := "A" |}.

Definition page_A (api : option Server.Thrown) : Page :=
  {| world := (new true (Some (Options (Some "A") (Some "/api"))) "k3x9" empty_page).2;
     closures := []; promises := []; outbox := []; api_throws := api |}.

(** Options with a timeout of 50 ms. *)
Definition within_50 : RequestOptions :=
  {| method := None; headers := None; body := JUndefined; timeout := Some 50 |}.

(** The page after [fetch('users', {timeout: 50})]. *)
Definition fetching : Page := fetch 0%nat "users" within_50 "req-1" (page_A None).

Lemma client_A_there api : clients (world (page_A api)) !! 0%nat = Some client_A.
Proof. reflexivity. Defined.

Lemma fetching_in_flight :
  in_flight 0%nat
    (tracking_client client_A "req-1" Correlation.env0 [] 50 ({["req-1"]} ∪ ∅))
    (tracked_request "req-1" Correlation.env0 [] 50)
    "req-1" "/api/users" 0%nat fetching.
Proof.
  exact (fetch_in_flight 0%nat client_A "users" within_50 "req-1" (page_A None)
           eq_refl eq_refl eq_refl eq_refl).
Defined.

Lemma fetch_on_disposed_client_rejects_witness :
  let pg := dispose 0%nat (page_A None) in
  isDisposed 0%nat (world pg) = true ∧
  promises (fetch 0%nat "users" within_50 "req-1" pg)
    = [RejectedWith (Error "HTTP client has been disposed")] ∧
  outbox (fetch 0%nat "users" within_50 "req-1" pg) = [].
Proof.
  cbn zeta. split; [reflexivity|].
  destruct (fetch_on_disposed_client_rejects 0%nat _ "users" within_50 "req-1"
              (dispose 0%nat (page_A None)) eq_refl eq_refl) as (Hp & _ & Ho & _).
  split; [exact Hp|exact Ho].
Defined.

Lemma fetch_sends_and_tracks_witness :
  clients (world (page_A None)) !! 0%nat = Some client_A ∧
  (0 < default (Correlation.defaultTimeout (_correlationManager client_A))
         (timeout within_50)) ∧
  fmap msg_url (outbox fetching) = [Some "/api/users"] ∧
  fmap msg_instanceId (outbox fetching) = [Some "A"] ∧
  promises fetching = [Pending] ∧
  Correlation.t_due <$> Correlation.timers (env (world fetching)) !! 1%nat = Some 50.
Proof.
  assert (HT : 0 < default (Correlation.defaultTimeout (_correlationManager client_A))
                     (timeout within_50)) by reflexivity.
  destruct (fetch_sends_and_tracks 0%nat client_A "users" within_50 "req-1" (page_A None)
              eq_refl eq_refl eq_refl eq_refl) as (Ho & Hp & _ & _ & Ht & _).
  split; [reflexivity|]. split; [exact HT|].
  split; [exact (f_equal (fmap (M := list) msg_url) Ho)|].
  split; [exact (f_equal (fmap (M := list) msg_instanceId) Ho)|].
  split; [exact Hp|]. exact (f_equal (fmap (M := option) Correlation.t_due) (Ht HT)).
Defined.

(** A Response with status 404 for "req-1", without instance id. *)
Definition not_found : MessageProtocol :=
  {| msg_id := "req-1"; msg_type := MResponse; msg_method := None; msg_url := None;
     msg_headers := None; msg_body := JUndefined; msg_status := Some 404;
     msg_error := None; msg_stack := None; msg_instanceId := None;
     msg_timestamp := 0 |}.

(** A Response with status 200 for "req-1" with a header whose name has a
    space in it. *)
Definition bad_header : MessageProtocol :=
  {| msg_id := "req-1"; msg_type := MResponse; msg_method := None; msg_url := None;
     msg_headers := Some {[ "x trace" := "1" ]}; msg_body := JUndefined;
     msg_status := Some 200; msg_error := None; msg_stack := None;
     msg_instanceId := None; msg_timestamp := 0 |}.

Lemma response_settles_fetch_witness :
  let found := CorrelationFacts.response_200 "req-1" (Some "A") in
  Correlation.ticks (env (world fetching)) = [] ∧
  addressed_to 0%nat
    (tracking_client client_A "req-1" Correlation.env0 [] 50 ({["req-1"]} ∪ ∅))
    found (world fetching) ∧
  promises (tick (on_message 0%nat found fetching))
    = [Resolved {| Response.status := Some 200; Response.statusText := "OK";
                   Response.headers := ∅; Response.ok := true;
                   Response.url := "/api/users"; Response._body := JUndefined |}] ∧
  promises (tick (on_message 0%nat not_found fetching))
    = [RejectedWith
         (VSCodeHttpError "HTTP 404: Not Found" (Some 404)
            {| Response.status := Some 404; Response.statusText := "Not Found";
               Response.headers := ∅; Response.ok := false;
               Response.url := "/api/users"; Response._body := JUndefined |})] ∧
  Response.new bad_header "/api/users" = None ∧
  promises (tick (on_message 0%nat bad_header fetching)) = [Pending] ∧
  getPendingRequestCount 0%nat (world (tick (on_message 0%nat bad_header fetching)))
    = 0%nat.
Proof.
  cbn zeta.
  assert (Ha : addressed_to 0%nat
                 (tracking_client client_A "req-1" Correlation.env0 [] 50
                    ({["req-1"]} ∪ ∅))
                 (CorrelationFacts.response_200 "req-1" (Some "A")) (world fetching)).
  { left. by split. }
  assert (Hb : ∀ message, msg_instanceId message = None →
                 addressed_to 0%nat
                   (tracking_client client_A "req-1" Correlation.env0 [] 50
                      ({["req-1"]} ∪ ∅))
                   message (world fetching)).
  { intros message Hnone. right. by rewrite Hnone. }
  assert (Hbad : Response.new bad_header "/api/users" = None) by reflexivity.
  split; [reflexivity|]. split; [exact Ha|]. split; [|split; [|split; [exact Hbad|]]].
  - exact (proj1 (response_settles_fetch 0%nat _ _ "req-1" "/api/users" 0%nat
                    (CorrelationFacts.response_200 "req-1" (Some "A")) 200 fetching
                    fetching_in_flight eq_refl eq_refl eq_refl eq_refl Ha)).
  - exact (proj1 (response_settles_fetch 0%nat _ _ "req-1" "/api/users" 0%nat
                    not_found 404 fetching fetching_in_flight eq_refl eq_refl eq_refl
                    eq_refl (Hb not_found eq_refl))).
  - destruct (response_settles_fetch 0%nat _ _ "req-1" "/api/users" 0%nat
                bad_header 200 fetching fetching_in_flight eq_refl eq_refl eq_refl
                eq_refl (Hb bad_header eq_refl)) as (Hps & _ & Hcl & _).
    rewrite Hbad in Hps. split; [exact Hps|].
    unfold getPendingRequestCount. rewrite Hcl. reflexivity.
Defined.

Lemma timeout_rejects_fetch_witness :
  let pg := wait 50 fetching in
  Correlation.timers (env (world pg)) !! 1%nat =
    Some {| Correlation.t_owner := 0%nat; Correlation.t_id := "req-1";
            Correlation.t_due := 50 |} ∧
  Correlation.now (env (world pg)) = 50 ∧
  ∃ response,
    promises (tick (fire 0%nat 1%nat pg))
      = [RejectedWith (VSCodeHttpError "Request timeout" (Some 408) response)] ∧
    Response.statusText response = "Request Timeout".
Proof.
  cbn zeta. split; [reflexivity|]. split; [reflexivity|].
  assert (Hfl : in_flight 0%nat
                  (tracking_client client_A "req-1" Correlation.env0 [] 50
                     ({["req-1"]} ∪ ∅))
                  (tracked_request "req-1" Correlation.env0 [] 50)
                  "req-1" "/api/users" 0%nat (wait 50 fetching)).
  { destruct fetching_in_flight as [F1 F2 F3 F4 F5 F6 F7]. by split. }
  eexists. split.
  - exact (proj1 (timeout_rejects_fetch 0%nat _ _ "req-1" "/api/users" 0%nat 1%nat _
                    (wait 50 fetching) Hfl eq_refl eq_refl eq_refl eq_refl
                    ltac:(vm_compute; discriminate))).
  - reflexivity.
Defined.

Lemma send_failure_rejects_fetch_witness :
  let pg := page_A (Some (Server.ThrowError "no channel")) in
  api_throws pg = Some (Server.ThrowError "no channel") ∧
  ∃ response,
    promises (tick (fetch 0%nat "users" within_50 "req-1" pg))
      = [RejectedWith (VSCodeHttpError "no channel" (Some 503) response)] ∧
    outbox (tick (fetch 0%nat "users" within_50 "req-1" pg)) = [].
Proof.
  cbn zeta. split; [reflexivity|].
  destruct (send_failure_rejects_fetch 0%nat client_A "users" within_50 "req-1"
              (Server.ThrowError "no channel")
              (page_A (Some (Server.ThrowError "no channel")))
              eq_refl eq_refl eq_refl eq_refl eq_refl) as (Hp & Ho & _).
  eexists. split; [exact Hp|exact Ho].
Defined.

Lemma dispose_rejects_every_fetch_witness :
  Correlation.ticks (env (world fetching)) = [] ∧
  promises fetching = [Pending] ∧
  promises (drain (dispose 0%nat fetching))
    !! 0%nat = Some (RejectedWith (Error "HTTP client has been disposed")) ∧
  getPendingRequestCount 0%nat (world (drain (dispose 0%nat fetching))) = 0%nat.
Proof.
  split; [reflexivity|]. split; [reflexivity|].
  destruct fetching_in_flight as [F1 F2 F3 F4 F5 F6 F7].
  destruct (dispose_rejects_every_fetch 0%nat _ fetching F1 F2 F3 eq_refl)
    as (Hall & _ & _ & Hcount & _).
  - intros entry Hin. apply list_elem_of_singleton in Hin as ->.
    eexists. split; [exact F6|reflexivity].
  - split; [|exact Hcount].
    exact (Hall _ "req-1" "/api/users" 0%nat fetching_in_flight).
Defined.

(** *** What holds on every page *)

(** Every request a manager tracks belongs to a [fetch] call of the
    manager's own client: its two callbacks are the two closures of that
    call, made for the id under which it is tracked, and their promise
    exists.  And a client's manager is disposed exactly when the client
    is. *)
Record page_ok pg : Prop := {
  ok_owned :
    ∀ this c id r,
      clients (world pg) !! this = Some c →
      (id, r) ∈ Correlation.pendingRequests (_correlationManager c) →
      ∃ fullUrl p,
        closures pg !! Correlation.pr_resolve r = Some (OnResponse this id fullUrl p) ∧
        closures pg !! Correlation.pr_reject r = Some (OnError this id fullUrl p) ∧
        (p < length (promises pg))%nat;
  ok_disposed :
    ∀ this c,
      clients (world pg) !! this = Some c →
      Correlation.disposed (_correlationManager c) = _disposed c;
  ok_empty :
    ∀ this c,
      clients (world pg) !! this = Some c →
      Correlation.disposed (_correlationManager c) = true →
      Correlation.pendingRequests (_correlationManager c) = [];
}.

(** From [w] to [w'] no client or manager was disposed and no manager
    tracks anything new. *)
Definition descends_world w w' : Prop :=
  ∀ this c',
    clients w' !! this = Some c' →
    ∃ c, clients w !! this = Some c ∧ _disposed c' = _disposed c ∧
         Correlation.disposed (_correlationManager c')
           = Correlation.disposed (_correlationManager c) ∧
         ∀ entry, entry ∈ Correlation.pendingRequests (_correlationManager c') →
                  entry ∈ Correlation.pendingRequests (_correlationManager c).

Definition descends pg pg' : Prop :=
  (∀ cb cl, closures pg !! cb = Some cl → closures pg' !! cb = Some cl) ∧
  (length (promises pg) ≤ length (promises pg'))%nat ∧
  descends_world (world pg) (world pg').

Lemma descends_world_refl w : descends_world w w.
Proof. intros this c Hc. by exists c. Qed.

Lemma descends_world_trans w1 w2 w3 :
  descends_world w1 w2 → descends_world w2 w3 → descends_world w1 w3.
Proof.
  intros H12 H23 this c3 Hc3.
  destruct (H23 this c3 Hc3) as (c2 & Hc2 & Hd2 & Hm2 & Hs2).
  destruct (H12 this c2 Hc2) as (c1 & Hc1 & Hd1 & Hm1 & Hs1).
  exists c1. split_and!; [done|congruence|congruence|auto].
Qed.

Lemma descends_refl pg : descends pg pg.
Proof. split_and!; [done|done|apply descends_world_refl]. Qed.

Lemma descends_trans pg1 pg2 pg3 : descends pg1 pg2 → descends pg2 pg3 → descends pg1 pg3.
Proof.
  intros (C1 & P1 & W1) (C2 & P2 & W2).
  split_and!; [auto|lia|by eapply descends_world_trans].
Qed.

Lemma page_ok_descends pg pg' : page_ok pg → descends pg pg' → page_ok pg'.
Proof.
  intros [Hown Hdis Hemp] (Hcls & Hps & Hw). split.
  - intros this c' id r Hc' Hin.
    destruct (Hw this c' Hc') as (c & Hc & _ & _ & Hsub).
    destruct (Hown this c id r Hc (Hsub _ Hin)) as (url & p & H1 & H2 & H3).
    exists url, p. split_and!; [auto|auto|lia].
  - intros this c' Hc'. destruct (Hw this c' Hc') as (c & Hc & Hd & Hm & _).
    rewrite Hd, Hm. by apply (Hdis this).
  - intros this c' Hc' Hd'. destruct (Hw this c' Hc') as (c & Hc & _ & Hm & Hsub).
    rewrite Hm in Hd'. pose proof (Hemp this c Hc Hd') as Hnil.
    destruct (Correlation.pendingRequests (_correlationManager c')) as [|entry rest];
      [done|].
    pose proof (Hsub entry ltac:(by left)) as Hin. rewrite Hnil in Hin.
    by apply elem_of_nil in Hin.
Qed.

(** A manager method that disposes nothing and tracks nothing new. *)
Definition shrinks (f : Correlation.State → Correlation.State) : Prop :=
  ∀ m e,
    Correlation.disposed (f (m, e)).1 = Correlation.disposed m ∧
    ∀ entry, entry ∈ Correlation.pendingRequests (f (m, e)).1 →
             entry ∈ Correlation.pendingRequests m.

Lemma delete_subset {V} k (m : list (string * V)) entry :
  entry ∈ JsMap.delete k m → entry ∈ m.
Proof. rewrite JsMapMore.delete_filter. by intros [_ ?]%list_elem_of_filter. Qed.

Lemma set_elem {V} k (v : V) (m : list (string * V)) entry :
  entry ∈ JsMap.set k v m → entry = (k, v) ∨ entry ∈ m.
Proof.
  induction m as [|[k' v'] rest IH]; cbn.
  - intros ->%list_elem_of_singleton. by left.
  - destruct (String.eqb k k') eqn:E.
    + apply String.eqb_eq in E as <-.
      intros [->|Hin]%elem_of_cons; [by left|right; by right].
    + intros [->|Hin]%elem_of_cons; [right; by left|].
      destruct (IH Hin) as [->|Hin']; [by left|right; by right].
Qed.

Lemma shrinks_resolveRequest id message :
  shrinks (λ st, (Correlation.resolveRequest id message st).2).
Proof.
  intros m e. unfold Correlation.resolveRequest.
  destruct (Correlation.disposed m) eqn:Hd; [by cbn|].
  destruct (JsMap.get id _) as [r|] eqn:Hr; [|by cbn].
  rewrite (CorrelationFacts.clearRequest_tracked id r) by done. cbn.
  split; [done|]. intros entry. apply delete_subset.
Qed.

Lemma shrinks_rejectRequest id message :
  shrinks (λ st, (Correlation.rejectRequest id message st).2).
Proof.
  intros m e. unfold Correlation.rejectRequest.
  destruct (Correlation.disposed m) eqn:Hd; [by cbn|].
  destruct (JsMap.get id _) as [r|] eqn:Hr; [|by cbn].
  rewrite (CorrelationFacts.clearRequest_tracked id r) by done. cbn.
  split; [done|]. intros entry. apply delete_subset.
Qed.

Lemma shrinks_fireTimer this h : shrinks (Correlation.fireTimer this h).
Proof.
  intros m e. unfold Correlation.fireTimer.
  destruct (Correlation.timers e !! h) as [t|]; [|done].
  destruct (_ && _); [|done]. apply shrinks_rejectRequest.
Qed.

Lemma on_manager_descends this f w : shrinks f → descends_world w (on_manager this f w).
Proof.
  intros Hf. destruct (clients w !! this) as [c|] eqn:Hc.
  - rewrite (on_manager_spec this c f w Hc). intros i c' Hc'. cbn in Hc'.
    destruct (decide (i = this)) as [->|Hne].
    + rewrite list_lookup_insert_eq in Hc' by by eapply lookup_lt_Some.
      injection Hc' as <-. exists c. destruct (Hf (_correlationManager c) (env w)).
      by split_and!.
    + rewrite list_lookup_insert_ne in Hc' by done. by exists c'.
  - unfold on_manager. rewrite Hc. apply descends_world_refl.
Qed.

Lemma messageHandler_descends this message w :
  descends_world w (_messageHandler this message w).
Proof.
  unfold _messageHandler. destruct (isDisposed this w); [apply descends_world_refl|].
  unfold _handleMessage. destruct (_handleMessage_call this message w) as [[id r|id r]|].
  - apply on_manager_descends, shrinks_resolveRequest.
  - apply on_manager_descends, shrinks_rejectRequest.
  - apply descends_world_refl.
Qed.

Lemma receive_descends message w : descends_world w (receive message w).
Proof.
  unfold receive. generalize (message_listeners w). intros ls. revert w.
  induction ls as [|client ls IH]; intros w; cbn; [apply descends_world_refl|].
  eapply descends_world_trans; [apply messageHandler_descends|apply IH].
Qed.

Lemma run_closure_descends cl arg pg : descends pg (run_closure cl arg pg).
Proof.
  assert (Hpending : ∀ this (f : gset string → gset string),
            descends pg (with_pendingRequests this f pg)).
  { intros this f. split_and!; [done|done|]. intros i c' Hc'. cbn in Hc'.
    destruct (decide (i = this)) as [->|Hne].
    - rewrite list_lookup_alter_eq in Hc'.
      destruct (clients (world pg) !! this) as [c|]; [|done].
      injection Hc' as <-. by exists c.
    - rewrite list_lookup_alter_ne in Hc' by done. by exists c'. }
  assert (Hsettle : ∀ p outcome pg0, descends pg0 (settle p outcome pg0)).
  { intros p outcome pg0. unfold settle.
    destruct (promises pg0 !! p) as [[| |]|]; try apply descends_refl.
    split_and!; [done|cbn; by rewrite length_insert|apply descends_world_refl]. }
  destruct cl as [this id url p|this id url p]; unfold run_closure;
    (eapply descends_trans; [apply (Hpending this)|]);
    repeat case_match; first [apply Hsettle|apply descends_refl].
Qed.

Lemma run_invocations_descends (invs : list Correlation.Invocation) :
  ∀ pg, descends pg (foldl run_invocation pg invs).
Proof.
  induction invs as [|inv invs IH]; intros pg; [apply descends_refl|].
  cbn [foldl]. eapply descends_trans; [|apply IH].
  unfold run_invocation. destruct (closures pg !! _); [|apply descends_refl].
  apply run_closure_descends.
Qed.

Lemma with_world_descends f pg :
  descends_world (world pg) (f (world pg)) → descends pg (with_world f pg).
Proof. intros Hw. by split_and!. Qed.

Lemma call_manager_descends this f pg : shrinks f → descends pg (call_manager this f pg).
Proof.
  intros Hf. unfold call_manager, run_new_calls.
  eapply descends_trans; [|apply run_invocations_descends].
  by apply with_world_descends, on_manager_descends.
Qed.

Lemma tick_descends pg : descends pg (tick pg).
Proof.
  unfold tick, run_new_calls.
  eapply descends_trans; [|apply run_invocations_descends].
  apply with_world_descends. intros this c Hc. by exists c.
Qed.

Lemma page_ok_tracking this c id url T set e pg pg' :
  page_ok pg → clients (world pg) !! this = Some c →
  Correlation.disposed (_correlationManager c) = false →
  clients (world pg') =
    <[this := tracking_client c id e (closures pg) T set]> (clients (world pg)) →
  closures pg' =
    closures pg ++ [OnResponse this id url (length (promises pg));
                    OnError this id url (length (promises pg))] →
  promises pg' = promises pg ++ [Pending] →
  page_ok pg'.
Proof.
  intros [Hown Hdis Hemp] Hc Hm Hcs Hcls Hps.
  assert (Hlen : (this < length (clients (world pg)))%nat) by by eapply lookup_lt_Some.
  assert (Hold : ∀ i ci id' r,
            clients (world pg) !! i = Some ci →
            (id', r) ∈ Correlation.pendingRequests (_correlationManager ci) →
            ∃ fullUrl p,
              closures pg' !! Correlation.pr_resolve r = Some (OnResponse i id' fullUrl p) ∧
              closures pg' !! Correlation.pr_reject r = Some (OnError i id' fullUrl p) ∧
              (p < length (promises pg'))%nat).
  { intros i ci id' r Hci Hin.
    destruct (Hown i ci id' r Hci Hin) as (fullUrl & p & H1 & H2 & H3).
    exists fullUrl, p. rewrite Hcls, Hps, length_app.
    split_and!; [by apply lookup_app_l_Some|by apply lookup_app_l_Some|cbn; lia]. }
  split.
  - intros i c' id' r Hc' Hin. rewrite Hcs in Hc'.
    destruct (decide (i = this)) as [->|Hne].
    + rewrite list_lookup_insert_eq in Hc' by done. injection Hc' as <-.
      cbn in Hin. apply set_elem in Hin as [[= -> ->]|Hin]; [|by eapply Hold].
      exists url, (length (promises pg)). rewrite Hcls, Hps, length_app. cbn.
      split_and!.
      * by rewrite lookup_app_r, Nat.sub_diag by lia.
      * rewrite lookup_app_r by lia.
        by replace (S (length (closures pg)) - length (closures pg))%nat
          with 1%nat by lia.
      * lia.
    + rewrite list_lookup_insert_ne in Hc' by done. by eapply Hold.
  - intros i c' Hc'. rewrite Hcs in Hc'.
    destruct (decide (i = this)) as [->|Hne].
    + rewrite list_lookup_insert_eq in Hc' by done. injection Hc' as <-.
      cbn. by apply (Hdis this).
    + rewrite list_lookup_insert_ne in Hc' by done. by apply (Hdis i).
  - intros i c' Hc' Hd'. rewrite Hcs in Hc'.
    destruct (decide (i = this)) as [->|Hne].
    + rewrite list_lookup_insert_eq in Hc' by done. injection Hc' as <-.
      cbn in Hd'. congruence.
    + rewrite list_lookup_insert_ne in Hc' by done. by apply (Hemp i).
Qed.

Lemma page_ok_fetch this url options correlationId pg :
  page_ok pg → page_ok (fetch this url options correlationId pg).
Proof.
  intros Hok.
  destruct (clients (world pg) !! this) as [c|] eqn:Hc;
    [|unfold fetch; by rewrite Hc].
  assert (Hlen : (this < length (clients (world pg)))%nat) by by eapply lookup_lt_Some.
  destruct (_disposed c) eqn:Hd.
  { apply (page_ok_descends pg); [done|]. unfold fetch. rewrite Hc, Hd.
    rewrite settle_fresh. split_and!; cbn.
    - done.
    - rewrite length_app. lia.
    - apply descends_world_refl. }
  assert (Hm : Correlation.disposed (_correlationManager c) = false).
  { rewrite <- Hd. by apply (ok_disposed pg Hok this). }
  set (T := default (Correlation.defaultTimeout (_correlationManager c)) (timeout options)).
  destruct (api_throws pg) as [error|] eqn:Hapi.
  - rewrite (fetch_throwing this c url options correlationId error pg Hc Hd Hm Hapi).
    match goal with |- page_ok (with_world _ ?x) => set (pg4 := x) end.
    apply (page_ok_descends pg4).
    + by apply (page_ok_tracking this c correlationId (_resolveUrl c url) T
                  (({[correlationId]} ∪ _pendingRequests c) ∖ {[correlationId]})
                  (env (world pg)) pg pg4 Hok Hc Hm).
    + apply with_world_descends, on_manager_descends, shrinks_rejectRequest.
  - rewrite (fetch_live this c url options correlationId pg Hc Hd Hm Hapi).
    match goal with |- page_ok ?x => set (pgL := x) end.
    apply (page_ok_tracking this c correlationId (_resolveUrl c url) T
             ({[correlationId]} ∪ _pendingRequests c) (env (world pg)) pg pgL);
      [done|done|done| |done|done].
    unfold pgL. cbn [world].
    set (c1 := {| _correlationManager := _correlationManager c; _baseUrl := _baseUrl c;
                  _disposed := _disposed c;
                  _pendingRequests := {[correlationId]} ∪ _pendingRequests c;
                  _instanceId := _instanceId c |}).
    match goal with |- context [update_client this ?g (world pg)] =>
      set (w1 := update_client this g (world pg)) end.
    assert (Hc1 : clients w1 !! this = Some c1).
    { cbn. by rewrite list_lookup_alter_eq, Hc. }
    rewrite (on_manager_client this c1) by done.
    rewrite (addPendingRequest_live _ _ _ _ _ _ _ Hm). cbn [fst].
    apply list_eq. intros i. destruct (decide (i = this)) as [->|Hne].
    + rewrite !list_lookup_insert_eq; [done|done|by unfold w1; cbn; rewrite length_alter].
    + rewrite !list_lookup_insert_ne by done. unfold w1. cbn.
      by rewrite list_lookup_alter_ne.
Qed.

Lemma dispose_others this i w :
  i ≠ this → clients (Client.dispose this w) !! i = clients w !! i.
Proof.
  intros Hne. unfold Client.dispose.
  destruct (clients w !! this) as [c|] eqn:Hc; [|done].
  destruct (_disposed c); [done|].
  match goal with |- context [on_manager this _ ?x] => set (w4 := x) end.
  assert (Hc4 : clients w4 = alter (λ c, {| _correlationManager := _correlationManager c;
                                            _baseUrl := _baseUrl c; _disposed := true;
                                            _pendingRequests := _pendingRequests c;
                                            _instanceId := _instanceId c |}) this
                               (clients w)).
  { unfold w4. by destruct (bool_decide _). }
  cbn [update_client clients]. rewrite list_lookup_alter_ne by done.
  destruct (clients w4 !! this) as [c4|] eqn:Hc4'.
  - rewrite (on_manager_client this c4) by done.
    by rewrite list_lookup_insert_ne, Hc4, list_lookup_alter_ne by done.
  - unfold on_manager. rewrite Hc4'. by rewrite Hc4, list_lookup_alter_ne.
Qed.

Lemma page_ok_dispose this pg : page_ok pg → page_ok (dispose this pg).
Proof.
  intros Hok. pose proof Hok as [Hown Hdis Hemp].
  destruct (clients (world pg) !! this) as [c|] eqn:Hc.
  2:{ unfold dispose, with_world, Client.dispose. rewrite Hc. by destruct pg. }
  destruct (_disposed c) eqn:Hd.
  { unfold dispose, with_world, Client.dispose. rewrite Hc, Hd. by destruct pg. }
  assert (Hm : Correlation.disposed (_correlationManager c) = false).
  { rewrite <- Hd. by apply (Hdis this). }
  destruct (dispose_live this c (world pg) Hc Hd) as [Hc' _].
  unfold Correlation.clearAllRequests in Hc'. rewrite Hm in Hc'. cbn [fst] in Hc'.
  split; cbn [dispose with_world world closures promises].
  - intros i c' id r Hi Hin. destruct (decide (i = this)) as [->|Hne].
    + rewrite Hc' in Hi. injection Hi as <-. cbn in Hin. by apply elem_of_nil in Hin.
    + rewrite dispose_others in Hi by done. by eapply Hown.
  - intros i c' Hi. destruct (decide (i = this)) as [->|Hne].
    + rewrite Hc' in Hi. by injection Hi as <-.
    + rewrite dispose_others in Hi by done. by apply (Hdis i).
  - intros i c' Hi Hd'. destruct (decide (i = this)) as [->|Hne].
    + rewrite Hc' in Hi. by injection Hi as <-.
    + rewrite dispose_others in Hi by done. by apply (Hemp i).
Qed.

Lemma page_ok_new api optionsOrBaseUrl generated pg :
  page_ok pg → page_ok (with_world (λ w, (new api optionsOrBaseUrl generated w).2) pg).
Proof.
  intros [Hown Hdis Hemp]. unfold with_world, new. destruct api; cbn [negb].
  2:{ cbn. by destruct pg. }
  destruct (match optionsOrBaseUrl with
            | Some (BaseUrl baseUrl) => (None, Some baseUrl)
            | Some (Options instanceId baseUrl) => (instanceId, baseUrl)
            | None => (None, None)
            end) as [instanceId baseUrl]. cbn [snd].
  split; cbn [world clients closures promises].
  - intros i c' id r Hi Hin.
    destruct (decide (i < length (clients (world pg)))%nat) as [Hlt|Hge].
    + rewrite lookup_app_l in Hi by done. by eapply Hown.
    + rewrite lookup_app_r in Hi by lia.
      destruct (i - length (clients (world pg)))%nat; [|done].
      injection Hi as <-. cbn in Hin. by apply elem_of_nil in Hin.
  - intros i c' Hi.
    destruct (decide (i < length (clients (world pg)))%nat) as [Hlt|Hge].
    + rewrite lookup_app_l in Hi by done. by apply (Hdis i).
    + rewrite lookup_app_r in Hi by lia.
      destruct (i - length (clients (world pg)))%nat; [|done].
      by injection Hi as <-.
  - intros i c' Hi Hd'.
    destruct (decide (i < length (clients (world pg)))%nat) as [Hlt|Hge].
    + rewrite lookup_app_l in Hi by done. by apply (Hemp i).
    + rewrite lookup_app_r in Hi by lia.
      destruct (i - length (clients (world pg)))%nat; [|done].
      by injection Hi as <-.
Qed.

Lemma page_ok_step pg op : page_ok pg → page_ok (step pg op).
Proof.
  intros Hok. destruct op; cbn [step].
  - by apply page_ok_new.
  - by apply page_ok_fetch.
  - by apply page_ok_dispose.
  - apply (page_ok_descends pg); [done|]. apply with_world_descends, receive_descends.
  - apply (page_ok_descends pg); [done|]. apply tick_descends.
  - apply (page_ok_descends pg); [done|]. apply call_manager_descends, shrinks_fireTimer.
  - apply (page_ok_descends pg); [done|]. apply with_world_descends.
    intros i c Hc. by exists c.
  - apply (page_ok_descends pg); [done|]. split_and!; [done|done|apply descends_world_refl].
Qed.

(** X28. On every page that can come about, every request that a client's
    manager tracks was registered by a [fetch] call of that client: its
    two callbacks are the closures of one call, made for the id it is
    tracked under, and they settle a promise that exists.  The manager of a
    client is disposed exactly when the client is, and a disposed client's
    manager tracks nothing. *)
Theorem tracked_requests_belong_to_fetch pg :
  reachable pg →
  ∀ this c,
    clients (world pg) !! this = Some c →
    Correlation.disposed (_correlationManager c) = _disposed c ∧
    (∀ id r,
       JsMap.get id (Correlation.pendingRequests (_correlationManager c)) = Some r →
       _disposed c = false ∧
       ∃ fullUrl p,
         closures pg !! Correlation.pr_resolve r = Some (OnResponse this id fullUrl p) ∧
         closures pg !! Correlation.pr_reject r = Some (OnError this id fullUrl p) ∧
         is_Some (promises pg !! p)).
Proof.
  intros (ops & ->).
  assert (Hok : page_ok (foldl step blank ops)).
  { assert (Hblank : page_ok blank).
    { split; intros this c; cbn; by rewrite lookup_nil. }
    revert Hblank. generalize blank.
    induction ops as [|op ops IH]; intros pg Hpg; [done|].
    cbn [foldl]. by apply IH, page_ok_step. }
  destruct Hok as [Hown Hdis Hemp]. intros this c Hc.
  split; [by apply (Hdis this)|].
  intros id r Hr.
  assert (Hin : (id, r) ∈ Correlation.pendingRequests (_correlationManager c))
    by by apply JsMapMore.get_Some_elem.
  split.
  - rewrite <- (Hdis this c Hc).
    destruct (Correlation.disposed (_correlationManager c)) eqn:Hd; [|done].
    rewrite (Hemp this c Hc Hd) in Hin. by apply elem_of_nil in Hin.
  - destruct (Hown this c id r Hc Hin) as (fullUrl & p & H1 & H2 & H3).
    exists fullUrl, p. split_and!; [done|done|]. by apply lookup_lt_is_Some.
Qed.

Lemma tracked_requests_belong_to_fetch_witness :
  reachable fetching ∧
  (∃ c, clients (world fetching) !! 0%nat = Some c ∧ _disposed c = false) ∧
  closures fetching =
    [OnResponse 0%nat "req-1" "/api/users" 0%nat;
     OnError 0%nat "req-1" "/api/users" 0%nat].
Proof.
  assert (H1 : reachable fetching).
  { by exists [ONew true (Some (Options (Some "A") (Some "/api"))) "k3x9";
               OFetch 0%nat "users" within_50 "req-1"]. }
  split; [exact H1|].
  destruct fetching_in_flight as [F1 F2 F3 F4 F5 F6 F7].
  destruct (tracked_requests_belong_to_fetch fetching H1 0%nat _ F1) as [_ Hall].
  destruct (Hall "req-1" _ F4) as (Hd & _).
  split; [eexists; split; [exact F1|exact Hd]|reflexivity].
Defined.

End FetchFacts.

(** ** The client's place on its page *)

Module ClientMore.
Import Js Protocol Client ClientFacts.

Lemma dispose_primary this c w :
  registry_ok w → clients w !! this = Some c → _disposed c = false →
  primaryClient (dispose this w) =
    if bool_decide (primaryClient w = Some this)
    then head (filter (λ client, client ≠ this) (globalClientRegistry w))
    else primaryClient w.
Proof.
  intros [Ha Hp] Hc Hd. unfold dispose. rewrite Hc, Hd.
  match goal with |- primaryClient (update_client this ?f (on_manager this ?g ?w4)) = _ =>
    set (wlast := w4);
    assert (Hsk : same_skeleton wlast (update_client this f (on_manager this g wlast)))
  end.
  { eapply same_skeleton_trans; [apply on_manager_skeleton|].
    by apply update_client_skeleton. }
  destruct Hsk as (_ & -> & _ & _).
  set (w1 := update_client this _ w) in *.
  assert (Hlive : ∀ client, client ∈ filter (λ client, client ≠ this) (globalClientRegistry w) →
                    isDisposed client
                      (with_registry (filter (λ client, client ≠ this)) w1) = false).
  { intros client [Hne Hin%Ha]%list_elem_of_filter. revert Hin.
    unfold alive, isDisposed. cbn. rewrite list_lookup_alter_ne by done.
    destruct (clients w !! client); [|done]. by intros ->%negb_true_iff. }
  unfold wlast. cbn [primaryClient with_listeners with_registry w1 update_client].
  destruct (bool_decide (primaryClient w = Some this)); cbn; [|done].
  unfold next_primary. cbn [globalClientRegistry with_registry].
  change (globalClientRegistry w1) with (globalClientRegistry w).
  by rewrite (filter_all _ _ Hlive).
Qed.

(** X29. On every page that can come about, the primary client is a client that
    is not disposed, and there is one as long as any client is not
    disposed.  Disposing the primary client hands the role to the client
    that was registered first among those that remain, or to none when none
    remains; disposing any other client leaves the primary client in its
    role. *)
Theorem primary_client_handover this c w :
  reachable w → clients w !! this = Some c → _disposed c = false →
  (∃ p, primaryClient w = Some p ∧ isDisposed p w = false ∧
        is_Some (clients w !! p)) ∧
  (primaryClient w = Some this →
   primaryClient (dispose this w) =
     head (filter (λ client, client ≠ this) (globalClientRegistry w))) ∧
  (primaryClient w ≠ Some this → primaryClient (dispose this w) = primaryClient w) ∧
  (∀ client, client ∈ globalClientRegistry w ↔
             ∃ c', clients w !! client = Some c' ∧ _disposed c' = false).
Proof.
  intros Hreach Hc Hd. pose proof (reachable_registry_ok w Hreach) as Hok.
  pose proof Hok as [Ha Hp].
  assert (Halive : ∀ client, alive client w = true ↔
                     ∃ c', clients w !! client = Some c' ∧ _disposed c' = false).
  { intros client. unfold alive. destruct (clients w !! client) as [c'|].
    - rewrite negb_true_iff. split; [by exists c'|]. by intros (? & [= <-] & ?).
    - split; [done|]. by intros (? & ? & _). }
  assert (Hin : this ∈ globalClientRegistry w).
  { apply Ha, Halive. by exists c. }
  split_and!.
  - destruct (primaryClient w) as [p|]; [|rewrite Hp in Hin; by apply elem_of_nil in Hin].
    exists p. split; [done|]. apply Ha, Halive in Hp as (c' & Hc' & Hd').
    unfold isDisposed. rewrite Hc'. split; [done|by eexists].
  - intros Hprim. rewrite (dispose_primary this c w Hok Hc Hd).
    by rewrite bool_decide_eq_true_2.
  - intros Hprim. rewrite (dispose_primary this c w Hok Hc Hd).
    by rewrite bool_decide_eq_false_2.
  - intros client. by rewrite Ha, Halive.
Qed.

Lemma primary_client_handover_witness :
  reachable two_clients ∧
  primaryClient two_clients = Some 0%nat ∧
  primaryClient (dispose 0%nat two_clients) = Some 1%nat ∧
  primaryClient (dispose 1%nat two_clients) = Some 0%nat.
Proof.
  assert (H1 : reachable two_clients).
  { apply reach_new, reach_new, reach_empty. }
  split; [exact H1|]. split; [reflexivity|].
  destruct (primary_client_handover 0%nat _ two_clients H1 eq_refl eq_refl)
    as (_ & Hfirst & _).
  destruct (primary_client_handover 1%nat _ two_clients H1 eq_refl eq_refl)
    as (_ & _ & Hother & _).
  split; [exact (Hfirst eq_refl)|]. apply Hother. discriminate.
Defined.

End ClientMore.

(** ** A request and its answer, end to end *)

Module RoundTrip.
Import Js Protocol Client Fetch FetchFacts.

Lemma fetch_keeps_ticks this c url options correlationId pg :
  clients (world pg) !! this = Some c → _disposed c = false →
  Correlation.disposed (_correlationManager c) = false →
  api_throws pg = None →
  Correlation.ticks (env (world (fetch this url options correlationId pg)))
    = Correlation.ticks (env (world pg)) ∧
  promises (fetch this url options correlationId pg) = promises pg ++ [Pending].
Proof.
  intros Hc Hd Hm Hapi.
  rewrite (fetch_live this c url options correlationId pg Hc Hd Hm Hapi).
  cbn [world promises]. split; [|done].
  assert (Hlen : (this < length (clients (world pg)))%nat) by by eapply lookup_lt_Some.
  match goal with |- context [update_client this ?g (world pg)] =>
    set (w1 := update_client this g (world pg)) end.
  assert (Hc1 : ∃ c1, clients w1 !! this = Some c1 ∧
                      _correlationManager c1 = _correlationManager c).
  { eexists. split; [cbn; by rewrite list_lookup_alter_eq, Hc|done]. }
  destruct Hc1 as (c1 & Hc1 & Hm1).
  rewrite (on_manager_env this c1) by done. rewrite Hm1.
  rewrite (addPendingRequest_live _ _ _ _ _ _ _ Hm). cbn [snd].
  by destruct (0 <? _).
Qed.

(** X30. A [fetch], the server's handling of the envelope it sends, the
    framework's [end], and the client's handling of the envelope that
    answers, for a client that was given the server's instance id.  The
    promise of the call is fulfilled with a response of status 200, text
    'OK', no headers, the resolved URL, and as body what the server made of
    the chunk. *)
Theorem fetch_round_trip `{Runtime} this c url options correlationId pg
  srv s wv (w : Server.World) chunk :
  clients (world pg) !! this = Some c → _disposed c = false →
  Correlation.disposed (_correlationManager c) = false →
  api_throws pg = None → Correlation.ticks (env (world pg)) = [] →
  TransportMore.ready srv s w →
  Server.webviews w !! Server.Transport._webview s = Some wv →
  Server.gone wv = false →
  Server.Transport._instanceId s = _instanceId c → _instanceId c ≠ "" →
  let pg1 := fetch this url options correlationId pg in
  ∃ request answer,
    outbox pg1 = outbox pg ++ [request] ∧
    Server.posted <$>
      Server.webviews
        (Server.end_ (length (Server.responses w)) chunk
           (Server._handleMessage Server.no_listener srv request w))
        !! Server.Transport._webview s
      = Some (Server.posted wv ++ [answer]) ∧
    msg_id answer = correlationId ∧
    msg_body answer =
      (if is_undefined chunk then JUndefined
       else
         let combined := join "" [chunk] in
         if startsWith "{" combined || startsWith "[" combined then
           match JSON_parse combined with
           | Some parsed => parsed
           | None => JStr combined
           end
         else JStr combined) ∧
    promises (tick (on_message this answer pg1)) =
      promises pg
      ++ [Resolved {| Response.status := Some 200; Response.statusText := "OK";
                      Response.headers := ∅; Response.ok := true;
                      Response.url := _resolveUrl c url;
                      Response._body := msg_body answer |}].
Proof.
  intros Hc Hd Hm Hapi Ht Hready Hwv Hgone Hid Hne pg1.
  pose proof (fetch_in_flight this c url options correlationId pg Hc Hd Hm Hapi) as Hfl.
  cbn zeta in Hfl. fold pg1 in Hfl.
  destruct (fetch_keeps_ticks this c url options correlationId pg Hc Hd Hm Hapi)
    as [Ht1 Hp1]. fold pg1 in Ht1, Hp1.
  set (request :=
         {| msg_id := correlationId; msg_type := MRequest;
            msg_method := Some (default GET (method options));
            msg_url := Some (_resolveUrl c url); msg_headers := headers options;
            msg_body := body options; msg_status := None; msg_error := None;
            msg_stack := None;
            msg_instanceId := if truthy (Some (_instanceId c))
                              then Some (_instanceId c) else None;
            msg_timestamp := Correlation.now (env (world pg)) |}).
  assert (Hout : outbox pg1 = outbox pg ++ [request]).
  { unfold pg1. by rewrite (fetch_live this c url options correlationId pg Hc Hd Hm Hapi). }
  exists request.
  assert (Hreq : isRequestMessage request = true) by done.
  rewrite (TransportMore.handleMessage_returns srv s request w Hready Hreq).
  set (w1 := TransportMore.handled srv s request w).
  set (r0 := Server.Response.once_finish (Server.Response.Untrack srv)
               (Server.Response.new correlationId (Server.Transport._webview s)
                  (Server.Transport._instanceId s))).
  assert (Hr0 : Server.responses w1 !! length (Server.responses w) = Some r0).
  { cbn. by rewrite lookup_app_r, Nat.sub_diag by lia. }
  assert (Hopen : ServerFacts.open r0) by by repeat split.
  destruct (ServerFacts.end_open_posts (length (Server.responses w)) chunk r0 wv w1
              Hr0 Hopen Hwv Hgone) as (Hwvs & _ & _).
  set (answer := Server.Response.responseMessage (Server.now w1)
                   (Server.Response.end_mark chunk r0)) in *.
  exists answer. split; [exact Hout|]. split.
  { rewrite Hwvs. change (Server.Response._webview r0) with (Server.Transport._webview s).
    rewrite list_lookup_alter_eq. change (Server.webviews w1) with (Server.webviews w).
    by rewrite Hwv. }
  split; [done|].
  assert (Hbody : msg_body answer =
            (if is_undefined chunk then JUndefined
             else
               let combined := join "" [chunk] in
               if startsWith "{" combined || startsWith "[" combined then
                 match JSON_parse combined with
                 | Some parsed => parsed
                 | None => JStr combined
                 end
               else JStr combined)).
  { unfold answer, Server.Response.responseMessage, Server.Response._combineBody.
    cbn [msg_body Server.Response._body Server.Response.end_mark r0
         Server.Response.once_finish Server.Response.new negb].
    by destruct (is_undefined chunk). }
  split; [exact Hbody|].
  assert (Haddr : addressed_to this
                    (tracking_client c correlationId (env (world pg)) (closures pg)
                       (default (Correlation.defaultTimeout (_correlationManager c))
                          (timeout options))
                       ({[correlationId]} ∪ _pendingRequests c))
                    answer (world pg1)).
  { left. cbn. rewrite Hid. by destruct (_instanceId c). }
  destruct (response_lands this _ _ correlationId (_resolveUrl c url)
              (length (promises pg)) answer 200 pg1 Hfl)
    as (Hps & _); [by rewrite Ht1|done..|].
  rewrite (new_empty_headers answer (_resolveUrl c url) eq_refl) in Hps.
  rewrite Hps, Hp1.
  replace (length (promises pg)) with (length (promises pg) + 0)%nat at 1 by lia.
  by rewrite insert_app_r.
Qed.

(** X19. A client made without an [instanceId] option and a server, each
    with the instance id its constructor makes ('client_...' and
    'server_...').  The request the client's [fetch] posts carries the
    client's id; the server handles it all the same, and both the Response
    envelope posted when the framework ends the response and the Error
    envelope posted when the listener throws carry the server's id.  The
    client leaves either envelope alone, as it does every message with the
    id of a server: nothing on the page changes, and the promise of the
    call stays pending. *)
Theorem default_client_never_sees_the_answer `{Runtime}
  baseUrl cgen url options correlationId pg
  webview wv sgen callback (w : Server.World) chunk error :
  api_throws pg = None →
  Server.webviews w !! webview = Some wv → Server.gone wv = false →
  let this := length (clients (world pg)) in
  let pg1 := fetch this url options correlationId
               (step pg (ONew true (Some (Options None baseUrl)) cgen)) in
  let srv := length (Server.servers w) in
  let w1 := Server.listen srv callback (ServerInstance.construct webview sgen w).2 in
  let res := length (Server.responses w) in
  ∃ request answer failure,
    (outbox pg1 = outbox pg ++ [request] ∧
     msg_id request = correlationId ∧
     msg_instanceId request = Some ("client_" +:+ cgen) ∧
     promises pg1 = promises pg ++ [Pending]) ∧
    (Server.posted <$>
       Server.webviews
         (Server.end_ res chunk (Server._handleMessage Server.no_listener srv request w1))
         !! webview
       = Some (Server.posted wv ++ [answer]) ∧
     msg_type answer = MResponse ∧ msg_id answer = correlationId ∧
     msg_instanceId answer = Some ("server_" +:+ sgen)) ∧
    (Server.posted <$>
       Server.webviews
         (Server._handleMessage (λ _ _ w', (w', Some error)) srv request w1) !! webview
       = Some (Server.posted wv ++ [failure]) ∧
     msg_type failure = MError ∧ msg_id failure = correlationId ∧
     msg_instanceId failure = Some ("server_" +:+ sgen)) ∧
    on_message this answer pg1 = pg1 ∧
    on_message this failure pg1 = pg1 ∧
    (∀ suffix message,
       msg_instanceId message = Some ("server_" +:+ suffix) →
       on_message this message pg1 = pg1).
Proof.
  intros Hapi Hwv Hgone this pg1 srv w1 res.
  set (pg0 := step pg (ONew true (Some (Options None baseUrl)) cgen)) in *.
  set (c0 := {| _correlationManager := Correlation.new None;
                _baseUrl := if truthy baseUrl then default "" baseUrl else "";
                _disposed := false; _pendingRequests := ∅;
                _instanceId := "client_" +:+ cgen |}).
  assert (Hc0 : clients (world pg0) !! this = Some c0).
  { cbn. by rewrite lookup_app_r, Nat.sub_diag by lia. }
  assert (Hapi0 : api_throws pg0 = None) by exact Hapi.
  pose proof (fetch_live this c0 url options correlationId pg0 Hc0 eq_refl eq_refl Hapi0)
    as Hlive.
  pose proof (fetch_in_flight this c0 url options correlationId pg0 Hc0 eq_refl eq_refl
                Hapi0) as Hfl.
  cbn zeta in Hfl. fold pg1 in Hlive, Hfl.
  pose proof (fl_client _ _ _ _ _ _ _ Hfl) as Hc1.
  assert (Hforeign : ∀ suffix message,
            msg_instanceId message = Some ("server_" +:+ suffix) →
            on_message this message pg1 = pg1).
  { intros suffix message Hm. apply (on_message_foreign this _ message pg1 Hc1).
    - by rewrite Hm.
    - rewrite Hm. cbn. discriminate. }
  destruct (TransportMore.construct_listen_ready webview sgen callback wv w Hwv)
    as (Hready & Hres & Hwv1).
  fold srv in Hready, Hwv1. fold w1 in Hready, Hres, Hwv1.
  set (request :=
         {| msg_id := correlationId; msg_type := MRequest;
            msg_method := Some (default GET (method options));
            msg_url := Some (_resolveUrl c0 url); msg_headers := headers options;
            msg_body := body options; msg_status := None; msg_error := None;
            msg_stack := None;
            msg_instanceId := Some ("client_" +:+ cgen);
            msg_timestamp := Correlation.now (env (world pg0)) |}).
  assert (Hreq : isRequestMessage request = true) by done.
  destruct (TransportMore.answer_posted srv _ request chunk _ w1 Hready Hreq Hwv1 Hgone)
    as (answer & Hposted & Hty & Hid & Hinst).
  destruct (TransportMore.failure_posted srv _ request error _ w1 Hready Hreq Hwv1 Hgone)
    as (failure & Hposted' & Hty' & Hid' & _ & Hinst').
  exists request, answer, failure. split_and!.
  - by rewrite Hlive.
  - done.
  - done.
  - by rewrite Hlive.
  - unfold res. rewrite <- Hres. exact Hposted.
  - exact Hty.
  - exact Hid.
  - exact Hinst.
  - exact Hposted'.
  - exact Hty'.
  - exact Hid'.
  - exact Hinst'.
  - by apply (Hforeign sgen).
  - by apply (Hforeign sgen).
  - exact Hforeign.
Qed.

(** A page without clients, and an extension host with one webview. *)
Lemma default_client_never_sees_the_answer_witness :
  let pg1 := fetch 0%nat "/x" within_50 "req-1"
               (step blank (ONew true (Some (Options None None)) "k3x9")) in
  let w1 := Server.listen 0%nat None
              (ServerInstance.construct 0%nat "m2c4" Server.one_webview).2 in
  api_throws blank = None ∧
  Server.webviews Server.one_webview !! 0%nat
    = Some {| Server.posted := []; Server.gone := false; Server.subscribers := [] |} ∧
  ∃ request answer,
    outbox pg1 = [request] ∧
    msg_instanceId request = Some "client_k3x9" ∧
    Server.posted <$>
      Server.webviews
        (@Server.end_ JsonRef.runtime 0%nat (JStr "hello")
           (Server._handleMessage Server.no_listener 0%nat request w1)) !! 0%nat
      = Some [answer] ∧
    msg_instanceId answer = Some "server_m2c4" ∧
    promises (tick (on_message 0%nat answer pg1)) = [Pending].
Proof.
  cbn zeta. split; [reflexivity|]. split; [reflexivity|].
  destruct (@default_client_never_sees_the_answer JsonRef.runtime None "k3x9" "/x"
              within_50 "req-1" blank 0%nat _ "m2c4" None Server.one_webview
              (JStr "hello") Server.ThrowOther eq_refl eq_refl eq_refl)
    as (request & answer & failure & (Hout & _ & Hcid & _) & (Hposted & _ & _ & Hsid)
        & _ & Hignored & _).
  exists request, answer. split; [exact Hout|]. split; [exact Hcid|].
  split; [exact Hposted|]. split; [exact Hsid|].
  exact (eq_trans (f_equal (λ pg, promises (tick pg)) Hignored) eq_refl).
Defined.

(** A client that is given the instance id of "server_A". *)
Definition page_for_server_A : Page :=
  {| world := (new true (Some (Options (Some "server_A") None)) "k3x9" empty_page).2;
     closures := []; promises := []; outbox := []; api_throws := None |}.

Lemma fetch_round_trip_witness :
  let c := {| _correlationManager := Correlation.new None; _baseUrl := "";
              _disposed := false; _pendingRequests := ∅;
              _instanceId := "server_A" |} in
  clients (world page_for_server_A) !! 0%nat = Some c ∧
  TransportMore.ready 0%nat TransportMore.server_A ServerFacts.listening_server ∧
  ∃ request answer,
    outbox (fetch 0%nat "/x" within_50 "req-1" page_for_server_A) = [request] ∧
    msg_body answer = JStr "hello" ∧
    promises (tick (on_message 0%nat answer
                      (fetch 0%nat "/x" within_50 "req-1" page_for_server_A)))
      = [Resolved {| Response.status := Some 200; Response.statusText := "OK";
                     Response.headers := ∅; Response.ok := true;
                     Response.url := "/x"; Response._body := msg_body answer |}].
Proof.
  cbn zeta. split; [reflexivity|]. split; [exact TransportMore.ready_server_A|].
  destruct (@fetch_round_trip JsonRef.runtime 0%nat _ "/x" within_50 "req-1"
              page_for_server_A 0%nat TransportMore.server_A _
              ServerFacts.listening_server (JStr "hello")
              eq_refl eq_refl eq_refl eq_refl eq_refl TransportMore.ready_server_A
              eq_refl eq_refl eq_refl ltac:(discriminate))
    as (request & answer & Hout & _ & _ & Hbody & Hps).
  exists request, answer. split; [exact Hout|]. split; [exact Hbody|exact Hps].
Defined.

End RoundTrip.
